(** * Music recommendation API: a shallow embedding of the serving core

    The development follows the NestJS services of [apps/api/src]:

    - [Shared]                   the types of [packages/shared] (types and Zod schemas);
    - [InteractionsService]      the interaction write path and the skip-burst check;
    - [InterestGraphService]     [compute] and [normalizeTop];
    - [UsersService]             [parseVector] and [findOrCreateProfile];
    - [RecommendationsService]   the pipeline: filters, context ranking, ML reorder,
                                 artist diversity, cache (the [HEAD] side of the
                                 merge the sources hold);
    - [RecommendationsService_1b6bdb2]  the pipeline of the other side;
    - [RecommendationsController], [InteractionsController], [RecommendationGateway].

    JavaScript numbers that the code only compares, adds and multiplies are
    rationals ([Q]); numbers that may be [NaN] or infinite (parsed vectors) are
    [JS.num].  Rounding to doubles is not modelled: a statement that depends on
    the exact value of a sum or a quotient says for which inputs the doubles
    hold it exactly.  The relational store, the cache and the ML service are
    external: the rows a query returns are inputs of the model, the code around
    the query is translated as written, and what the columns of the store
    refuse or deliver is written out where a statement depends on it. *)

From Stdlib Require Import ZArith QArith Qround Qabs Lia Lqa String Ascii List Permutation.
From stdpp Require Import base list gmap strings sets sorting.

Close Scope Q_scope.
Set Warnings "-register-all,-clear-no-such-hyp".

(** ** Errors and results *)

Inductive Error : Type :=
| StoreError (msg : string)
| ValidationError (msg : string)
| EmitError (msg : string).

Inductive Result (A : Type) : Type :=
| Ok (a : A)
| Throw (e : Error).
Arguments Ok {A} a.
Arguments Throw {A} e.

#[global] Instance Result_bind : MBind Result := λ A B k r,
  match r with
  | Ok a => k a
  | Throw e => Throw e
  end.

#[global] Instance Result_ret : MRet Result := λ A a, Ok a.

(** ** The values of JavaScript the services touch *)

Module JS.

(** A JavaScript number: a finite value, [NaN] or an infinity. *)
Inductive num : Type :=
| Fin (q : Q)
| NaN
| PosInf
| NegInf.

Definition isFinite (n : num) : bool :=
  match n with Fin _ => true | _ => false end.

(** Truthiness of an optional number, as in [a.audioFeatures?.energy]:
    [undefined] and [0] are falsy. *)
Definition truthyQ (o : option Q) : bool :=
  match o with
  | Some q => negb (Qeq_bool q 0)
  | None => false
  end.

(** Truthiness of a string: the empty string is falsy. *)
Definition truthyStr (s : string) : bool :=
  match s with EmptyString => false | _ => true end.

Definition truthyOptStr (o : option string) : bool :=
  match o with Some s => truthyStr s | None => false end.

(** [arr.slice(0, n)] for an integer [n]: a negative [n] counts from the end. *)
Definition slice0 {A : Type} (l : list A) (n : Z) : list A :=
  if (0 <=? n)%Z then firstn (Z.to_nat n) l
  else firstn (length l - Z.to_nat (- n)) l.

(** [arr.sort(cmp)]: the sort of ECMAScript is stable, so for a consistent
    comparator its result is the one of insertion sort: the elements are
    inserted from the last to the first, and [x] passes the elements [y] with
    [cmp x y > 0]. *)
Fixpoint insertSorted {A : Type} (cmp : A → A → Q) (x : A) (l : list A) : list A :=
  match l with
  | [] => [x]
  | y :: r =>
      match (0 ?= cmp x y)%Q with
      | Lt => y :: insertSorted cmp x r
      | _ => x :: y :: r
      end
  end.

Definition sort {A : Type} (cmp : A → A → Q) (l : list A) : list A :=
  foldr (insertSorted cmp) [] l.

(** *** Strings and the numeric literals of ECMAScript *)

(** White space as [trim] and the number parsers skip it (the ASCII part
    of the class: tab, line feed, vertical tab, form feed, carriage return,
    space). *)
Definition isWhite (c : ascii) : bool :=
  let n := nat_of_ascii c in
  ((9 <=? n) && (n <=? 13) || (n =? 32))%nat.

Fixpoint trimStart (s : string) : string :=
  match s with
  | String c r => if isWhite c then trimStart r else s
  | EmptyString => s
  end.

Fixpoint trimEnd (s : string) : string :=
  match s with
  | String c r =>
      match trimEnd r with
      | EmptyString => if isWhite c then EmptyString else String c EmptyString
      | r' => String c r'
      end
  | EmptyString => s
  end.

Definition trim (s : string) : string := trimEnd (trimStart s).

(** [s.replace(/^[\[]/, '')] and [s.replace(/\]$/, '')] *)
Definition dropLeading (c : ascii) (s : string) : string :=
  match s with
  | String c' r => if Ascii.eqb c' c then r else s
  | EmptyString => s
  end.

Fixpoint dropTrailing (c : ascii) (s : string) : string :=
  match s with
  | String c' EmptyString => if Ascii.eqb c' c then EmptyString else s
  | String c' r => String c' (dropTrailing c r)
  | EmptyString => s
  end.

(** [s.split(sep)] for a separator of one character. *)
Fixpoint split (sep : ascii) (s : string) : list string :=
  match s with
  | EmptyString => [EmptyString]
  | String c r =>
      if Ascii.eqb c sep then EmptyString :: split sep r
      else match split sep r with
           | h :: t => String c h :: t
           | [] => [String c EmptyString]
           end
  end.

Definition isDigit (c : ascii) : bool :=
  let n := nat_of_ascii c in ((48 <=? n) && (n <=? 57))%nat.

Definition digitVal (c : ascii) : Z := Z.of_nat (nat_of_ascii c - 48).

(** The longest run of decimal digits at the head of [s]: its value, its
    length and the rest of the string. *)
Fixpoint takeDigits (s : string) (acc : Z) (n : nat) : Z * nat * string :=
  match s with
  | String c r =>
      if isDigit c then takeDigits r (acc * 10 + digitVal c)%Z (S n) else (acc, n, s)
  | EmptyString => (acc, n, s)
  end.

Definition signOf (s : string) : Z * string :=
  match s with
  | String "+"%char r => (1%Z, r)
  | String "-"%char r => ((-1)%Z, r)
  | _ => (1%Z, s)
  end.

Definition pow10 (e : Z) : Q :=
  if (0 <=? e)%Z then inject_Z (10 ^ e) else (1 / inject_Z (10 ^ (- e)))%Q.

(** A decimal value becomes a number; beyond the largest double it is an
    infinity.  (Rounding to the nearest double is not modelled.) *)
Definition maxDouble : Q := inject_Z (2 ^ 1024 - 2 ^ 970).

Definition ofQ (q : Q) : num :=
  if Qle_bool maxDouble q then PosInf
  else if Qle_bool q (- maxDouble) then NegInf
  else Fin (Qred q).

Definition isExpChar (c : ascii) : bool :=
  Ascii.eqb c "e"%char || Ascii.eqb c "E"%char.

(** The longest prefix of [s] that is a [StrDecimalLiteral], with the
    rest of the string. *)
Definition strDecimalLiteral (s : string) : option (num * string) :=
  let '(sg, s1) := signOf s in
  if String.prefix "Infinity" s1 then
    Some (if (0 <? sg)%Z then PosInf else NegInf, String.substring 8 (String.length s1 - 8) s1)
  else
    let '(i, ni, s2) := takeDigits s1 0%Z 0%nat in
    let '(f, nf, s3) :=
      match s2 with
      | String "."%char r => takeDigits r 0%Z 0%nat
      | _ => (0%Z, 0%nat, s2)
      end in
    if (ni + nf =? 0)%nat then None
    else
      let '(e, s4) :=
        match s3 with
        | String c r =>
            if isExpChar c then
              let '(esg, r1) := signOf r in
              let '(ev, ne, r2) := takeDigits r1 0%Z 0%nat in
              if (ne =? 0)%nat then (0%Z, s3) else ((esg * ev)%Z, r2)
            else (0%Z, s3)
        | EmptyString => (0%Z, s3)
        end in
      Some (ofQ (inject_Z sg
                 * (inject_Z i + inject_Z f / inject_Z (10 ^ Z.of_nat nf))
                 * pow10 e)%Q, s4).

(** [parseFloat(s)] *)
Definition parseFloat (s : string) : num :=
  match strDecimalLiteral (trimStart s) with
  | Some (n, _) => n
  | None => NaN
  end.

(** [parseInt(s, 10)], for strings whose leading white space is ASCII. *)
Definition parseInt (s : string) : num :=
  let '(sg, s1) := signOf (trimStart s) in
  let '(v, n, _) := takeDigits s1 0%Z 0%nat in
  if (n =? 0)%nat then NaN else ofQ (inject_Z (sg * v)).

(** Digits in radix 2, 8 or 16, for the literals [0b..], [0o..], [0x..]. *)
Definition radixDigit (radix : Z) (c : ascii) : option Z :=
  let n := Z.of_nat (nat_of_ascii c) in
  let d := if ((48 <=? n) && (n <=? 57))%Z then Some (n - 48)%Z
           else if ((97 <=? n) && (n <=? 102))%Z then Some (n - 87)%Z
           else if ((65 <=? n) && (n <=? 70))%Z then Some (n - 55)%Z
           else None in
  match d with
  | Some v => if (v <? radix)%Z then Some v else None
  | None => None
  end.

Fixpoint radixDigits (radix : Z) (s : string) (acc : Z) : option Z :=
  match s with
  | EmptyString => Some acc
  | String c r =>
      match radixDigit radix c with
      | Some v => radixDigits radix r (acc * radix + v)%Z
      | None => None
      end
  end.

Definition radixOf (c : ascii) : option Z :=
  if Ascii.eqb c "x"%char || Ascii.eqb c "X"%char then Some 16%Z
  else if Ascii.eqb c "o"%char || Ascii.eqb c "O"%char then Some 8%Z
  else if Ascii.eqb c "b"%char || Ascii.eqb c "B"%char then Some 2%Z
  else None.

Definition decimalToNumber (t : string) : num :=
  match strDecimalLiteral t with
  | Some (n, EmptyString) => n
  | _ => NaN
  end.

(** [Number(s)] for a string: the whole trimmed string is a numeric
    literal, and the empty string is [0]. *)
Definition stringToNumber (s : string) : num :=
  match trim s with
  | EmptyString => Fin 0
  | String "0"%char (String c (String d r)) as t =>
      match radixOf c with
      | Some radix =>
          match radixDigits radix (String d r) 0%Z with
          | Some v => ofQ (inject_Z v)
          | None => NaN
          end
      | None => decimalToNumber t
      end
  | t => decimalToNumber t
  end.

(** *** Values of type [any] *)

Inductive value : Type :=
| VUndefined
| VNull
| VBool (b : bool)
| VNum (n : num)
| VStr (s : string)
| VArr (l : list value)
| VObj.

(** [!v] is false exactly for the truthy values. *)
Definition truthy (v : value) : bool :=
  match v with
  | VUndefined | VNull => false
  | VBool b => b
  | VNum (Fin q) => negb (Qeq_bool q 0)
  | VNum NaN => false
  | VNum _ => true
  | VStr s => truthyStr s
  | VArr _ | VObj => true
  end.

(** [Number(v)].  An array converts through its string: the empty array
    is [0], an array of one element converts as the string of that element,
    a longer one has a comma in its string and is [NaN]. *)
Fixpoint toNumber (v : value) : num :=
  match v with
  | VUndefined => NaN
  | VNull => Fin 0
  | VBool b => Fin (if b then 1 else 0)
  | VNum n => n
  | VStr s => stringToNumber s
  | VArr l =>
      match l with
      | [] => Fin 0
      | [x] =>
          match x with
          | VUndefined | VNull => Fin 0
          | VBool _ | VObj => NaN
          | VNum _ | VStr _ | VArr _ => toNumber x
          end
      | _ => NaN
      end
  | VObj => NaN
  end.

End JS.

(** ** packages/shared: types *)

Module Shared.

Inductive EventType := PLAY | SKIP | LIKE | DISLIKE | ADD_TO_PLAYLIST.
Inductive Mood := CALM | HAPPY | SAD | ENERGETIC.
Inductive Activity := WORK | EXERCISE | RELAX | PARTY.
Inductive TimeBucket := MORNING | AFTERNOON | EVENING | NIGHT.

#[global] Instance EventType_eq_dec : EqDecision EventType.
Proof. solve_decision. Defined.
#[global] Instance Mood_eq_dec : EqDecision Mood.
Proof. solve_decision. Defined.
#[global] Instance Activity_eq_dec : EqDecision Activity.
Proof. solve_decision. Defined.
#[global] Instance TimeBucket_eq_dec : EqDecision TimeBucket.
Proof. solve_decision. Defined.

Record InteractionContext := {
  mood : option Mood;
  activity : option Activity;
  timeBucket : option TimeBucket;
}.

(** The audio features the pipeline reads; the other nine fields of the
    bag are never inspected. *)
Record AudioFeatures := {
  energy : option Q;
  valence : option Q;
  danceability : option Q;
}.

Record Track := {
  id : string;
  title : string;
  artist : string;
  genre : string;
  audioFeatures : option AudioFeatures;
}.

Record UserProfile := {
  externalUserId : string;
  preferredGenres : list string;
  dislikedGenres : list string;
  profileEmbedding : option (list JS.num);
}.

Record RecommendationRequest := {
  req_context : option InteractionContext;
  req_limit : option Z;
}.

Record RecommendationResponse := {
  tracks : list Track;
  context : option InteractionContext;
  generatedAt : Z;
}.

Inductive RefreshReason := skip_detected | context_change | manual_refresh.

Record RecommendationUpdateEvent := {
  upd_tracks : list Track;
  upd_reason : RefreshReason;
}.

End Shared.
Import Shared.

(** ** apps/api/src/interactions/interactions.service.ts *)

Module InteractionsService.

Definition SKIP_DETECTION_WINDOW_SEC : Z := 60.
Definition SKIP_THRESHOLD : nat := 2.

(** Timestamps are microseconds of the server clock ([NOW()]). *)
Definition seconds (n : Z) : Z := (n * 1000000)%Z.

Record InteractionEventInput := {
  ev_trackId : string;
  ev_eventType : EventType;
  ev_eventValue : option Z;
  ev_context : option InteractionContext;
  ev_clientTs : string;
}.

(** A row of the [interactions] table; [Interaction] is the same data
    under camel-case names. *)
Record Interaction := {
  int_id : nat;
  int_externalUserId : string;
  int_trackId : string;
  int_eventType : EventType;
  int_eventValue : option Z;
  int_context : option InteractionContext;
  int_createdAt : Z;
}.

(** The part of the store the write path touches: the identifiers of
    [tracks] (the foreign key of [interactions.track_id]), as the store prints
    them (see [uuidIn]), and the append-only [interactions] table. *)
Record Db := {
  trackIds : gset string;
  interactions : list Interaction;
}.

(** The columns of [interactions] an insert can violate:
    [external_user_id VARCHAR(255) NOT NULL], [track_id UUID NOT NULL
    REFERENCES tracks(id)] and [event_value INTEGER].  A string is the UTF-8
    text the driver sends. *)

(** The characters of a text: its bytes that are no continuation byte. *)
Definition isContinuation (c : ascii) : bool :=
  let n := nat_of_ascii c in ((128 <=? n) && (n <? 192))%nat.

Fixpoint charLength (s : string) : nat :=
  match s with
  | EmptyString => 0
  | String c r => if isContinuation c then charLength r else S (charLength r)
  end.

Fixpoint hasNul (s : string) : bool :=
  match s with
  | EmptyString => false
  | String c r => (nat_of_ascii c =? 0)%nat || hasNul r
  end.

(** A text that [VARCHAR(255)] takes: at most 255 characters, none of them
    the zero byte. *)
Definition fitsVarchar255 (s : string) : bool :=
  (charLength s <=? 255)%nat && negb (hasNul s).

(** A value that [INTEGER] takes: [NULL] or a 32-bit integer. *)
Definition fitsInteger (v : option Z) : bool :=
  match v with
  | Some n => ((-2147483648 <=? n) && (n <=? 2147483647))%Z
  | None => true
  end.

(** [track_id] is a [UUID]: the store reads the text of the parameter as
    [uuid_in] does and prints the row with [uuid_out].  The text is sixteen
    bytes of two hexadecimal digits in either case, with a hyphen allowed after
    every second byte but the last, and optionally the whole in braces; it is
    printed in lower case in the groups 8-4-4-4-12. *)
Definition isHex (c : ascii) : bool :=
  let n := nat_of_ascii c in
  ((48 <=? n) && (n <=? 57) || (65 <=? n) && (n <=? 70) || (97 <=? n) && (n <=? 102))%nat.

Definition lowerHex (c : ascii) : ascii :=
  let n := nat_of_ascii c in
  if ((65 <=? n) && (n <=? 70))%nat then ascii_of_nat (n + 32) else c.

(** The loop of [string_to_uuid] from byte [i] on, for [count] bytes: the
    digits read, in lower case, and the rest of the text. *)
Fixpoint uuidBytes (count i : nat) (src : string) : option (string * string) :=
  match count with
  | 0 => Some (EmptyString, src)
  | S count' =>
      match src with
      | String a (String b r) =>
          if isHex a && isHex b then
            let r' := match r with
                      | String "-"%char r2 => if Nat.odd i && (i <? 15)%nat then r2 else r
                      | _ => r
                      end in
            match uuidBytes count' (S i) r' with
            | Some (digits, rest) =>
                Some (String (lowerHex a) (String (lowerHex b) digits), rest)
            | None => None
            end
          else None
      | _ => None
      end
  end.

Definition uuidOut (digits : string) : string :=
  String.substring 0 8 digits +:+ "-" +:+ String.substring 8 4 digits +:+ "-"
  +:+ String.substring 12 4 digits +:+ "-" +:+ String.substring 16 4 digits +:+ "-"
  +:+ String.substring 20 12 digits.

(** The identifier a text denotes, as the store prints it; [None] is
    [invalid input syntax for type uuid]. *)
Definition uuidIn (text : string) : option string :=
  let '(closing, body) :=
    match text with
    | String "{"%char r => ("}", r)
    | _ => (EmptyString, text)
    end in
  match uuidBytes 16 0 body with
  | Some (digits, rest) => if String.eqb rest closing then Some (uuidOut digits) else None
  | None => None
  end.

(** [event.eventValue || null]: a value of [0] is stored as [NULL]. *)
Definition orNull (v : option Z) : option Z :=
  match v with
  | Some 0%Z => None
  | other => other
  end.

(** [INSERT INTO interactions ... VALUES (..., NOW()) RETURNING *]: the
    store refuses a user identifier that does not fit its column, an event
    value that is no 32-bit integer, a track identifier that is no UUID and a
    track it does not hold. *)
Definition insertInteraction (db : Db) (now : Z) (externalUserId : string)
    (event : InteractionEventInput) : Result (Interaction * Db) :=
  if negb (fitsVarchar255 externalUserId) then
    Throw (StoreError "value too long for type character varying(255)")
  else if negb (fitsInteger (orNull (ev_eventValue event))) then
    Throw (StoreError "integer out of range")
  else
    match uuidIn (ev_trackId event) with
    | Some trackId =>
        if bool_decide (trackId ∈ trackIds db) then
          let row := {| int_id := length (interactions db);
                        int_externalUserId := externalUserId;
                        int_trackId := trackId;
                        int_eventType := ev_eventType event;
                        int_eventValue := orNull (ev_eventValue event);
                        int_context := ev_context event;
                        int_createdAt := now |} in
          Ok (row, {| trackIds := trackIds db; interactions := interactions db ++ [row] |})
        else Throw (StoreError "interactions_track_id_fkey")
    | None => Throw (StoreError "invalid input syntax for type uuid")
    end.

(** [SELECT COUNT( * ) FROM interactions WHERE external_user_id = $1
    AND event_type = 'SKIP' AND created_at > NOW() - INTERVAL '60 seconds'] *)
Definition isRecentSkip (externalUserId : string) (now : Z) (r : Interaction) : bool :=
  String.eqb (int_externalUserId r) externalUserId
  && bool_decide (int_eventType r = SKIP)
  && (now - seconds SKIP_DETECTION_WINDOW_SEC <? int_createdAt r)%Z.

Definition countRecentSkips (db : Db) (externalUserId : string) (now : Z) : nat :=
  length (List.filter (isRecentSkip externalUserId now) (interactions db)).

Definition shouldRefreshRecommendations (db : Db) (now : Z) (externalUserId : string)
    (eventType : EventType) : bool :=
  if bool_decide (eventType ≠ SKIP) then false
  else (SKIP_THRESHOLD <=? countRecentSkips db externalUserId now)%nat.

(** [recordInteraction]: the insert reads the clock at [tInsert], the
    count that follows it at [tCount]. *)
Definition recordInteraction (db : Db) (tInsert tCount : Z) (externalUserId : string)
    (event : InteractionEventInput) : Result (Interaction * bool * Db) :=
  '(interaction, db') ← insertInteraction db tInsert externalUserId event;
  let shouldRefresh :=
    shouldRefreshRecommendations db' tCount externalUserId (ev_eventType event) in
  mret (interaction, shouldRefresh, db').

(** [getUserInteractionStats] *)
Record Stats := {
  totalInteractions : nat;
  likeCount : nat;
  skipCount : nat;
  playCount : nat;
}.

Definition countWhere (p : Interaction → bool) (db : Db) : nat :=
  length (List.filter p (interactions db)).

Definition getUserInteractionStats (db : Db) (externalUserId : string) : Stats :=
  let mine r := String.eqb (int_externalUserId r) externalUserId in
  {| totalInteractions := countWhere mine db;
     likeCount := countWhere (fun r => mine r && bool_decide (int_eventType r = LIKE)) db;
     skipCount := countWhere (fun r => mine r && bool_decide (int_eventType r = SKIP)) db;
     playCount := countWhere (fun r => mine r && bool_decide (int_eventType r = PLAY)) db |}.

End InteractionsService.

(** ** apps/api/src/interest-graph/interest-graph.service.ts *)

Module InterestGraphService.

(** A row of the query of [compute]: event type, artist and genre of the
    track ([NULL] is [None]). *)
Record Row := {
  event_type : EventType;
  row_artist : option string;
  row_genre : option string;
}.

(** [weights[r.event_type] ?? 0] *)
Definition weights (e : EventType) : Z :=
  match e with
  | LIKE => 2
  | PLAY => 1
  | SKIP => -1
  | DISLIKE => -2
  | ADD_TO_PLAYLIST => 0
  end%Z.

(** A JavaScript [Map<string, number>] keeps its keys in insertion
    order; [set] on a present key keeps the position of the key. *)
Definition ScoreMap := list (string * Z).

Fixpoint mapGet (m : ScoreMap) (k : string) : option Z :=
  match m with
  | [] => None
  | (k', v) :: r => if String.eqb k' k then Some v else mapGet r k
  end.

Fixpoint mapSet (m : ScoreMap) (k : string) (v : Z) : ScoreMap :=
  match m with
  | [] => [(k, v)]
  | (k', v') :: r => if String.eqb k' k then (k', v) :: r else (k', v') :: mapSet r k v
  end.

(** [if (r.artist) artistScore.set(r.artist, (artistScore.get(r.artist) || 0) + w)] *)
Definition bump (m : ScoreMap) (key : option string) (w : Z) : ScoreMap :=
  if JS.truthyOptStr key then
    let k := default EmptyString key in
    mapSet m k (default 0%Z (mapGet m k) + w)%Z
  else m.

Definition accumulate (rows : list Row) : ScoreMap * ScoreMap :=
  foldl (fun '(artistScore, genreScore) r =>
           let w := weights (event_type r) in
           (bump artistScore (row_artist r) w, bump genreScore (row_genre r) w))
        ([], []) rows.

(** [Number(x.toFixed(4))]: the nearest multiple of 1/10000, a tie away
    from zero.  The quotient it is applied to is taken exactly; the code rounds
    the quotient to a double first, which moves a value that lies on a tie
    (3/160) by one unit of the last place and no value across 0 or 1. *)
Definition toFixed4 (x : Q) : Q :=
  let n := Qfloor (Qabs x * 10000 + (1 # 2))%Q in
  if Qle_bool 0 x then Qred (inject_Z n / 10000)%Q
  else Qred (- (inject_Z n / 10000))%Q.

Definition maxOf (vals : list Z) : Z :=
  match vals with
  | [] => 0%Z
  | v :: r => foldl Z.max v r
  end.

(** [out[key] = n] on the plain object [out]: the key [__proto__] names
    the prototype accessor, and assigning a number to it sets no property. *)
Definition assign (out : gmap string Q) (key : string) (n : Q) : gmap string Q :=
  if String.eqb key "__proto__" then out else <[key := n]> out.

(** The result is a plain object used as a map ([Record<string, number>]);
    the scores are sums of the integer weights, so all of them are finite. *)
Definition normalizeTop (map : ScoreMap) (k : nat) : gmap string Q :=
  let sorted :=
    firstn k (JS.sort (fun a b => inject_Z (snd b - snd a)) map) in
  let max := maxOf (List.map snd sorted) in
  foldl (fun out '(key, val) =>
           if (max <=? 0)%Z then assign out key 0%Q
           else assign out key (toFixed4 (inject_Z val / inject_Z max)%Q))
        ∅ sorted.

Record Graph := {
  version : Z;
  generatedBy : string;
  windowDays : Z;
  topArtists : gmap string Q;
  topGenres : gmap string Q;
  avoidArtists : gmap string Q;
  avoidGenres : gmap string Q;
}.

(** [new Map([...m.entries()].filter(([, v]) => v < 0).map(([k, v]) => [k, Math.abs(v)]))] *)
Definition negatives (m : ScoreMap) : ScoreMap :=
  List.map (fun '(k, v) => (k, Z.abs v)) (List.filter (fun '(_, v) => (v <? 0)%Z) m).

(** [compute], from the rows its query returned. *)
Definition compute (rows : list Row) : option Graph :=
  match rows with
  | [] => None
  | _ =>
      let '(artistScore, genreScore) := accumulate rows in
      Some {| version := 1;
              generatedBy := "heuristic";
              windowDays := 90;
              topArtists := normalizeTop artistScore 20;
              topGenres := normalizeTop genreScore 20;
              avoidArtists := normalizeTop (negatives artistScore) 20;
              avoidGenres := normalizeTop (negatives genreScore) 20 |}
  end.

End InterestGraphService.

(** ** apps/api/src/users/users.service.ts *)

Module UsersService.

(** A row of [user_profiles] as the driver delivers it; the type of
    [profile_embedding] is [any]. *)
Record ProfileRow := {
  external_user_id : string;
  preferred_genres : option (list string);
  disliked_genres : option (list string);
  last_active_at : Z;
  profile_embedding : JS.value;
}.

Definition parseVector (value : JS.value) : option (list JS.num) :=
  if negb (JS.truthy value) then None
  else match value with
       | JS.VArr l => Some (List.map JS.toNumber l)
       | JS.VStr s =>
           let trimmed := JS.trim s in
           let inner := JS.dropTrailing "]"%char (JS.dropLeading "["%char trimmed) in
           if negb (JS.truthyStr inner) then None
           else
             let parts :=
               List.map (fun p => JS.parseFloat (JS.trim p)) (JS.split ","%char inner) in
             let nums := List.filter JS.isFinite parts in
             match nums with
             | [] => None
             | _ => Some nums
             end
       | _ => None
       end.

Definition toProfile (row : ProfileRow) : UserProfile :=
  {| externalUserId := external_user_id row;
     preferredGenres := default [] (preferred_genres row);
     dislikedGenres := default [] (disliked_genres row);
     profileEmbedding := parseVector (profile_embedding row) |}.

(** The [user_profiles] table, keyed by [external_user_id]. *)
Definition findOrCreateProfile (table : gmap string ProfileRow) (now : Z)
    (externalUserId : string) : UserProfile * gmap string ProfileRow :=
  match table !! externalUserId with
  | Some existing => (toProfile existing, table)
  | None =>
      let newProfile := {| external_user_id := externalUserId;
                           preferred_genres := Some [];
                           disliked_genres := Some [];
                           last_active_at := now;
                           profile_embedding := JS.VNull |} in
      ({| externalUserId := external_user_id newProfile;
          preferredGenres := default [] (preferred_genres newProfile);
          dislikedGenres := default [] (disliked_genres newProfile);
          profileEmbedding := None |},
       <[externalUserId := newProfile]> table)
  end.

(** [UPDATE user_profiles SET ... WHERE external_user_id = $n RETURNING *];
    an absent argument leaves its column as it is. *)
Definition updatePreferences (table : gmap string ProfileRow) (now : Z)
    (externalUserId : string) (preferredGenres dislikedGenres : option (list string))
  : UserProfile * gmap string ProfileRow :=
  match table !! externalUserId with
  | Some row =>
      let updated := {| external_user_id := external_user_id row;
                        preferred_genres :=
                          match preferredGenres with
                          | Some g => Some g
                          | None => preferred_genres row
                          end;
                        disliked_genres :=
                          match dislikedGenres with
                          | Some g => Some g
                          | None => disliked_genres row
                          end;
                        last_active_at := now;
                        profile_embedding := profile_embedding row |} in
      (toProfile updated, <[externalUserId := updated]> table)
  | None => findOrCreateProfile table now externalUserId
  end.

(** *** What the store delivers for [profile_embedding]

    The column is [vector(256)].  Reading it gives [NULL] or the text of a
    vector, [[x1,...,x256]]: 256 components in decimal notation, separated by
    commas, with no white space; the driver has no parser for the type and
    hands the text on.  (With a parser registered it would be the array of the
    256 numbers.) *)

(** A component as the store prints it: an optional minus sign, digits,
    optionally a point and more digits, optionally [e], a sign and the digits
    of an exponent.  Digits are numbers below 10. *)
Record Component := {
  negative : bool;
  intDigits : list nat;
  fracDigits : list nat;
  exponent : option (bool * list nat);
}.

Definition digitChar (d : nat) : ascii := ascii_of_nat (48 + d).

Fixpoint digitsText (ds : list nat) : string :=
  match ds with
  | [] => EmptyString
  | d :: r => String (digitChar d) (digitsText r)
  end.

Definition componentText (c : Component) : string :=
  (if negative c then "-" else EmptyString)
  +:+ digitsText (intDigits c)
  +:+ (match fracDigits c with
       | [] => EmptyString
       | ds => "." +:+ digitsText ds
       end)
  +:+ (match exponent c with
       | Some (neg, ds) => "e" +:+ (if neg : bool then "-" else "+") +:+ digitsText ds
       | None => EmptyString
       end).

Definition vectorText (cs : list Component) : string :=
  "[" +:+ String.concat "," (List.map componentText cs) +:+ "]".

(** A component of a single-precision vector: at most 40 digits before the
    point and an exponent of one or two digits. *)
Definition wellFormedComponent (c : Component) : Prop :=
  intDigits c ≠ [] ∧ length (intDigits c) ≤ 40
  ∧ Forall (fun d => d < 10) (intDigits c)
  ∧ Forall (fun d => d < 10) (fracDigits c)
  ∧ match exponent c with
    | Some (_, ds) => ds ≠ [] ∧ length ds ≤ 2 ∧ Forall (fun d => d < 10) ds
    | None => True
    end.

Definition columnValue (v : JS.value) : Prop :=
  v = JS.VNull
  ∨ (∃ cs, length cs = 256 ∧ Forall wellFormedComponent cs ∧ v = JS.VStr (vectorText cs))
  ∨ (∃ qs : list Q, length qs = 256 ∧ v = JS.VArr (List.map (fun q => JS.VNum (JS.Fin q)) qs)).

End UsersService.

(** ** The recommendations service, revision [HEAD]

    The sources hold the service in two revisions.  One copy of the file
    records an unresolved merge: its side [HEAD] has the disliked-genre filter,
    the interest-graph filter and the ML reranker, its side [1b6bdb2] has none
    of the three.  [apps/api/src/recommendations/recommendations.service.ts] is
    the text of side [1b6bdb2].  This module is side [HEAD]; the module
    [RecommendationsService_1b6bdb2] below is the other side. *)

Module RecommendationsService.

Definition CACHE_TTL_SEC : Z := 300.
Definition MAX_SAME_ARTIST_CONSECUTIVE : nat := 3.

Record RerankResult := { trackId : string; score : Q }.

(** The interest graph document the pipeline receives; it reads the two
    avoid maps. *)
Abbreviation InterestGraph := InterestGraphService.Graph.
Import InterestGraphService.

(** *** rankByContext *)

(** The score the comparator accumulates for one track ([scoreA], and
    [scoreB] symmetrically), in the order of the source.  The sums are those
    of the rationals; the doubles of the code agree with them on features that
    are multiples of 2^-40 and may differ in the last place elsewhere. *)
Definition feature (t : Track) (f : AudioFeatures → option Q) : option Q :=
  match audioFeatures t with
  | Some af => f af
  | None => None
  end.

Definition addIf (c : bool) (v : Q) (s : Q) : Q := if c then (s + v)%Q else s.

Definition getQ (o : option Q) : Q := default 0%Q o.

Definition contextScore (ctx : InteractionContext) (t : Track) : Q :=
  let e := feature t energy in
  let v := feature t valence in
  let d := feature t danceability in
  let s := 0%Q in
  let s := addIf (bool_decide (activity ctx = Some EXERCISE) && JS.truthyQ e) (getQ e * 10)%Q s in
  let s := addIf (bool_decide (mood ctx = Some CALM) && JS.truthyQ e) ((1 - getQ e) * 10)%Q s in
  let s := addIf (bool_decide (mood ctx = Some ENERGETIC) && JS.truthyQ e) (getQ e * 10)%Q s in
  let s := addIf (bool_decide (mood ctx = Some HAPPY) && JS.truthyQ v) (getQ v * 10)%Q s in
  let s := addIf (bool_decide (mood ctx = Some SAD) && JS.truthyQ v) ((1 - getQ v) * 10)%Q s in
  let s := addIf (bool_decide (activity ctx = Some RELAX) && JS.truthyQ e) ((1 - getQ e) * 8)%Q s in
  let s := addIf (bool_decide (activity ctx = Some PARTY) && JS.truthyQ d) (getQ d * 10)%Q s in
  s.

(** [tracks.sort((a, b) => scoreB - scoreA)] *)
Definition rankByContext (tracks : list Track) (ctx : InteractionContext) : list Track :=
  JS.sort (fun a b => (contextScore ctx b - contextScore ctx a)%Q) tracks.

(** *** applyDiversityRules *)

(** The loop of [getConsecutiveArtistCount] walks the array from its last
    element down and stops at the first other artist. *)
Fixpoint countLeading (artist0 : string) (l : list Track) : nat :=
  match l with
  | [] => 0
  | t :: r => if String.eqb (artist t) artist0 then S (countLeading artist0 r) else 0
  end.

Definition getConsecutiveArtistCount (tracks : list Track) (artist0 : string) : nat :=
  countLeading artist0 (reverse tracks).

(** One iteration of the [for ... of] loop; the state is [result] and the
    [artistCount] map (which the code fills but never reads). *)
Definition diversityStep (st : list Track * gmap string nat) (track : Track)
  : list Track * gmap string nat :=
  let '(result, artistCount) := st in
  let consecutiveCount := getConsecutiveArtistCount result (artist track) in
  if (consecutiveCount <? MAX_SAME_ARTIST_CONSECUTIVE)%nat
  then (result ++ [track],
        <[artist track := (default 0%nat (artistCount !! artist track) + 1)%nat]> artistCount)
  else (result, artistCount).

Definition applyDiversityRules (tracks : list Track) : list Track :=
  fst (foldl diversityStep ([], ∅) tracks).

(** *** applyInterestGraphFilters *)

Definition AVOID_THRESHOLD : Q := (6 # 10)%Q.

Definition avoided (m : gmap string Q) (key : string) : bool :=
  match m !! key with
  | Some a => Qle_bool AVOID_THRESHOLD a
  | None => false
  end.

Definition applyInterestGraphFilters (tracks : list Track) (interestGraph : InterestGraph)
  : list Track :=
  List.filter
    (fun t => if avoided (avoidArtists interestGraph) (artist t) then false
              else if avoided (avoidGenres interestGraph) (genre t) then false
              else true)
    tracks.

(** *** reorderTracksByRerank *)

(** [new Map(tracks.map((t) => [t.id, t]))]: a later entry replaces an
    earlier one with the same key. *)
Definition tracksById (tracks : list Track) : gmap string Track :=
  foldl (fun m t => <[id t := t]> m) ∅ tracks.

Definition rerankStep (map : gmap string Track) (st : list Track * gset string)
    (item : RerankResult) : list Track * gset string :=
  let '(ordered, seen) := st in
  match map !! trackId item with
  | Some t =>
      if bool_decide (id t ∈ seen) then (ordered, seen)
      else (ordered ++ [t], {[id t]} ∪ seen)
  | None => (ordered, seen)
  end.

Definition leftoverStep (seen : gset string) (ordered : list Track) (t : Track) : list Track :=
  if bool_decide (id t ∈ seen) then ordered else ordered ++ [t].

Definition reorderTracksByRerank (tracks : list Track) (reranked : list RerankResult)
  : list Track :=
  let map := tracksById tracks in
  let '(ordered, seen) := foldl (rerankStep map) ([], ∅) reranked in
  foldl (leftoverStep seen) ordered tracks.

(** *** The cache key *)

Definition quote : string := String (ascii_of_nat 34) EmptyString.

Definition moodName (m : Mood) : string :=
  match m with CALM => "CALM" | HAPPY => "HAPPY" | SAD => "SAD" | ENERGETIC => "ENERGETIC" end.

Definition activityName (a : Activity) : string :=
  match a with WORK => "WORK" | EXERCISE => "EXERCISE" | RELAX => "RELAX" | PARTY => "PARTY" end.

Definition timeBucketName (b : TimeBucket) : string :=
  match b with
  | MORNING => "MORNING" | AFTERNOON => "AFTERNOON" | EVENING => "EVENING" | NIGHT => "NIGHT"
  end.

(** A property of the object: [JSON.stringify] leaves out a property
    whose value is [undefined]. *)
Definition jsonProperty (key : string) (v : option string) : list string :=
  match v with
  | Some s => [quote +:+ key +:+ quote +:+ ":" +:+ quote +:+ s +:+ quote]
  | None => []
  end.

(** [JSON.stringify(context)] for a context object; its properties are in
    the order the controller (and the Zod schema) creates them.  (An object
    that another caller built in another order would print in that order.) *)
Definition stringifyContext (c : InteractionContext) : string :=
  "{" +:+ String.concat ","
            (jsonProperty "mood" (moodName <$> mood c)
             ++ jsonProperty "activity" (activityName <$> activity c)
             ++ jsonProperty "timeBucket" (timeBucketName <$> timeBucket c))
      +:+ "}".

(** [`recommendations:${externalUserId}:${JSON.stringify(context)}`];
    [JSON.stringify(undefined)] is [undefined], which the template prints
    as the word. *)
Definition cacheKey (externalUserId : string) (context : option InteractionContext) : string :=
  "recommendations:" +:+ externalUserId +:+ ":" +:+
  match context with
  | Some c => stringifyContext c
  | None => "undefined"
  end.

(** *** The collaborators of one request *)

(** What the store, the other services and the ML client answer during
    one call of [getRecommendations]: the rows of each query, or the error
    it raises.  [findOrCreateProfile] is asked twice, before and after the
    embedding is recomputed. *)
Record Backend := {
  now : Z;
  findOrCreateProfile : string → Result UserProfile;
  getUserInteractionStats : string → Result InteractionsService.Stats;
  popularByGenre : list string → Z → Result (list Track);
  popularGlobal : Z → Result (list Track);
  computeAndUpdateProfileEmbedding : string → Result ();
  getRecentlySkippedTrackIds : string → Z → Z → Result (list string);
  findUpdatedProfile : string → Result UserProfile;
  annByEmbedding : list JS.num → list string → Z → Result (list Track);
  popularByGenreExcluding : list string → list string → Z → Result (list Track);
  interestGraphEnabled : bool;
  getOrCompute : string → Result (option InterestGraph);
  getRecentTrackSequenceFromDb : string → Z → Result (list string);
  rerank : string → list string → option InteractionContext → list string
           → option InterestGraph → Z → option (list RerankResult);
}.

Definition coldStartRecommendations (be : Backend) (preferredGenres : list string)
    (limit : Z) (context : option InteractionContext) : Result (list Track) :=
  if (0 <? length preferredGenres)%nat
  then popularByGenre be preferredGenres (limit * 2)%Z
  else popularGlobal be (limit * 2)%Z.

Definition genreBasedRecommendations (be : Backend) (preferredGenres : list string)
    (excludeTrackIds : list string) (limit : Z) : Result (list Track) :=
  if (length preferredGenres =? 0)%nat then mret []
  else popularByGenreExcluding be preferredGenres excludeTrackIds (limit * 2)%Z.

Definition includes (l : list string) (x : string) : bool :=
  existsb (String.eqb x) l.

Definition personalizedRecommendations (be : Backend) (externalUserId : string)
    (profile : UserProfile) (limit : Z) (context : option InteractionContext)
  : Result (list Track) :=
  _ ← computeAndUpdateProfileEmbedding be externalUserId;
  excludeTrackIds ← getRecentlySkippedTrackIds be externalUserId 24 20;
  updatedProfile ← findUpdatedProfile be externalUserId;
  match profileEmbedding updatedProfile with
  | Some embedding =>
      tracks ← annByEmbedding be embedding excludeTrackIds (limit * 3)%Z;
      let tracks :=
        if (0 <? length (dislikedGenres profile))%nat
        then List.filter (fun t => negb (includes (dislikedGenres profile) (genre t))) tracks
        else tracks in
      let tracks :=
        match context with
        | Some c => rankByContext tracks c
        | None => tracks
        end in
      interestGraph ←
        (if interestGraphEnabled be then getOrCompute be externalUserId else mret None);
      let tracks :=
        match interestGraph with
        | Some g => applyInterestGraphFilters tracks g
        | None => tracks
        end in
      recentSequence ← getRecentTrackSequenceFromDb be externalUserId 50;
      let reranked :=
        rerank be externalUserId (List.map id tracks) context recentSequence interestGraph
               (Z.min (limit * 3) 50) in
      let tracks :=
        match reranked with
        | Some (item :: items) => reorderTracksByRerank tracks (item :: items)
        | _ => tracks
        end in
      mret tracks
  | None =>
      genreBasedRecommendations be (preferredGenres updatedProfile) excludeTrackIds limit
  end.

(** [request.limit || 20] *)
Definition limitOf (request : RecommendationRequest) : Z :=
  match req_limit request with
  | Some 0%Z | None => 20%Z
  | Some l => l
  end.

Definition isColdStart (stats : InteractionsService.Stats) (profile : UserProfile) : bool :=
  (InteractionsService.totalInteractions stats =? 0)%nat
  || ((length (preferredGenres profile) =? 0)%nat
      && negb (bool_decide (is_Some (profileEmbedding profile)))).

(** The pipeline behind the cache. *)
Definition generate (be : Backend) (externalUserId : string) (limit : Z)
    (context : option InteractionContext) : Result RecommendationResponse :=
  profile ← findOrCreateProfile be externalUserId;
  stats ← getUserInteractionStats be externalUserId;
  tracks ←
    (if isColdStart stats profile
     then coldStartRecommendations be (preferredGenres profile) limit context
     else personalizedRecommendations be externalUserId profile limit context);
  let tracks := applyDiversityRules tracks in
  mret {| tracks := JS.slice0 tracks limit; context := context; generatedAt := now be |}.

(** [getRecommendations]: the cache is the state; a response is stored
    under the key it was looked up with.  (An entry that has outlived its 300
    seconds is an entry that is no longer in the map.) *)
Definition getRecommendations (be : Backend) (cache : gmap string RecommendationResponse)
    (externalUserId : string) (request : RecommendationRequest)
  : Result RecommendationResponse * gmap string RecommendationResponse :=
  let limit := limitOf request in
  let context := req_context request in
  let key := cacheKey externalUserId context in
  match cache !! key with
  | Some cached => (Ok cached, cache)
  | None =>
      match generate be externalUserId limit context with
      | Ok response => (Ok response, <[key := response]> cache)
      | Throw e => (Throw e, cache)
      end
  end.

(** [invalidateCache]: [flushPattern(`recommendations:${externalUserId}:*`)],
    for a user identifier without glob characters. *)
Definition invalidateCache (cache : gmap string RecommendationResponse)
    (externalUserId : string) : gmap string RecommendationResponse :=
  filter (fun kv => negb (String.prefix ("recommendations:" +:+ externalUserId +:+ ":") (fst kv)))
         cache.

End RecommendationsService.

(** ** apps/api/src/recommendations/recommendations.service.ts, revision [1b6bdb2]

    The functions that differ from revision [HEAD]; [coldStartRecommendations],
    [genreBasedRecommendations], [rankByContext], [applyDiversityRules] and
    [invalidateCache] are the same text in both.  The collaborators this
    revision does not have (interest graph, ML client) are not asked. *)

Module RecommendationsService_1b6bdb2.
Import RecommendationsService.

Definition personalizedRecommendations (be : Backend) (externalUserId : string)
    (profile : UserProfile) (limit : Z) (context : option InteractionContext)
  : Result (list Track) :=
  _ ← computeAndUpdateProfileEmbedding be externalUserId;
  excludeTrackIds ← getRecentlySkippedTrackIds be externalUserId 24 20;
  updatedProfile ← findUpdatedProfile be externalUserId;
  match profileEmbedding updatedProfile with
  | Some embedding =>
      tracks ← annByEmbedding be embedding excludeTrackIds (limit * 3)%Z;
      let tracks :=
        match context with
        | Some c => rankByContext tracks c
        | None => tracks
        end in
      mret tracks
  | None =>
      genreBasedRecommendations be (preferredGenres updatedProfile) excludeTrackIds limit
  end.

Definition generate (be : Backend) (externalUserId : string) (limit : Z)
    (context : option InteractionContext) : Result RecommendationResponse :=
  profile ← findOrCreateProfile be externalUserId;
  stats ← getUserInteractionStats be externalUserId;
  tracks ←
    (if isColdStart stats profile
     then coldStartRecommendations be (preferredGenres profile) limit context
     else personalizedRecommendations be externalUserId profile limit context);
  let tracks := applyDiversityRules tracks in
  mret {| tracks := JS.slice0 tracks limit; context := context; generatedAt := now be |}.

Definition getRecommendations (be : Backend) (cache : gmap string RecommendationResponse)
    (externalUserId : string) (request : RecommendationRequest)
  : Result RecommendationResponse * gmap string RecommendationResponse :=
  let limit := limitOf request in
  let context := req_context request in
  let key := cacheKey externalUserId context in
  match cache !! key with
  | Some cached => (Ok cached, cache)
  | None =>
      match generate be externalUserId limit context with
      | Ok response => (Ok response, <[key := response]> cache)
      | Throw e => (Throw e, cache)
      end
  end.

End RecommendationsService_1b6bdb2.

(** ** packages/shared/src/schemas.ts *)

Module Schemas.

Definition zodError (path : string) : Error := ValidationError path.

(** [z.enum([...])] *)
Definition MoodSchema (s : string) : Result Mood :=
  if String.eqb s "CALM" then Ok CALM
  else if String.eqb s "HAPPY" then Ok HAPPY
  else if String.eqb s "SAD" then Ok SAD
  else if String.eqb s "ENERGETIC" then Ok ENERGETIC
  else Throw (zodError "mood").

Definition ActivitySchema (s : string) : Result Activity :=
  if String.eqb s "WORK" then Ok WORK
  else if String.eqb s "EXERCISE" then Ok EXERCISE
  else if String.eqb s "RELAX" then Ok RELAX
  else if String.eqb s "PARTY" then Ok PARTY
  else Throw (zodError "activity").

Definition TimeBucketSchema (s : string) : Result TimeBucket :=
  if String.eqb s "MORNING" then Ok MORNING
  else if String.eqb s "AFTERNOON" then Ok AFTERNOON
  else if String.eqb s "EVENING" then Ok EVENING
  else if String.eqb s "NIGHT" then Ok NIGHT
  else Throw (zodError "timeBucket").

(** [schema.optional()] *)
Definition optional {A B : Type} (schema : A → Result B) (v : option A) : Result (option B) :=
  match v with
  | Some a => b ← schema a; mret (Some b)
  | None => mret None
  end.

(** The object the controller hands to the schema: the raw query
    strings. *)
Record RawContext := {
  raw_mood : option string;
  raw_activity : option string;
  raw_timeBucket : option string;
}.

Definition InteractionContextSchema (c : RawContext) : Result InteractionContext :=
  m ← optional MoodSchema (raw_mood c);
  a ← optional ActivitySchema (raw_activity c);
  b ← optional TimeBucketSchema (raw_timeBucket c);
  mret {| mood := m; activity := a; timeBucket := b |}.

(** [z.number().int().min(1).max(50)] *)
Definition LimitSchema (n : JS.num) : Result Z :=
  match n with
  | JS.Fin q =>
      if negb (Qeq_bool q (inject_Z (Qfloor q))) then Throw (zodError "limit")
      else if (Qfloor q <? 1)%Z then Throw (zodError "limit")
      else if (50 <? Qfloor q)%Z then Throw (zodError "limit")
      else Ok (Qfloor q)
  | _ => Throw (zodError "limit")
  end.

Record RawRequest := {
  raw_context : option RawContext;
  raw_limit : option JS.num;
}.

(** [RecommendationRequestSchema]; [.optional().default(20)] on [limit]. *)
Definition RecommendationRequestSchema (r : RawRequest) : Result RecommendationRequest :=
  c ← optional InteractionContextSchema (raw_context r);
  l ← optional LimitSchema (raw_limit r);
  mret {| req_context := c; req_limit := Some (default 20%Z l) |}.

End Schemas.

(** ** apps/api/src/recommendations/recommendations.controller.ts *)

Module RecommendationsController.

(** The request object the handler builds from the query parameters. *)
Definition buildRequest (mood activity timeBucket limit : option string) : Schemas.RawRequest :=
  let context := {| Schemas.raw_mood := mood;
                    Schemas.raw_activity := activity;
                    Schemas.raw_timeBucket := timeBucket |} in
  {| Schemas.raw_context :=
       if existsb JS.truthyOptStr [mood; activity; timeBucket] then Some context else None;
     Schemas.raw_limit :=
       Some (match limit with
             | Some l => if JS.truthyStr l then JS.parseInt l else JS.Fin 20
             | None => JS.Fin 20
             end) |}.

Definition validate (mood activity timeBucket limit : option string)
  : Result RecommendationRequest :=
  Schemas.RecommendationRequestSchema (buildRequest mood activity timeBucket limit).

Definition getRecommendations (be : RecommendationsService.Backend)
    (cache : gmap string RecommendationResponse) (externalUserId : string)
    (mood activity timeBucket limit : option string)
  : Result RecommendationResponse * gmap string RecommendationResponse :=
  match validate mood activity timeBucket limit with
  | Ok validated => RecommendationsService.getRecommendations be cache externalUserId validated
  | Throw e => (Throw e, cache)
  end.




End RecommendationsController.

(** ** apps/api/src/interactions/interactions.controller.ts

    The handler in the revision that also refreshes the interest graph;
    without that call it is the handler of the other revision
    ([igEnabled = false]). *)

Module InteractionsController.

(** The calls the handler makes on the gateway and on the interest graph
    service, in order. *)
Inductive Call :=
| InterestGraphRefresh (userId : string)
| TriggerRecommendationRefresh (userId : string) (reason : RefreshReason).

Record Response := {
  success : bool;
  interaction : InteractionsService.Interaction;
  refreshTriggered : bool;
}.

(** [validated] is the outcome of [InteractionEventSchema.parse(body)];
    [igEnabled] is the setting [RECSYS_INTEREST_GRAPH_ENABLED]. *)
Definition recordInteraction (db : InteractionsService.Db) (tInsert tCount : Z)
    (igEnabled : bool) (externalUserId : string)
    (validated : Result InteractionsService.InteractionEventInput)
  : Result (Response * list Call * InteractionsService.Db) :=
  event ← validated;
  '(interaction, shouldRefreshRecommendations, db') ←
    InteractionsService.recordInteraction db tInsert tCount externalUserId event;
  let calls := if igEnabled then [InterestGraphRefresh externalUserId] else [] in
  let calls :=
    if (shouldRefreshRecommendations : bool)
    then calls ++ [TriggerRecommendationRefresh externalUserId skip_detected]
    else calls in
  mret ({| success := true;
           interaction := interaction;
           refreshTriggered := shouldRefreshRecommendations |}, calls, db').

Definition isTrigger (c : Call) : bool :=
  match c with
  | TriggerRecommendationRefresh _ _ => true
  | InterestGraphRefresh _ => false
  end.

End InteractionsController.

(** ** apps/api/src/websocket/recommendation.gateway.ts *)

Module RecommendationGateway.

Inductive LogEntry :=
| LogInfo (msg : string)
| LogError (msg : string) (e : Error).

Section Gateway.

(** The state of the collaborators (cache, store, socket server) and
    the three operations the gateway awaits; each returns or throws. *)
Context {W : Type}.
Variable invalidateCache : string → W → Result () * W.
Variable getRecommendations :
  string → RecommendationRequest → W → Result RecommendationResponse * W.
Variable emit : string → string → RecommendationUpdateEvent → W → Result () * W.

Record State := {
  world : W;
  logs : list LogEntry;
  delivered : list (string * RecommendationUpdateEvent);
}.

Definition reasonName (reason : RefreshReason) : string :=
  match reason with
  | skip_detected => "skip_detected"
  | context_change => "context_change"
  | manual_refresh => "manual_refresh"
  end.

(** The body of the [try] block. *)
Definition tryRefresh (userId : string) (reason : RefreshReason) (st : State)
  : Result () * State :=
  match invalidateCache userId (world st) with
  | (Throw e, w1) => (Throw e, {| world := w1; logs := logs st; delivered := delivered st |})
  | (Ok _, w1) =>
      match getRecommendations userId {| req_context := None; req_limit := Some 20%Z |} w1 with
      | (Throw e, w2) =>
          (Throw e, {| world := w2; logs := logs st; delivered := delivered st |})
      | (Ok recommendations, w2) =>
          let updateEvent := {| upd_tracks := tracks recommendations; upd_reason := reason |} in
          let room := "user:" +:+ userId in
          match emit room "recommendations:update" updateEvent w2 with
          | (Throw e, w3) =>
              (Throw e, {| world := w3; logs := logs st; delivered := delivered st |})
          | (Ok _, w3) =>
              (Ok (),
               {| world := w3;
                  logs := logs st ++ [LogInfo ("Sent recommendation refresh to user " +:+ userId
                                               +:+ ", reason: " +:+ reasonName reason)];
                  delivered := delivered st ++ [(room, updateEvent)] |})
          end
      end
  end.

(** [try { ... } catch (error) { this.logger.error(...) }] *)
Definition triggerRecommendationRefresh (userId : string) (reason : RefreshReason)
    (st : State) : Result () * State :=
  match tryRefresh userId reason st with
  | (Ok _, st') => (Ok (), st')
  | (Throw error, st') =>
      (Ok (),
       {| world := world st';
          logs := logs st' ++ [LogError ("Failed to trigger recommendation refresh for user "
                                        +:+ userId) error];
          delivered := delivered st' |})
  end.

End Gateway.

End RecommendationGateway.

(** ** apps/api/src/interest-graph/interest-graph.service.ts: the stored graph *)

Module InterestGraphStore.
Import InterestGraphService.

(** A row of [user_interest_graph]: the graph column (the document the
    service wrote, or [NULL]) and the version counter. *)
Record GraphRow := {
  stored_graph : option Graph;
  stored_version : Z;
}.

(** [INSERT ... VALUES ($1, $2::jsonb, 1) ON CONFLICT (external_user_id)
    DO UPDATE SET graph = EXCLUDED.graph, version = version + 1] *)
Definition upsert (table : gmap string GraphRow) (externalUserId : string) (graph : Graph)
  : gmap string GraphRow :=
match table !! externalUserId with
| Some row =>
    <[externalUserId := {| stored_graph := Some graph;
                           stored_version := (stored_version row + 1)%Z |}]> table
| None =>
    <[externalUserId := {| stored_graph := Some graph; stored_version := 1%Z |}]> table
end.

(** [getOrCompute]; [rows] is what the query of [compute] returns for the
    user when it is run. *)
Definition getOrCompute (rows : list Row) (table : gmap string GraphRow)
  (externalUserId : string) : option Graph * gmap string GraphRow :=
match table !! externalUserId ≫= stored_graph with
| Some graph => (Some graph, table)
| None =>
    match compute rows with
    | Some computed => (Some computed, upsert table externalUserId computed)
    | None => (None, table)
    end
end.

(** [refresh] *)
Definition refresh (rows : list Row) (table : gmap string GraphRow)
  (externalUserId : string) : option Graph * gmap string GraphRow :=
match compute rows with
| None => (None, table)
| Some computed => (Some computed, upsert table externalUserId computed)
end.

End InterestGraphStore.

(** ** apps/api/src/websocket/recommendation.gateway.ts: the session registry *)

Module GatewaySessions.

(** The fields of a socket the gateway reads and writes: its identifier,
    [handshake.query.userId], [data.userId], the rooms it has joined, and
    whether it is still connected. *)
Record Socket := {
  sock_id : string;
  handshake_userId : option string;
  data_userId : option string;
  rooms : gset string;
  connected : bool;
}.

(** [userSockets: Map<string, Set<string>>], user identifier to socket
    identifiers. *)
Definition handleConnection (userSockets : gmap string (gset string)) (client : Socket)
  : gmap string (gset string) * Socket :=
if JS.truthyOptStr (handshake_userId client) then
  let userId := default EmptyString (handshake_userId client) in
  let userSockets1 :=
    if bool_decide (is_Some (userSockets !! userId)) then userSockets
    else <[userId := ∅]> userSockets in
  let userSockets2 := alter (fun sockets => {[sock_id client]} ∪ sockets) userId userSockets1 in
  (userSockets2,
   {| sock_id := sock_id client;
      handshake_userId := handshake_userId client;
      data_userId := Some userId;
      rooms := {["user:" +:+ userId]} ∪ rooms client;
      connected := connected client |})
else
  (userSockets,
   {| sock_id := sock_id client;
      handshake_userId := handshake_userId client;
      data_userId := data_userId client;
      rooms := rooms client;
      connected := false |}).

Definition handleDisconnect (userSockets : gmap string (gset string)) (client : Socket)
  : gmap string (gset string) :=
if JS.truthyOptStr (data_userId client) then
  let userId := default EmptyString (data_userId client) in
  match userSockets !! userId with
  | Some sockets =>
      let sockets' := sockets ∖ {[sock_id client]} in
      if (size sockets' =? 0)%nat then delete userId userSockets
      else <[userId := sockets']> userSockets
  | None => userSockets
  end
else userSockets.

End GatewaySessions.

(** ** apps/api/src/websocket/recommendation.gateway.ts: the gateway over
       the recommendations service *)

Module GatewayWiring.

(** The collaborators of the gateway as the application wires them: the
    recommendations service over its cache (the world of the gateway is the
    cache; the store answers through [be]) and the socket server, whose
    [emit] returns or throws as [emitOutcome] says. *)
Definition invalidateCache (userId : string) (cache : gmap string RecommendationResponse)
  : Result () * gmap string RecommendationResponse :=
(Ok (), RecommendationsService.invalidateCache cache userId).

Definition getRecommendations (be : RecommendationsService.Backend) (userId : string)
  (request : RecommendationRequest) (cache : gmap string RecommendationResponse)
  : Result RecommendationResponse * gmap string RecommendationResponse :=
RecommendationsService.getRecommendations be cache userId request.

Definition emit (emitOutcome : Result ()) (room event : string)
  (payload : RecommendationUpdateEvent) (cache : gmap string RecommendationResponse)
  : Result () * gmap string RecommendationResponse :=
(emitOutcome, cache).

Definition triggerRecommendationRefresh (be : RecommendationsService.Backend)
  (emitOutcome : Result ()) (userId : string) (reason : RefreshReason)
  (st : RecommendationGateway.State)
  : Result () * RecommendationGateway.State :=
RecommendationGateway.triggerRecommendationRefresh
  invalidateCache (getRecommendations be) (emit emitOutcome) userId reason st.

(** [handleManualRefresh], the handler of [request-refresh]. *)
Definition handleManualRefresh (be : RecommendationsService.Backend)
  (emitOutcome : Result ()) (client : GatewaySessions.Socket)
  (st : RecommendationGateway.State)
  : Result () * RecommendationGateway.State :=
if JS.truthyOptStr (GatewaySessions.data_userId client) then
  triggerRecommendationRefresh be emitOutcome
    (default EmptyString (GatewaySessions.data_userId client)) manual_refresh st
else (Ok (), st).

End GatewayWiring.

(** * Properties *)

(** ** Artist diversity *)

Section Diversity.
Import RecommendationsService.

(** Four neighbours from position [i] on, all by one artist. *)
Definition sameArtistRun4 (l : list Track) (i : nat) : Prop :=
  ∃ t0 t1 t2 t3,
    l !! i = Some t0 ∧ l !! (i + 1) = Some t1 ∧ l !! (i + 2) = Some t2
    ∧ l !! (i + 3) = Some t3
    ∧ artist t0 = artist t1 ∧ artist t1 = artist t2 ∧ artist t2 = artist t3.

Definition noRun4 (l : list Track) : Prop := ∀ i, ¬ sameArtistRun4 l i.

Lemma noRun4_nil : noRun4 [].
Proof. intros i (t0 & ? & ? & ? & H & _). by rewrite lookup_nil in H. Qed.



(** Three leading tracks by [a] make the count at least three. *)
Lemma countLeading_three (a : string) (l : list Track) (x y z : Track) :
  l !! 0 = Some x → l !! 1 = Some y → l !! 2 = Some z →
  artist x = a → artist y = a → artist z = a →
  3 ≤ countLeading a l.
Proof.
  destruct l as [|x' [|y' [|z' r]]]; simpl; try done.
  intros [= ->] [= ->] [= ->] Hx Hy Hz.
  apply String.eqb_eq in Hx, Hy, Hz. rewrite Hx, Hy, Hz. lia.
Qed.

Lemma getConsecutiveArtistCount_three (result : list Track) (a : string) (x y z : Track) :
  result !! (length result - 3) = Some x →
  result !! (length result - 2) = Some y →
  result !! (length result - 1) = Some z →
  3 ≤ length result →
  artist x = a → artist y = a → artist z = a →
  3 ≤ getConsecutiveArtistCount result a.
Proof.
  intros Hx Hy Hz Hlen ? ? ?. unfold getConsecutiveArtistCount.
  apply (countLeading_three a _ z y x); [| | |done..].
  - rewrite reverse_lookup by lia. rewrite <- Hz. f_equal; lia.
  - rewrite reverse_lookup by lia. rewrite <- Hy. f_equal; lia.
  - rewrite reverse_lookup by lia. rewrite <- Hx. f_equal; lia.
Qed.

(** Pushing a track whose artist closes fewer than three tracks keeps the
    list free of runs of four. *)
Lemma noRun4_push (result : list Track) (track : Track) :
  noRun4 result →
  getConsecutiveArtistCount result (artist track) < MAX_SAME_ARTIST_CONSECUTIVE →
  noRun4 (result ++ [track]).
Proof.
  intros Hres Hcount i (t0 & t1 & t2 & t3 & H0 & H1 & H2 & H3 & E01 & E12 & E23).
  destruct (decide (i + 3 < length result)) as [Hin|Hout].
  - apply (Hres i). exists t0, t1, t2, t3.
    rewrite lookup_app_l in H0, H1, H2, H3 by lia. done.
  - assert (Hi : i + 3 = length result).
    { apply lookup_lt_Some in H3. rewrite length_app in H3. simpl in H3. lia. }
    rewrite lookup_app_l in H0, H1, H2 by lia.
    rewrite lookup_app_r in H3 by lia.
    replace (i + 3 - length result) with 0 in H3 by lia.
    simpl in H3. injection H3 as <-.
    unfold MAX_SAME_ARTIST_CONSECUTIVE in Hcount.
    enough (3 ≤ getConsecutiveArtistCount result (artist track)) by lia.
    apply (getConsecutiveArtistCount_three result _ t0 t1 t2); try lia; try congruence.
    + rewrite <- H0. f_equal; lia.
    + rewrite <- H1. f_equal; lia.
    + rewrite <- H2. f_equal; lia.
Qed.

Lemma diversityStep_spec (st : list Track * gmap string nat) (track : Track) :
  (fst (diversityStep st track) = fst st
   ∧ MAX_SAME_ARTIST_CONSECUTIVE ≤ getConsecutiveArtistCount (fst st) (artist track))
  ∨ (fst (diversityStep st track) = fst st ++ [track]
     ∧ getConsecutiveArtistCount (fst st) (artist track) < MAX_SAME_ARTIST_CONSECUTIVE).
Proof.
  destruct st as [result artistCount]. unfold diversityStep.
  destruct (Nat.ltb_spec (getConsecutiveArtistCount result (artist track))
              MAX_SAME_ARTIST_CONSECUTIVE); simpl; eauto.
Qed.

Lemma diversity_foldl_noRun4 (tracks : list Track) (st : list Track * gmap string nat) :
  noRun4 (fst st) → noRun4 (fst (foldl diversityStep st tracks)).
Proof.
  revert st. induction tracks as [|t tracks IH]; intros st Hst; simpl; [done|].
  apply IH. destruct (diversityStep_spec st t) as [[-> _]|[-> Hlt]]; [done|].
  by apply noRun4_push.
Qed.

Lemma diversity_foldl_sublist (tracks : list Track) (st : list Track * gmap string nat) :
  ∃ kept, fst (foldl diversityStep st tracks) = fst st ++ kept ∧ kept `sublist_of` tracks.
Proof.
  revert st. induction tracks as [|t tracks IH]; intros st; simpl.
  - exists []. by rewrite app_nil_r.
  - destruct (IH (diversityStep st t)) as (kept & -> & Hsub).
    destruct (diversityStep_spec st t) as [[-> _]|[-> _]].
    + exists kept. split; [done|]. by apply sublist_cons.
    + exists (t :: kept). rewrite <- app_assoc. split; [done|]. by apply sublist_skip.
Qed.

Lemma applyDiversityRules_sublist (tracks : list Track) :
  applyDiversityRules tracks `sublist_of` tracks.
Proof.
  unfold applyDiversityRules.
  destruct (diversity_foldl_sublist tracks ([], ∅)) as (kept & -> & Hsub). done.
Qed.

Lemma applyDiversityRules_noRun4 (tracks : list Track) :
  noRun4 (applyDiversityRules tracks).
Proof. apply diversity_foldl_noRun4, noRun4_nil. Qed.



End Diversity.


(** ** The ML reorder *)

Section Rerank.
Import RecommendationsService.

(** The identifiers of a list, each at its first occurrence only. *)
Fixpoint firstOccurrences (l : list string) : list string :=
  match l with
  | [] => []
  | k :: r => k :: filter (fun x => x ≠ k) (firstOccurrences r)
  end.

Lemma tracksById_foldl (tracks : list Track) (m : gmap string Track) (k : string) (t : Track) :
  NoDup (id <$> tracks) →
  foldl (fun m t => <[id t := t]> m) m tracks !! k = Some t
  ↔ (t ∈ tracks ∧ id t = k) ∨ ((k ∉ id <$> tracks) ∧ m !! k = Some t).
Proof.
  revert m. induction tracks as [|t0 r IH]; intros m Hnd; simpl.
  - split; [intros H; right; split; [apply not_elem_of_nil|done]|].
    intros [[H _]|[_ H]]; [by apply elem_of_nil in H|done].
  - apply NoDup_cons in Hnd as [Hnotin Hnd]. rewrite (IH _ Hnd).
    rewrite elem_of_cons, not_elem_of_cons. split.
    + intros [[Hin Hid]|[Hk Hlook]]; [left; auto|].
      destruct (decide (id t0 = k)) as [<-|Hne].
      * rewrite lookup_insert_eq in Hlook. injection Hlook as <-. left; auto.
      * rewrite lookup_insert_ne in Hlook by done. right. auto.
    + intros [[[->|Hin] Hid]|[[Hne Hk] Hlook]].
      * right. subst k. split; [done|]. by rewrite lookup_insert_eq.
      * left; auto.
      * right. split; [done|]. by rewrite lookup_insert_ne.
Qed.

Lemma tracksById_lookup (tracks : list Track) (k : string) (t : Track) :
  NoDup (id <$> tracks) →
  tracksById tracks !! k = Some t ↔ t ∈ tracks ∧ id t = k.
Proof.
  intros Hnd. unfold tracksById. rewrite tracksById_foldl by done.
  rewrite lookup_empty. split; [intros [H|[_ H]]; done|intros H; by left].
Qed.

Lemma leftover_foldl (seen : gset string) (tracks ordered : list Track) :
  foldl (leftoverStep seen) ordered tracks
  = ordered ++ filter (fun t => id t ∉ seen) tracks.
Proof.
  revert ordered. induction tracks as [|t r IH]; intros ordered; simpl.
  - by rewrite app_nil_r.
  - rewrite IH. unfold leftoverStep. rewrite filter_cons.
    case_bool_decide; case_decide; try done. by rewrite <- app_assoc.
Qed.

(** The state of the first loop: [seen] holds the identifiers of
    [ordered], which are candidates, each once. *)
Definition rerankInv (tracks : list Track) (st : list Track * gset string) : Prop :=
  (∀ k, k ∈ snd st ↔ k ∈ id <$> fst st)
  ∧ (∀ t, t ∈ fst st → t ∈ tracks)
  ∧ NoDup (id <$> fst st).

Lemma rerankStep_inv (tracks : list Track) st item :
  NoDup (id <$> tracks) →
  rerankInv tracks st → rerankInv tracks (rerankStep (tracksById tracks) st item).
Proof.
  intros Hnd (Hseen & Hsub & Hnodup). destruct st as [ordered seen]. unfold rerankStep.
  destruct (tracksById tracks !! trackId item) as [t|] eqn:Hlook; [|done].
  apply tracksById_lookup in Hlook as [Hin Hid]; [|done].
  case_bool_decide as Hs; [done|]. unfold rerankInv. simpl in *. repeat split.
  - rewrite fmap_app. set_solver.
  - rewrite fmap_app. set_solver.
  - intros t' [?|Heq%list_elem_of_singleton]%elem_of_app; subst; auto.
  - rewrite fmap_app. apply NoDup_app. repeat split; [done| |apply NoDup_singleton].
    intros k Hk Heq%list_elem_of_singleton. subst k. apply Hs. by apply Hseen.
Qed.

Lemma rerank_foldl_inv (tracks : list Track) reranked st :
  NoDup (id <$> tracks) →
  rerankInv tracks st → rerankInv tracks (foldl (rerankStep (tracksById tracks)) st reranked).
Proof.
  intros Hnd. revert st. induction reranked as [|item r IH]; intros st Hst; simpl; [done|].
  by apply IH, rerankStep_inv.
Qed.

Lemma filter_all {A} (P : A → Prop) `{!∀ x, Decision (P x)} (l : list A) :
  (∀ x, x ∈ l → P x) → filter P l = l.
Proof.
  induction l as [|x l IH]; intros Hall; [done|].
  rewrite filter_cons_True by (apply Hall; left). f_equal. apply IH.
  intros y Hy. apply Hall. by right.
Qed.

Lemma filter_ext_elem {A} (P Q : A → Prop) `{!∀ x, Decision (P x)} `{!∀ x, Decision (Q x)}
    (l : list A) :
  (∀ x, x ∈ l → P x ↔ Q x) → filter P l = filter Q l.
Proof.
  induction l as [|x l IH]; intros Hext; [done|].
  rewrite !filter_cons. rewrite IH by (intros y Hy; apply Hext; by right).
  destruct (decide (P x)) as [HP|HP], (decide (Q x)) as [HQ|HQ]; try done.
  - destruct HQ. by eapply Hext; [left|].
  - destruct HP. by eapply Hext; [left|].
Qed.

Lemma NoDup_fmap_eq {A B} (f : A → B) (l : list A) (x y : A) :
  NoDup (f <$> l) → x ∈ l → y ∈ l → f x = f y → x = y.
Proof.
  induction l as [|z l IH]; [by intros _ ?%elem_of_nil|].
  rewrite fmap_cons, NoDup_cons, !elem_of_cons. intros [Hz Hnd] [->|Hx] [->|Hy] Hf; auto.
  - destruct Hz. rewrite Hf. by apply list_elem_of_fmap_2.
  - destruct Hz. rewrite <- Hf. by apply list_elem_of_fmap_2.
Qed.

Lemma elem_of_firstOccurrences (l : list string) (k : string) :
  k ∈ firstOccurrences l ↔ k ∈ l.
Proof.
  induction l as [|x l IH]; simpl; [done|].
  rewrite !elem_of_cons, list_elem_of_filter, IH.
  destruct (decide (k = x)); tauto.
Qed.

Lemma NoDup_firstOccurrences (l : list string) : NoDup (firstOccurrences l).
Proof.
  induction l as [|x l IH]; simpl; [apply NoDup_nil_2|].
  apply NoDup_cons. split; [|by apply NoDup_filter].
  rewrite list_elem_of_filter. tauto.
Qed.

(** The identifiers the first loop collects: those of the rerank result
    that name a candidate, in the order of their first occurrence. *)
Lemma rerank_foldl_ids (tracks : list Track) reranked st :
  NoDup (id <$> tracks) →
  (∀ k, k ∈ snd st ↔ k ∈ id <$> fst st) →
  id <$> fst (foldl (rerankStep (tracksById tracks)) st reranked)
  = (id <$> fst st)
    ++ filter (fun k => k ∉ snd st)
         (firstOccurrences (filter (fun k => k ∈ id <$> tracks) (trackId <$> reranked))).
Proof.
  intros Hnd. revert st. induction reranked as [|item r IH]; intros [ordered seen] Hseen.
  { simpl. by rewrite app_nil_r. }
  rewrite fmap_cons, filter_cons.
  change (foldl (rerankStep (tracksById tracks)) (ordered, seen) (item :: r))
    with (foldl (rerankStep (tracksById tracks))
            (rerankStep (tracksById tracks) (ordered, seen) item) r).
  unfold rerankStep at 2. simpl in Hseen.
  destruct (tracksById tracks !! trackId item) as [t|] eqn:Hlook.
  - apply tracksById_lookup in Hlook as [Hin Hid]; [|done].
    rewrite decide_True by (rewrite <- Hid; by apply list_elem_of_fmap_2).
    simpl firstOccurrences. rewrite filter_cons. rewrite <- Hid.
    case_bool_decide as Hs.
    + rewrite (IH (ordered, seen) Hseen). simpl.
      rewrite decide_False by (intros Hn; by apply Hn).
      f_equal. symmetry. apply list_filter_filter_l. intros x Hx ->. done.
    + rewrite IH; simpl.
      * rewrite decide_True by done. rewrite fmap_app, <- app_assoc. simpl.
        do 2 f_equal. rewrite list_filter_filter. apply list_filter_iff.
        intros x. rewrite not_elem_of_union, not_elem_of_singleton. tauto.
      * intros k. rewrite fmap_app, elem_of_union, elem_of_app, elem_of_singleton.
        simpl. rewrite list_elem_of_singleton. rewrite Hseen. tauto.
  - rewrite decide_False.
    + by rewrite (IH (ordered, seen) Hseen).
    + intros (t & Hid & Hin)%list_elem_of_fmap.
      assert (tracksById tracks !! trackId item = Some t) as Hsome
        by (apply tracksById_lookup; auto).
      congruence.
Qed.

End Rerank.

(** C10.  When the candidates carry distinct identifiers (the primary key
    of [tracks]), [reorderTracksByRerank] returns a permutation of them: first
    the candidates the rerank result names, in the order it first names them
    (unknown identifiers and repetitions are passed over), then the candidates
    it does not name, in their original order. *)
Theorem reorderTracksByRerank_permutation
    (tracks : list Track) (reranked : list RecommendationsService.RerankResult) :
  NoDup (id <$> tracks) →
  RecommendationsService.reorderTracksByRerank tracks reranked ≡ₚ tracks
  ∧ NoDup (RecommendationsService.reorderTracksByRerank tracks reranked)
  ∧ ∃ ordered,
      RecommendationsService.reorderTracksByRerank tracks reranked
      = ordered
        ++ filter (fun t => id t ∉ RecommendationsService.trackId <$> reranked) tracks
      ∧ id <$> ordered
        = firstOccurrences
            (filter (fun k => k ∈ id <$> tracks) (RecommendationsService.trackId <$> reranked)).
Proof.
  intros Hnd. unfold RecommendationsService.reorderTracksByRerank.
  pose proof (rerank_foldl_inv tracks reranked ([], ∅) Hnd) as Hinv.
  pose proof (rerank_foldl_ids tracks reranked ([], ∅) Hnd) as Hids.
  destruct (foldl _ _ reranked) as [ordered seen].
  destruct Hinv as (Hseen & Hsub & Hnodup).
  { repeat split; simpl; try set_solver. apply NoDup_nil_2. }
  simpl in *. rewrite leftover_foldl.
  assert (Hids' : id <$> ordered
          = firstOccurrences (filter (fun k => k ∈ id <$> tracks)
                                (RecommendationsService.trackId <$> reranked))).
  { rewrite Hids by set_solver. simpl. apply filter_all. intros; set_solver. }
  assert (Hperm : ordered ++ filter (fun t => id t ∉ seen) tracks ≡ₚ tracks).
  { rewrite <- (filter_app_complement (fun t => id t ∈ seen) tracks) at 2.
    apply Permutation_app; [|done].
    apply NoDup_Permutation.
    - by apply NoDup_fmap_1 in Hnodup.
    - apply NoDup_filter. by apply NoDup_fmap_1 in Hnd.
    - intros t. rewrite list_elem_of_filter. split.
      + intros Hin. split; [|by apply Hsub]. apply Hseen. by apply list_elem_of_fmap_2.
      + intros [Hs Hin]. apply Hseen in Hs.
        apply list_elem_of_fmap in Hs as (t' & Hid & Hin').
        assert (t = t') as ->; [|done].
        apply (NoDup_fmap_eq id tracks); auto. }
  split; [done|]. split.
  { rewrite Hperm. by apply NoDup_fmap_1 in Hnd. }
  exists ordered. split; [|done]. f_equal.
  apply filter_ext_elem. intros t Hin.
  rewrite Hseen, Hids', elem_of_firstOccurrences, list_elem_of_filter.
  assert (id t ∈ id <$> tracks) by (by apply list_elem_of_fmap_2).
  tauto.
Qed.

(** ** The skip-burst trigger *)

Section SkipBurst.
Import InteractionsService InteractionsController.

Lemma fitsInteger_orNull v : fitsInteger (orNull v) = fitsInteger v.
Proof. by destruct v as [[| |]|]. Qed.

Lemma insertInteraction_ok db now u event trackId :
  fitsVarchar255 u = true →
  fitsInteger (ev_eventValue event) = true →
  uuidIn (ev_trackId event) = Some trackId →
  trackId ∈ trackIds db →
  ∃ row, insertInteraction db now u event
         = Ok (row, {| trackIds := trackIds db; interactions := interactions db ++ [row] |})
       ∧ int_externalUserId row = u
       ∧ int_eventType row = ev_eventType event
       ∧ int_createdAt row = now
       ∧ int_trackId row = trackId.
Proof.
  intros Hu Hv Hid Hin. unfold insertInteraction.
  rewrite Hu, fitsInteger_orNull, Hv, Hid. simpl. rewrite bool_decide_eq_true_2 by done.
  eexists. split; [done|]. done.
Qed.

(** The insert fails exactly when the store refuses the row. *)
Lemma insertInteraction_throw db now u event :
  (∃ e, insertInteraction db now u event = Throw e)
  ↔ fitsVarchar255 u = false
    ∨ fitsInteger (ev_eventValue event) = false
    ∨ (∀ trackId, uuidIn (ev_trackId event) = Some trackId → trackId ∉ trackIds db).
Proof.
  unfold insertInteraction. rewrite fitsInteger_orNull.
  destruct (fitsVarchar255 u); simpl; [|split; [by left|eauto]].
  destruct (fitsInteger (ev_eventValue event)); simpl; [|split; [by right; left|eauto]].
  destruct (uuidIn (ev_trackId event)) as [trackId|]; [|split; [by right; right|eauto]].
  case_bool_decide as Hin.
  - split; [by intros [? ?]|]. intros [?|[?|Hno]]; [done..|]. by destruct (Hno trackId).
  - split; [|eauto]. intros _. right. right. by intros ? [= <-].
Qed.

Lemma shouldRefreshRecommendations_iff db now u e :
  shouldRefreshRecommendations db now u e = true
  ↔ e = SKIP ∧ SKIP_THRESHOLD ≤ countRecentSkips db u now.
Proof.
  unfold shouldRefreshRecommendations. case_bool_decide as He.
  - split; [done|]. intros [-> _]. by destruct He.
  - rewrite Nat.leb_le. by split; [|intros [_ ?]].
Qed.

(** The row just written is inside the window when the count reads the
    clock less than sixty seconds after the insert. *)
Lemma countRecentSkips_snoc db row u now :
  countRecentSkips {| trackIds := trackIds db; interactions := interactions db ++ [row] |} u now
  = countRecentSkips db u now + (if isRecentSkip u now row then 1 else 0).
Proof.
  unfold countRecentSkips. simpl. rewrite List.filter_app, length_app. simpl.
  by destruct (isRecentSkip u now row).
Qed.

(** What the count counts: the rows of the user that are a [SKIP] and were
    written less than sixty seconds (60 000 000 microseconds) before [now]. *)
Lemma countRecentSkips_rows db u now :
  countRecentSkips db u now
  = length (filter (fun r => int_externalUserId r = u ∧ int_eventType r = SKIP
                             ∧ (now - 60 * 1000000 < int_createdAt r)%Z)
              (interactions db)).
Proof.
  unfold countRecentSkips. induction (interactions db) as [|r l IH]; [done|].
  rewrite filter_cons. simpl. unfold isRecentSkip at 1.
  unfold seconds, SKIP_DETECTION_WINDOW_SEC.
  destruct (String.eqb_spec (int_externalUserId r) u) as [Hu|Hu]; simpl.
  - case_bool_decide as He; simpl.
    + destruct (Z.ltb_spec (now - 60 * 1000000) (int_createdAt r)) as [Ht|Ht].
      * rewrite decide_True by done. simpl. by rewrite IH.
      * rewrite decide_False by (intros (_ & _ & ?); lia). done.
    + rewrite decide_False by (by intros (_ & ? & _)). done.
  - rewrite decide_False by (by intros (? & _)). done.
Qed.

End SkipBurst.

(** C1.  An interaction the store takes (a user identifier that fits its
    column, an event value that is a 32-bit integer, the UUID of a known track) is
    appended as one row of that user, with the event type of the request and
    the time of the insert.  The handler reports [refreshTriggered] exactly
    when the event is a [SKIP] and, among the rows then in the table, at least
    two are rows of this user, of type [SKIP] and less than sixty seconds old
    at the count; a [SKIP] counted within sixty seconds of its insert is one of
    them.  The handler then calls [triggerRecommendationRefresh] once, with
    reason [skip_detected], and never calls it for another event type. *)
Theorem recordInteraction_refresh_iff_skip_burst
    (db : InteractionsService.Db) (tInsert tCount : Z) (igEnabled : bool)
    (externalUserId : string) (event : InteractionsService.InteractionEventInput)
    (trackId : string) :
  InteractionsService.fitsVarchar255 externalUserId = true →
  InteractionsService.fitsInteger (InteractionsService.ev_eventValue event) = true →
  InteractionsService.uuidIn (InteractionsService.ev_trackId event) = Some trackId →
  trackId ∈ InteractionsService.trackIds db →
  let recent (r : InteractionsService.Interaction) :=
    InteractionsService.int_externalUserId r = externalUserId
    ∧ InteractionsService.int_eventType r = SKIP
    ∧ (tCount - 60 * 1000000 < InteractionsService.int_createdAt r)%Z in
  ∃ response calls db',
    InteractionsController.recordInteraction db tInsert tCount igEnabled externalUserId (Ok event)
      = Ok (response, calls, db')
    ∧ InteractionsService.recordInteraction db tInsert tCount externalUserId event
      = Ok (InteractionsController.interaction response,
            InteractionsController.refreshTriggered response, db')
    ∧ InteractionsService.interactions db'
      = InteractionsService.interactions db ++ [InteractionsController.interaction response]
    ∧ InteractionsService.int_externalUserId (InteractionsController.interaction response)
      = externalUserId
    ∧ InteractionsService.int_eventType (InteractionsController.interaction response)
      = InteractionsService.ev_eventType event
    ∧ InteractionsService.int_createdAt (InteractionsController.interaction response) = tInsert
    ∧ (InteractionsController.refreshTriggered response = true
       ↔ InteractionsService.ev_eventType event = SKIP
         ∧ 2 ≤ length (filter recent (InteractionsService.interactions db')))
    ∧ (InteractionsService.ev_eventType event = SKIP → (tCount - 60 * 1000000 < tInsert)%Z →
       length (filter recent (InteractionsService.interactions db'))
       = S (length (filter recent (InteractionsService.interactions db))))
    ∧ filter (fun c => InteractionsController.isTrigger c = true) calls
      = (if InteractionsController.refreshTriggered response
         then [InteractionsController.TriggerRecommendationRefresh externalUserId skip_detected]
         else [])
    ∧ (InteractionsService.ev_eventType event ≠ SKIP →
       filter (fun c => InteractionsController.isTrigger c = true) calls = []).
Proof.
  intros Hfits Hvalue Hid Hin recent.
  destruct (insertInteraction_ok db tInsert externalUserId event trackId Hfits Hvalue Hid Hin)
    as (row & Hins & Hu & He & Ht & _).
  unfold InteractionsController.recordInteraction, InteractionsService.recordInteraction.
  simpl. rewrite Hins. simpl.
  set (db' := {| InteractionsService.trackIds := _; InteractionsService.interactions := _ |}).
  set (should := InteractionsService.shouldRefreshRecommendations db' tCount externalUserId _).
  eexists _, _, db'. split; [reflexivity|]. simpl. split; [reflexivity|].
  split; [reflexivity|]. split; [exact Hu|]. split; [exact He|]. split; [exact Ht|].
  split.
  { subst should. rewrite shouldRefreshRecommendations_iff, countRecentSkips_rows. done. }
  split.
  { intros Hskip Hwin. rewrite filter_app, length_app, filter_cons, filter_nil.
    rewrite decide_True; [simpl; lia|].
    subst recent. simpl. rewrite Hu, He, Ht. done. }
  split.
  - destruct igEnabled, should; reflexivity.
  - intros Hne. assert (should = false) as ->.
    { subst should. unfold InteractionsService.shouldRefreshRecommendations.
      by rewrite bool_decide_eq_true_2. }
    destruct igEnabled; reflexivity.
Qed.

(** ** The push channel *)

Section Push.
Import RecommendationGateway.
Context {W : Type}.
Variable invalidateCache : string → W → Result () * W.
Variable getRecommendations :
  string → RecommendationRequest → W → Result RecommendationResponse * W.
Variable emit : string → string → RecommendationUpdateEvent → W → Result () * W.

#[local] Abbreviation tryRefresh := (tryRefresh invalidateCache getRecommendations emit).
#[local] Abbreviation triggerRecommendationRefresh :=
  (triggerRecommendationRefresh invalidateCache getRecommendations emit).

(** The [try] block throws exactly when one of the three awaited
    operations throws; nothing is delivered and nothing is logged by it
    then. *)
Lemma tryRefresh_throw userId reason st e st' :
  tryRefresh userId reason st = (Throw e, st') →
  delivered st' = delivered st ∧ logs st' = logs st.
Proof.
  unfold RecommendationGateway.tryRefresh.
  destruct (invalidateCache userId (world st)) as [[[]|e1] w1]; [|by intros [= <- <-]].
  destruct (getRecommendations userId _ w1) as [[recs|e2] w2]; [|by intros [= <- <-]].
  destruct (emit _ _ _ w2) as [[[]|e3] w3]; [done|by intros [= <- <-]].
Qed.

Lemma tryRefresh_ok userId reason st st' :
  tryRefresh userId reason st = (Ok (), st') →
  ∃ recs, delivered st'
          = delivered st ++ [("user:" +:+ userId,
                              {| upd_tracks := tracks recs; upd_reason := reason |})].
Proof.
  unfold RecommendationGateway.tryRefresh.
  destruct (invalidateCache userId (world st)) as [[[]|e1] w1]; [|done].
  destruct (getRecommendations userId _ w1) as [[recs|e2] w2]; [|done].
  destruct (emit _ _ _ w2) as [[[]|e3] w3]; [|done].
  intros [= <-]. by exists recs.
Qed.

End Push.

(** C7.  [triggerRecommendationRefresh] returns normally whatever the cache
    invalidation, the pipeline and the emit do.  When one of them throws,
    the error goes to the log and nothing is delivered to the sessions; when
    none throws, one [recommendations:update] with the given reason is
    delivered to the room of the user. *)
Theorem triggerRecommendationRefresh_never_throws
    {W : Type}
    (invalidateCache : string → W → Result () * W)
    (getRecommendations : string → RecommendationRequest → W → Result RecommendationResponse * W)
    (emit : string → string → RecommendationUpdateEvent → W → Result () * W)
    (userId : string) (reason : RefreshReason) (st : RecommendationGateway.State) :
  let out := RecommendationGateway.triggerRecommendationRefresh
               invalidateCache getRecommendations emit userId reason st in
  fst out = Ok ()
  ∧ match RecommendationGateway.tryRefresh
            invalidateCache getRecommendations emit userId reason st with
    | (Ok _, _) =>
        ∃ recs, RecommendationGateway.delivered (snd out)
                = RecommendationGateway.delivered st
                  ++ [("user:" +:+ userId,
                       {| upd_tracks := tracks recs; upd_reason := reason |})]
    | (Throw e, _) =>
        RecommendationGateway.delivered (snd out) = RecommendationGateway.delivered st
        ∧ ∃ msg, RecommendationGateway.logs (snd out)
                 = RecommendationGateway.logs st ++ [RecommendationGateway.LogError msg e]
    end
  ∧ ((∃ e w, invalidateCache userId (RecommendationGateway.world st) = (Throw e, w))
     → RecommendationGateway.delivered (snd out) = RecommendationGateway.delivered st)
  ∧ (∀ w1 u, invalidateCache userId (RecommendationGateway.world st) = (Ok u, w1) →
       (∃ e w, getRecommendations userId {| req_context := None; req_limit := Some 20%Z |} w1
               = (Throw e, w))
       → RecommendationGateway.delivered (snd out) = RecommendationGateway.delivered st)
  ∧ (∀ w1 u recs w2,
       invalidateCache userId (RecommendationGateway.world st) = (Ok u, w1) →
       getRecommendations userId {| req_context := None; req_limit := Some 20%Z |} w1
         = (Ok recs, w2) →
       (∃ e w, emit ("user:" +:+ userId) "recommendations:update"
                 {| upd_tracks := tracks recs; upd_reason := reason |} w2 = (Throw e, w))
       → RecommendationGateway.delivered (snd out) = RecommendationGateway.delivered st).
Proof.
  intros out. subst out. unfold RecommendationGateway.triggerRecommendationRefresh.
  destruct (RecommendationGateway.tryRefresh _ _ _ _ _ _) as [[[]|e] st'] eqn:Htry.
  - split; [done|]. split; [by apply tryRefresh_ok in Htry|].
    unfold RecommendationGateway.tryRefresh in Htry. repeat split.
    + intros (e & w & He). by rewrite He in Htry.
    + intros w1 u He1 (e & w & He2). rewrite He1, He2 in Htry. done.
    + intros w1 u recs w2 He1 He2 (e & w & He3). rewrite He1, He2, He3 in Htry. done.
  - apply tryRefresh_throw in Htry as [Hd Hl]. simpl. rewrite Hd, Hl.
    split; [done|]. split; [eauto|]. done.
Qed.

(** ** The cache key *)

Section CacheKey.
Import RecommendationsService.

Definition emptyContext : InteractionContext :=
  {| mood := None; activity := None; timeBucket := None |}.

(** No query parameter is truthy: the handler passes no context. *)
Lemma buildRequest_no_context mood activity timeBucket limit :
  JS.truthyOptStr mood = false → JS.truthyOptStr activity = false →
  JS.truthyOptStr timeBucket = false →
  Schemas.raw_context (RecommendationsController.buildRequest mood activity timeBucket limit)
  = None.
Proof. intros Hm Ha Ht. unfold RecommendationsController.buildRequest. simpl.
       by rewrite Hm, Ha, Ht. Qed.

Lemma validate_no_context mood activity timeBucket limit request :
  JS.truthyOptStr mood = false → JS.truthyOptStr activity = false →
  JS.truthyOptStr timeBucket = false →
  RecommendationsController.validate mood activity timeBucket limit = Ok request →
  req_context request = None.
Proof.
  intros Hm Ha Ht. unfold RecommendationsController.validate,
    Schemas.RecommendationRequestSchema.
  rewrite buildRequest_no_context by done. simpl.
  match goal with |- context [Schemas.LimitSchema ?x] => destruct (Schemas.LimitSchema x) end;
    simpl; [|done]. by intros [= <-].
Qed.

#[local] Instance InteractionContext_eq_dec : EqDecision InteractionContext.
Proof. solve_decision. Defined.

Definition allContexts : list InteractionContext :=
  m ← [None; Some CALM; Some HAPPY; Some SAD; Some ENERGETIC];
  a ← [None; Some WORK; Some EXERCISE; Some RELAX; Some PARTY];
  b ← [None; Some MORNING; Some AFTERNOON; Some EVENING; Some NIGHT];
  [{| mood := m; activity := a; timeBucket := b |}].

Lemma allContexts_complete c : In c allContexts.
Proof.
  assert (H : existsb (fun c' => bool_decide (c' = c)) allContexts = true)
    by (destruct c as [[[]|] [[]|] [[]|]]; vm_compute; reflexivity).
  apply existsb_exists in H as (c' & Hin & Heq).
  apply bool_decide_eq_true in Heq. by subst.
Qed.

(** Two contexts with the same serialization are the same context: checked
    on all pairs of the finitely many contexts. *)
Lemma stringifyContext_inj c1 c2 :
  stringifyContext c1 = stringifyContext c2 → c1 = c2.
Proof.
  assert (Hall : forallb (fun c1 =>
            forallb (fun c2 =>
              implb (String.eqb (stringifyContext c1) (stringifyContext c2))
                    (bool_decide (c1 = c2))) allContexts) allContexts = true)
    by (vm_compute; reflexivity).
  intros Heq. rewrite forallb_forall in Hall.
  specialize (Hall c1 (allContexts_complete c1)). rewrite forallb_forall in Hall.
  specialize (Hall c2 (allContexts_complete c2)).
  apply String.eqb_eq in Heq. rewrite Heq in Hall. simpl in Hall.
  by apply bool_decide_eq_true in Hall.
Qed.

End CacheKey.

(** The service itself does not normalize: called with the empty object
    as context it would use the key [recommendations:u1:{}], not
    [recommendations:u1:undefined].  No caller does so: the gateway passes no
    context, and the HTTP handler passes none when no parameter is truthy. *)
Lemma cacheKey_missing_vs_empty_context :
  RecommendationsService.cacheKey "u1" None = "recommendations:u1:undefined"
  ∧ RecommendationsService.cacheKey "u1" (Some emptyContext) = "recommendations:u1:{}"
  ∧ RecommendationsService.cacheKey "u1" None
    ≠ RecommendationsService.cacheKey "u1" (Some emptyContext).
Proof. repeat split. discriminate. Qed.

(** ** The limit of a request *)

Section Limit.
Import RecommendationsService.








End Limit.



(** ** The interest-graph avoid filter *)

Section Avoid.
Import RecommendationsService.

(** A track the filter lets through: neither its artist nor its genre has
    an avoid score of 0.6 or more. *)
Definition notAvoided (g : InterestGraph) (t : Track) : Prop :=
  (∀ a, InterestGraphService.avoidArtists g !! artist t = Some a → (a < 6 # 10)%Q)
  ∧ (∀ a, InterestGraphService.avoidGenres g !! genre t = Some a → (a < 6 # 10)%Q).

Lemma avoided_false m key :
  avoided m key = false ↔ ∀ a, m !! key = Some a → (a < 6 # 10)%Q.
Proof.
  unfold avoided, AVOID_THRESHOLD. destruct (m !! key) as [a|]; [|by split].
  split.
  - intros H a' [= <-]. apply Qnot_le_lt. intros Hle.
    apply Qle_bool_iff in Hle. congruence.
  - intros H. specialize (H a eq_refl). apply not_true_is_false. intros Hle.
    apply Qle_bool_iff in Hle. by apply Qlt_not_le in H.
Qed.

Lemma applyInterestGraphFilters_spec tracks g t :
  In t (applyInterestGraphFilters tracks g) ↔ In t tracks ∧ notAvoided g t.
Proof.
  unfold applyInterestGraphFilters, notAvoided. rewrite filter_In, <- !avoided_false.
  destruct (avoided _ (artist t)), (avoided _ (genre t)); intuition congruence.
Qed.

(** The reorder only ever returns candidates, whatever their identifiers. *)
Lemma tracksById_foldl_elem (tracks : list Track) (m : gmap string Track) k t :
  foldl (fun m t => <[id t := t]> m) m tracks !! k = Some t → t ∈ tracks ∨ m !! k = Some t.
Proof.
  revert m. induction tracks as [|t0 r IH]; intros m; simpl; [auto|].
  intros [Hin|Hm]%IH; [left; by right|].
  destruct (decide (id t0 = k)) as [<-|Hne].
  - rewrite lookup_insert_eq in Hm. injection Hm as <-. left; by left.
  - rewrite lookup_insert_ne in Hm by done. by right.
Qed.

Lemma rerank_foldl_elem (tracks : list Track) reranked (st : list Track * gset string) :
  (∀ t, t ∈ fst st → t ∈ tracks) →
  ∀ t, t ∈ fst (foldl (rerankStep (tracksById tracks)) st reranked) → t ∈ tracks.
Proof.
  revert st. induction reranked as [|item r IH]; intros [ordered seen] Hst; simpl; [done|].
  apply IH. unfold rerankStep.
  destruct (tracksById tracks !! trackId item) as [t0|] eqn:Hlook; [|done].
  case_bool_decide; [done|]. simpl. intros t [Hin|Heq%list_elem_of_singleton]%elem_of_app.
  - by apply Hst.
  - subst t. apply tracksById_foldl_elem in Hlook as [?|Hempty]; [done|].
    by rewrite lookup_empty in Hempty.
Qed.

Lemma reorderTracksByRerank_elem tracks reranked t :
  t ∈ reorderTracksByRerank tracks reranked → t ∈ tracks.
Proof.
  unfold reorderTracksByRerank.
  pose proof (rerank_foldl_elem tracks reranked ([], ∅)) as Hsub.
  destruct (foldl _ _ reranked) as [ordered seen]. simpl in Hsub.
  rewrite leftover_foldl. intros [Hin|Hin]%elem_of_app.
  - apply Hsub; [|done]. intros ? []%elem_of_nil.
  - by apply list_elem_of_filter in Hin as [_ ?].
Qed.

Lemma slice0_elem {A} (l : list A) n x : x ∈ JS.slice0 l n → x ∈ l.
Proof.
  unfold JS.slice0. case_match; intros (i & Hi & _)%elem_of_take;
    by eapply list_elem_of_lookup_2.
Qed.


End Avoid.

(** ** Sample data *)

Section Samples.
Import RecommendationsService.

Definition sampleTrack (i a g : string) (e : option Q) : Track :=
  {| id := i; title := i; artist := a; genre := g;
     audioFeatures := Some {| energy := e; valence := None; danceability := None |} |}.

Definition notAsked {A : Type} : Result A := Throw (StoreError "not asked").

(** A user with preferred genres and a history, three interactions, all
    [DISLIKE], whose embedding therefore stays empty; the interest graph
    says to avoid the artist X. *)
Definition dislikeOnlyProfile : UserProfile :=
  {| externalUserId := "u2"; preferredGenres := ["Pop"]; dislikedGenres := [];
     profileEmbedding := None |}.

Definition avoidX : InterestGraph :=
  {| InterestGraphService.version := 1;
     InterestGraphService.generatedBy := "heuristic";
     InterestGraphService.windowDays := 90;
     InterestGraphService.topArtists := ∅;
     InterestGraphService.topGenres := ∅;
     InterestGraphService.avoidArtists := {[ "X" := 1%Q ]};
     InterestGraphService.avoidGenres := ∅ |}.

Definition someStats : InteractionsService.Stats :=
  {| InteractionsService.totalInteractions := 3;
     InteractionsService.likeCount := 0;
     InteractionsService.skipCount := 0;
     InteractionsService.playCount := 0 |}.

Definition dislikeOnlyBackend : Backend :=
  {| now := 0;
     findOrCreateProfile := fun _ => Ok dislikeOnlyProfile;
     getUserInteractionStats := fun _ => Ok someStats;
     popularByGenre := fun _ _ => notAsked;
     popularGlobal := fun _ => notAsked;
     computeAndUpdateProfileEmbedding := fun _ => Ok ();
     getRecentlySkippedTrackIds := fun _ _ _ => Ok [];
     findUpdatedProfile := fun _ => Ok dislikeOnlyProfile;
     annByEmbedding := fun _ _ _ => notAsked;
     popularByGenreExcluding :=
       fun _ _ _ => Ok [sampleTrack "t1" "X" "Pop" None; sampleTrack "t2" "Y" "Pop" None];
     interestGraphEnabled := true;
     getOrCompute := fun _ => Ok (Some avoidX);
     getRecentTrackSequenceFromDb := fun _ _ => Ok [];
     rerank := fun _ _ _ _ _ _ => None |}.

(** The same user once a profile embedding exists. *)
Definition embeddedProfile : UserProfile :=
  {| externalUserId := "u2"; preferredGenres := ["Pop"]; dislikedGenres := [];
     profileEmbedding := Some [JS.Fin 1] |}.

Definition embeddedBackend : Backend :=
  {| now := 0;
     findOrCreateProfile := fun _ => Ok dislikeOnlyProfile;
     getUserInteractionStats := fun _ => Ok someStats;
     popularByGenre := fun _ _ => notAsked;
     popularGlobal := fun _ => notAsked;
     computeAndUpdateProfileEmbedding := fun _ => Ok ();
     getRecentlySkippedTrackIds := fun _ _ _ => Ok [];
     findUpdatedProfile := fun _ => Ok embeddedProfile;
     annByEmbedding :=
       fun _ _ _ => Ok [sampleTrack "t1" "X" "Pop" None; sampleTrack "t2" "Y" "Pop" None];
     popularByGenreExcluding := fun _ _ _ => notAsked;
     interestGraphEnabled := true;
     getOrCompute := fun _ => Ok (Some avoidX);
     getRecentTrackSequenceFromDb := fun _ _ => Ok [];
     rerank := fun _ _ _ _ _ _ => None |}.

Definition plainRequest : RecommendationRequest :=
  {| req_context := None; req_limit := Some 20%Z |}.

End Samples.



(** Revision [1b6bdb2] on the embedding branch: the track by the avoided
    artist X comes back first. *)
Lemma avoided_artist_returned_by_revision_1b6bdb2 :
  RecommendationsService.isColdStart someStats dislikeOnlyProfile = false
  ∧ profileEmbedding embeddedProfile = Some [JS.Fin 1]
  ∧ fst (RecommendationsService_1b6bdb2.getRecommendations embeddedBackend ∅ "u2" plainRequest)
    = Ok {| tracks := [sampleTrack "t1" "X" "Pop" None; sampleTrack "t2" "Y" "Pop" None];
            context := None; generatedAt := 0 |}
  ∧ InterestGraphService.avoidArtists avoidX !! "X" = Some 1%Q.
Proof. repeat split; vm_compute; reflexivity. Qed.


(** ** The profile embedding *)

Section Embedding.
Import UsersService.

(** An embedding as the data model wants it: 256 finite numbers. *)
Definition wellFormedEmbedding (e : list JS.num) : Prop :=
  length e = 256 ∧ Forall (fun n => JS.isFinite n = true) e.

Lemma parseVector_array l :
  parseVector (JS.VArr l) = Some (List.map JS.toNumber l).
Proof. reflexivity. Qed.

Lemma parseVector_string s nums :
  parseVector (JS.VStr s) = Some nums →
  nums ≠ [] ∧ Forall (fun n => JS.isFinite n = true) nums
  ∧ length nums
    ≤ length (JS.split ","%char
                (JS.dropTrailing "]"%char (JS.dropLeading "["%char (JS.trim s)))).
Proof.
  unfold parseVector. destruct (negb (JS.truthy (JS.VStr s))); [done|].
  destruct (negb (JS.truthyStr _)); [done|].
  set (parts := List.map _ _).
  destruct (List.filter JS.isFinite parts) as [|n ns] eqn:Hf; [done|].
  intros [= <-]. split; [done|]. rewrite <- Hf. split.
  - apply Forall_forall. intros x Hx. apply list_elem_of_In, filter_In in Hx. tauto.
  - etransitivity; [apply List.filter_length_le|]. subst parts. by rewrite length_map.
Qed.

(** A string all of whose parts read as finite numbers yields one entry
    per part. *)
Lemma parseVector_string_all_finite s :
let inner := JS.dropTrailing "]"%char (JS.dropLeading "["%char (JS.trim s)) in
let parts := List.map (fun p => JS.parseFloat (JS.trim p)) (JS.split ","%char inner) in
JS.truthyStr inner = true →
Forall (fun n => JS.isFinite n = true) parts →
parseVector (JS.VStr s) = Some parts ∧ length parts = length (JS.split ","%char inner).
Proof.
intros inner parts Hinner Hfin. split; [|apply length_map].
assert (Hs : JS.truthyStr s = true).
{ destruct s; [|reflexivity]. subst inner. by vm_compute in Hinner. }
assert (Hall : List.filter JS.isFinite parts = parts).
{ clear -Hfin. induction Hfin as [|n l Hn _ IH]; simpl; [done|]. by rewrite Hn, IH. }
assert (Hne : parts ≠ []).
{ subst parts. destruct (JS.split ","%char inner) eqn:Hsplit; [|done].
  destruct inner; simpl in Hsplit; [done|]. destruct (Ascii.eqb _ _); [done|].
  by destruct (JS.split _ _). }
unfold parseVector. simpl JS.truthy. rewrite Hs. simpl negb. cbv iota.
fold inner. rewrite Hinner. simpl negb. cbv iota. fold parts. rewrite Hall.
by destruct parts.
Qed.

Lemma parseVector_other v :
  match v with JS.VArr _ | JS.VStr _ => False | _ => True end → parseVector v = None.
Proof. destruct v as [| | |[]| | |]; try done; unfold parseVector; simpl; by destruct (negb _). Qed.

Lemma toNumber_finite_numbers (qs : list Q) :
  List.map JS.toNumber (List.map (fun q => JS.VNum (JS.Fin q)) qs) = List.map JS.Fin qs.
Proof. induction qs as [|q qs IH]; simpl; [done|]. by rewrite IH. Qed.

End Embedding.

(** [parseVector] compares no length and filters no array: a value of
    three entries, one of them infinite, as the unit tests of the service hand
    it over in place of a row, comes back as it is.  (The column
    [vector(256)] holds no such value.) *)
Lemma findOrCreateProfile_short_infinite_embedding :
  let row := {| UsersService.external_user_id := "user-123";
                UsersService.preferred_genres := Some [];
                UsersService.disliked_genres := Some [];
                UsersService.last_active_at := 0;
                UsersService.profile_embedding :=
                  JS.VArr [JS.VNum (JS.Fin 1); JS.VNum JS.PosInf; JS.VNum (JS.Fin 3)] |} in
  profileEmbedding (fst (UsersService.findOrCreateProfile {[ "user-123" := row ]} 0 "user-123"))
  = Some [JS.Fin 1; JS.PosInf; JS.Fin 3]
  ∧ ¬ wellFormedEmbedding [JS.Fin 1; JS.PosInf; JS.Fin 3].
Proof.
  split; [vm_compute; reflexivity|]. intros [Hlen _]. simpl in Hlen. lia.
Qed.

(** What the services return for any stored value.  The profile
    [findOrCreateProfile] and [updatePreferences] return carries [parseVector]
    of the stored value (no embedding for a new profile).  That is: nothing
    when the value is neither an array nor a string; for an array, its entries
    converted by [Number], as many as stored and unfiltered; for a string,
    nothing or a non-empty list of finite numbers, at most one per
    comma-separated part. *)
Lemma profileEmbedding_is_parseVector
    (table : gmap string UsersService.ProfileRow) (now : Z) (externalUserId : string) :
  profileEmbedding (fst (UsersService.findOrCreateProfile table now externalUserId))
  = match table !! externalUserId with
    | Some row => UsersService.parseVector (UsersService.profile_embedding row)
    | None => None
    end
  ∧ (∀ preferred disliked,
       profileEmbedding
         (fst (UsersService.updatePreferences table now externalUserId preferred disliked))
       = match table !! externalUserId with
         | Some row => UsersService.parseVector (UsersService.profile_embedding row)
         | None => None
         end)
  ∧ (∀ l, UsersService.parseVector (JS.VArr l) = Some (List.map JS.toNumber l)
          ∧ length (List.map JS.toNumber l) = length l)
  ∧ (∀ s nums,
       UsersService.parseVector (JS.VStr s) = Some nums →
       nums ≠ [] ∧ Forall (fun n => JS.isFinite n = true) nums
       ∧ length nums
         ≤ length (JS.split ","%char
                     (JS.dropTrailing "]"%char (JS.dropLeading "["%char (JS.trim s)))))
  ∧ (∀ s, let inner := JS.dropTrailing "]"%char (JS.dropLeading "["%char (JS.trim s)) in
          let parts := List.map (fun p => JS.parseFloat (JS.trim p))
                         (JS.split ","%char inner) in
          JS.truthyStr inner = true → Forall (fun n => JS.isFinite n = true) parts →
          UsersService.parseVector (JS.VStr s) = Some parts
          ∧ length parts = length (JS.split ","%char inner)
          ∧ (length (JS.split ","%char inner) = 256 → wellFormedEmbedding parts))
  ∧ (∀ v, match v with JS.VArr _ | JS.VStr _ => False | _ => True end →
          UsersService.parseVector v = None)
  ∧ (∀ qs, length qs = 256 →
       ∃ e, UsersService.parseVector (JS.VArr (List.map (fun q => JS.VNum (JS.Fin q)) qs))
            = Some e
            ∧ wellFormedEmbedding e).
Proof.
  split; [|split; [|split; [|split; [|split; [|split]]]]].
  - unfold UsersService.findOrCreateProfile. by destruct (table !! externalUserId).
  - intros preferred disliked. unfold UsersService.updatePreferences,
      UsersService.findOrCreateProfile. by destruct (table !! externalUserId).
  - intros l. split; [apply parseVector_array|apply length_map].
  - apply parseVector_string.
  - intros s inner parts Hinner Hfin.
    destruct (parseVector_string_all_finite s Hinner Hfin) as [Hp Hlen].
    split; [exact Hp|]. split; [exact Hlen|]. intros H256. split; [|exact Hfin].
    etransitivity; [exact Hlen|exact H256].
  - apply parseVector_other.
  - intros qs Hlen. eexists. split; [apply parseVector_array|].
    rewrite toNumber_finite_numbers. split; [by rewrite length_map|].
    apply Forall_forall. intros x (q & -> & _)%list_elem_of_fmap. done.
Qed.

(** ** The context reranker *)

Section ClaimedScore.
Import RecommendationsService.

(** The score as the specification words it: a contribution counts
    whenever the feature is present in the bag, also when its value is [0]. *)
Definition claimedTerm (c : bool) (feat : option Q) (f : Q → Q) : Q :=
  if c then match feat with Some x => f x | None => 0%Q end else 0%Q.

Definition claimedScore (ctx : InteractionContext) (t : Track) : Q :=
  let e := feature t energy in
  let v := feature t valence in
  let d := feature t danceability in
  (claimedTerm (bool_decide (activity ctx = Some EXERCISE)) e (fun x => 10 * x)
   + claimedTerm (bool_decide (activity ctx = Some RELAX)) e (fun x => 8 * (1 - x))
   + claimedTerm (bool_decide (activity ctx = Some PARTY)) d (fun x => 10 * x)
   + claimedTerm (bool_decide (mood ctx = Some CALM)) e (fun x => 10 * (1 - x))
   + claimedTerm (bool_decide (mood ctx = Some ENERGETIC)) e (fun x => 10 * x)
   + claimedTerm (bool_decide (mood ctx = Some HAPPY)) v (fun x => 10 * x)
   + claimedTerm (bool_decide (mood ctx = Some SAD)) v (fun x => 10 * (1 - x)))%Q.

Definition calm : InteractionContext :=
  {| mood := Some CALM; activity := None; timeBucket := None |}.

Definition halfEnergy : Track := sampleTrack "T1" "A" "Pop" (Some (1 # 2)%Q).
Definition zeroEnergy : Track := sampleTrack "T2" "B" "Pop" (Some 0%Q).

End ClaimedScore.

Section ContextRank.
Import RecommendationsService.
Context {A : Type} (key : A → Q).

(** The comparator of a descending sort by [key]. *)
Definition descending (a b : A) : Q := (key b - key a)%Q.

Lemma insertSorted_perm (cmp : A → A → Q) x l : JS.insertSorted cmp x l ≡ₚ x :: l.
Proof.
induction l as [|y r IH]; simpl; [done|].
destruct (0 ?= cmp x y)%Q; try done.
rewrite IH. apply Permutation_swap.
Qed.

Lemma sort_perm (cmp : A → A → Q) l : JS.sort cmp l ≡ₚ l.
Proof.
induction l as [|x l IH]; simpl; [done|].
unfold JS.sort in *. simpl. by rewrite insertSorted_perm, IH.
Qed.

Lemma descending_Lt x y : (0 ?= descending x y)%Q = Lt ↔ (key x < key y)%Q.
Proof. rewrite <- Qlt_alt. unfold descending. split; intros; lra. Qed.

Lemma insertSorted_sorted x l :
StronglySorted (fun a b => (key b <= key a)%Q) l →
StronglySorted (fun a b => (key b <= key a)%Q) (JS.insertSorted descending x l).
Proof.
induction 1 as [|y r Hr IH Hy]; simpl.
- repeat constructor.
- destruct (0 ?= descending x y)%Q eqn:Hc.
+ constructor; [by constructor|]. constructor.
* apply Qnot_lt_le. rewrite <- descending_Lt. congruence.
* eapply Forall_impl; [exact Hy|]. simpl. intros z Hz.
assert (key y <= key x)%Q by (apply Qnot_lt_le; rewrite <- descending_Lt; congruence).
lra.
+ apply descending_Lt in Hc. constructor; [done|].
rewrite insertSorted_perm. constructor; [lra|done].
+ constructor; [by constructor|]. constructor.
* apply Qnot_lt_le. rewrite <- descending_Lt. congruence.
* eapply Forall_impl; [exact Hy|]. simpl. intros z Hz.
assert (key y <= key x)%Q by (apply Qnot_lt_le; rewrite <- descending_Lt; congruence).
lra.
Qed.

Lemma sort_sorted l :
StronglySorted (fun a b => (key b <= key a)%Q) (JS.sort descending l).
Proof.
induction l as [|x l IH]; [constructor|]. by apply insertSorted_sorted.
Qed.

(** Stability: the elements of one score stay in their original order. *)
Lemma insertSorted_stable (s : Q) x l :
List.filter (fun a => Qeq_bool (key a) s) (JS.insertSorted descending x l)
= List.filter (fun a => Qeq_bool (key a) s) (x :: l).
Proof.
induction l as [|y r IH]; [done|]. simpl JS.insertSorted.
destruct (0 ?= descending x y)%Q eqn:Hc; try done.
apply descending_Lt in Hc. simpl in *. rewrite IH.
destruct (Qeq_bool (key x) s) eqn:Hx, (Qeq_bool (key y) s) eqn:Hy; try done.
apply Qeq_bool_iff in Hx, Hy. lra.
Qed.

Lemma sort_stable (s : Q) l :
List.filter (fun a => Qeq_bool (key a) s) (JS.sort descending l)
= List.filter (fun a => Qeq_bool (key a) s) l.
Proof.
induction l as [|x l IH]; [done|].
change (JS.sort descending (x :: l)) with (JS.insertSorted descending x (JS.sort descending l)).
rewrite insertSorted_stable. simpl. by rewrite IH.
Qed.

End ContextRank.

(** *** Scores that the doubles of the code hold exactly

    The comparator of [rankByContext] computes in doubles, the model in
    rationals.  For a feature that is a multiple of 2^-40 between 0 and 1,
    every product, difference and sum the comparator forms is a multiple of
    2^-40 below 2^7, which a double holds exactly: on such tracks the rational
    score is the score of the code and the two orders agree.  On other
    features a score can be off by a rounding error, and two tracks whose
    scores tie in the rationals can be apart in the code. *)
Definition exactFeature (x : Q) : bool :=
Qle_bool 0 x && Qle_bool x 1
&& Qeq_bool (x * inject_Z (2 ^ 40)) (inject_Z (Qfloor (x * inject_Z (2 ^ 40)))).

Definition exactFeatures (t : Track) : Prop :=
∀ f, f ∈ [energy; valence; danceability] →
     ∀ x, RecommendationsService.feature t f = Some x → exactFeature x = true.

(** X3.  What [rankByContext] does compute: a permutation of the candidates
    and, on tracks whose features the doubles of the comparator hold exactly,
    a stable sort by the comparator's own score, descending. *)
Lemma rankByContext_stable_sort (tracks : list Track) (ctx : InteractionContext) :
RecommendationsService.rankByContext tracks ctx ≡ₚ tracks
∧ (Forall exactFeatures tracks →
   StronglySorted
     (fun a b => (RecommendationsService.contextScore ctx b
                  <= RecommendationsService.contextScore ctx a)%Q)
     (RecommendationsService.rankByContext tracks ctx)
   ∧ ∀ s, List.filter (fun t => Qeq_bool (RecommendationsService.contextScore ctx t) s)
            (RecommendationsService.rankByContext tracks ctx)
          = List.filter (fun t => Qeq_bool (RecommendationsService.contextScore ctx t) s) tracks).
Proof.
split; [apply sort_perm|]. intros _.
split; [apply (sort_sorted (RecommendationsService.contextScore ctx))|].
intros s. apply (sort_stable (RecommendationsService.contextScore ctx)).
Qed.

(** The steps between the store and the ML reorder keep the identifiers of
    the candidates distinct: the rows of the embedding search are rows of
    [tracks], whose [id] is the primary key. *)
Lemma candidate_steps_keep_ids_distinct (rows : list Track) :
NoDup (id <$> rows) →
(∀ keep : Track → bool, NoDup (id <$> List.filter keep rows))
∧ (∀ ctx, NoDup (id <$> RecommendationsService.rankByContext rows ctx))
∧ (∀ g, NoDup (id <$> RecommendationsService.applyInterestGraphFilters rows g)).
Proof.
intros Hnd.
assert (Hfilter : ∀ keep : Track → bool, NoDup (id <$> List.filter keep rows)).
{ intros keep. induction rows as [|t rows IH]; simpl; [done|].
rewrite fmap_cons in Hnd. apply NoDup_cons in Hnd as [Ht Hnd].
destruct (keep t); [|by apply IH]. rewrite fmap_cons. apply NoDup_cons. split; [|by apply IH].
intros (t' & Hid & Hin)%list_elem_of_fmap. apply Ht, list_elem_of_fmap. exists t'.
split; [done|]. apply list_elem_of_In in Hin. apply filter_In in Hin as [Hin _].
by apply list_elem_of_In. }
split; [exact Hfilter|]. split; [|intros g; apply Hfilter].
intros ctx. unfold RecommendationsService.rankByContext. by rewrite sort_perm.
Qed.

(** C4, at the failing input.  With mood [CALM], a track of energy 0 is
    owed [10 * (1 - 0) = 10] and a track of energy 1/2 is owed 5, so the
    first belongs before the second; the comparator tests the energy for
    truthiness, scores the track of energy 0 with 0, and leaves it last. *)
Theorem rankByContext_zero_energy_scores_nothing :
  RecommendationsService.rankByContext [halfEnergy; zeroEnergy] calm = [halfEnergy; zeroEnergy]
  ∧ (RecommendationsService.contextScore calm zeroEnergy == 0)%Q
  ∧ (RecommendationsService.contextScore calm halfEnergy == 5)%Q
  ∧ (claimedScore calm zeroEnergy == 10)%Q
  ∧ (claimedScore calm halfEnergy == 5)%Q.
Proof. repeat split. Qed.

(** ** The interest graph *)

Section Graph.
Import InterestGraphService.

(** One [LIKE] for artist A, one [DISLIKE] for artist B. *)
Definition likeAndDislike : list Row :=
  [ {| event_type := LIKE; row_artist := Some "A"; row_genre := Some "rock" |};
    {| event_type := DISLIKE; row_artist := Some "B"; row_genre := Some "pop" |} ].

End Graph.

Section GraphFacts.
Import InterestGraphService.

(** The normalized value of a raw score under the maximum [max]. *)
Definition normalized (max val : Z) : Q :=
if (max <=? 0)%Z then 0%Q else toFixed4 (inject_Z val / inject_Z max)%Q.

Lemma toFixed4_floor_nonneg x : (0 ≤ Qfloor (Qabs x * 10000 + (1 # 2)))%Z.
Proof.
assert (H : (0 <= Qabs x * 10000 + (1 # 2))%Q) by (pose proof (Qabs_nonneg x); lra).
apply Qfloor_resp_le in H. exact H.
Qed.

Lemma toFixed4_floor_le x : (0 <= x)%Q → (x <= 1)%Q → (Qfloor (Qabs x * 10000 + (1 # 2)) ≤ 10000)%Z.
Proof.
intros H0 H1.
assert (H : (Qabs x * 10000 + (1 # 2) <= 10000 + (1 # 2))%Q) by (rewrite Qabs_pos by done; lra).
apply Qfloor_resp_le in H. exact H.
Qed.

Lemma ratio_nonneg (n : Z) : (0 ≤ n)%Z → (0 <= inject_Z n / 10000)%Q.
Proof.
intros Hn. apply Qle_shift_div_l; [reflexivity|]. rewrite Qmult_0_l.
unfold Qle. simpl. lia.
Qed.

Lemma toFixed4_nonneg x : (0 <= x)%Q → (0 <= toFixed4 x)%Q.
Proof.
intros Hx. unfold toFixed4. rewrite (proj2 (Qle_bool_iff 0 x) Hx). rewrite Qred_correct.
apply ratio_nonneg, toFixed4_floor_nonneg.
Qed.

Lemma toFixed4_le_1 x : (x <= 1)%Q → (toFixed4 x <= 1)%Q.
Proof.
intros Hx. unfold toFixed4. destruct (Qle_bool 0 x) eqn:H0.
- apply Qle_bool_iff in H0. rewrite Qred_correct.
apply Qle_shift_div_r; [reflexivity|]. rewrite Qmult_1_l.
change 10000%Q with (inject_Z 10000). rewrite <- Zle_Qle. by apply toFixed4_floor_le.
- rewrite Qred_correct.
pose proof (ratio_nonneg _ (toFixed4_floor_nonneg x)) as Hr.
revert Hr. generalize (inject_Z (Qfloor (Qabs x * 10000 + (1 # 2))) / 10000)%Q. intros q Hq. lra.
Qed.

Lemma toFixed4_1 : toFixed4 1 = 1%Q.
Proof. reflexivity. Qed.

Lemma maxOf_ge vals v : v ∈ vals → (v ≤ maxOf vals)%Z.
Proof.
destruct vals as [|v0 r]; [by intros ?%elem_of_nil|]. simpl.
assert (Hfold : ∀ l a, (a ≤ foldl Z.max a l)%Z ∧ ∀ x, x ∈ l → (x ≤ foldl Z.max a l)%Z).
{ induction l as [|y l IH]; intros a; simpl.
- split; [lia|]. by intros ? ?%elem_of_nil.
- destruct (IH (Z.max a y)) as [H1 H2]. split; [lia|].
intros x [->|Hx]%elem_of_cons; [lia|auto]. }
destruct (Hfold r v0) as [H1 H2]. intros [->|Hin]%elem_of_cons; auto.
Qed.

Lemma maxOf_elem vals : vals ≠ [] → maxOf vals ∈ vals.
Proof.
destruct vals as [|v0 r]; [done|]. intros _. simpl.
assert (Hfold : ∀ l a, foldl Z.max a l = a ∨ foldl Z.max a l ∈ l).
{ induction l as [|y l IH]; intros a; simpl; [by left|].
destruct (IH (Z.max a y)) as [->|Hin].
- destruct (Z.max_spec a y) as [[_ ->]|[_ ->]]; [right; by left|by left].
- right. by right. }
destruct (Hfold r v0) as [->|Hin]; [by left|by right].
Qed.

Lemma assign_lookup (out : gmap string Q) k n key :
assign out k n !! key
= if bool_decide (k = key ∧ k ≠ "__proto__") then Some n else out !! key.
Proof.
unfold assign. destruct (String.eqb_spec k "__proto__") as [->|Hk].
- rewrite bool_decide_eq_false_2; [done|]. by intros [_ ?].
- destruct (decide (k = key)) as [->|Hne].
  + rewrite bool_decide_eq_true_2 by done. apply lookup_insert_eq.
  + rewrite bool_decide_eq_false_2 by (by intros [? _]). by apply lookup_insert_ne.
Qed.

Lemma assign_size (out : gmap string Q) k n : size (assign out k n) ≤ S (size out).
Proof.
unfold assign. destruct (String.eqb k "__proto__"); [lia|].
destruct (out !! k) eqn:E.
- rewrite map_size_insert_Some by done. lia.
- rewrite map_size_insert_None by done. lia.
Qed.

(** Each entry of the emitted map comes from an entry of the list. *)
Lemma normalize_foldl_lookup (max : Z) (sorted : list (string * Z)) (out : gmap string Q) key v :
foldl (fun out '(key, val) =>
         if (max <=? 0)%Z then assign out key 0%Q
         else assign out key (toFixed4 (inject_Z val / inject_Z max)%Q)) out sorted !! key = Some v →
(∃ raw, (key, raw) ∈ sorted ∧ v = normalized max raw) ∨ out !! key = Some v.
Proof.
revert out. induction sorted as [|[k0 v0] r IH]; intros out; simpl; [auto|].
intros [(raw & Hin & ->)|Hout]%IH.
- left. exists raw. split; [by right|done].
- assert (Hcase : assign out k0 (normalized max v0) !! key = Some v).
  { unfold normalized. by destruct (max <=? 0)%Z. }
  rewrite assign_lookup in Hcase. case_bool_decide as Hk.
  + destruct Hk as [-> _]. left. exists v0. split; [by left|congruence].
  + by right.
Qed.

Lemma normalize_foldl_size (max : Z) (sorted : list (string * Z)) (out : gmap string Q) :
size (foldl (fun out '(key, val) =>
               if (max <=? 0)%Z then assign out key 0%Q
               else assign out key (toFixed4 (inject_Z val / inject_Z max)%Q)) out sorted)
≤ size out + length sorted.
Proof.
revert out. induction sorted as [|[k0 v0] r IH]; intros out; simpl; [lia|].
etransitivity; [apply IH|].
destruct (max <=? 0)%Z.
- pose proof (assign_size out k0 0%Q). lia.
- pose proof (assign_size out k0 (toFixed4 (inject_Z v0 / inject_Z max))). lia.
Qed.

Lemma normalize_foldl_other (max : Z) (sorted : list (string * Z)) (out : gmap string Q) key :
key ∉ fst <$> sorted →
foldl (fun out '(key, val) =>
         if (max <=? 0)%Z then assign out key 0%Q
         else assign out key (toFixed4 (inject_Z val / inject_Z max)%Q)) out sorted !! key
= out !! key.
Proof.
revert out. induction sorted as [|[k0 v0] r IH]; intros out Hk; [done|].
rewrite fmap_cons in Hk. apply not_elem_of_cons in Hk as [Hne Hk]. simpl in *.
rewrite IH by done.
destruct (max <=? 0)%Z; rewrite assign_lookup;
  by rewrite bool_decide_eq_false_2 by (intros [? _]; congruence).
Qed.

(** The object never gets a property [__proto__]. *)
Lemma normalize_foldl_proto (max : Z) (sorted : list (string * Z)) (out : gmap string Q) :
out !! "__proto__" = None →
foldl (fun out '(key, val) =>
         if (max <=? 0)%Z then assign out key 0%Q
         else assign out key (toFixed4 (inject_Z val / inject_Z max)%Q)) out sorted
  !! "__proto__" = None.
Proof.
revert out. induction sorted as [|[k0 v0] r IH]; intros out Hout; [done|]. simpl.
apply IH. destruct (max <=? 0)%Z; rewrite assign_lookup;
  by rewrite bool_decide_eq_false_2 by (intros [-> ?]; congruence).
Qed.

(** With distinct keys every entry of the list is in the emitted map, but
    for the key [__proto__]. *)
Lemma normalize_foldl_complete (max : Z) (sorted : list (string * Z)) (out : gmap string Q)
  key raw :
NoDup (fst <$> sorted) → (key, raw) ∈ sorted → key ≠ "__proto__" →
foldl (fun out '(key, val) =>
         if (max <=? 0)%Z then assign out key 0%Q
         else assign out key (toFixed4 (inject_Z val / inject_Z max)%Q)) out sorted !! key
= Some (normalized max raw).
Proof.
revert out. induction sorted as [|[k0 v0] r IH]; intros out Hnd Hin Hkey;
  [by apply elem_of_nil in Hin|].
rewrite fmap_cons in Hnd. apply NoDup_cons in Hnd as [Hk0 Hnd]. simpl in *.
apply elem_of_cons in Hin as [[= -> ->]|Hin]; [|by apply IH].
rewrite normalize_foldl_other by done. unfold normalized.
destruct (max <=? 0)%Z; rewrite assign_lookup; by rewrite bool_decide_eq_true_2.
Qed.

(** *** Keys of a score map *)

Lemma mapSet_fst m k v :
fst <$> mapSet m k v = if bool_decide (k ∈ fst <$> m) then fst <$> m else (fst <$> m) ++ [k].
Proof.
induction m as [|[k' v'] r IH]; [done|]. simpl mapSet.
destruct (String.eqb_spec k' k) as [->|Hne]; rewrite !fmap_cons; simpl fst.
- rewrite bool_decide_eq_true_2; [done|by left].
- rewrite IH. case_bool_decide as Hin.
+ rewrite bool_decide_eq_true_2; [done|by right].
+ rewrite bool_decide_eq_false_2; [done|]. intros [?|?]%elem_of_cons; congruence.
Qed.

Lemma mapSet_NoDup m k v : NoDup (fst <$> m) → NoDup (fst <$> mapSet m k v).
Proof.
intros Hnd. rewrite mapSet_fst. case_bool_decide as Hin; [done|].
apply NoDup_app. repeat split; [done| |apply NoDup_singleton].
intros x Hx Heq%list_elem_of_singleton. by subst.
Qed.

Lemma bump_NoDup m key w : NoDup (fst <$> m) → NoDup (fst <$> bump m key w).
Proof. intros Hnd. unfold bump. destruct (JS.truthyOptStr key); [by apply mapSet_NoDup|done]. Qed.

Lemma accumulate_NoDup rows :
NoDup (fst <$> fst (accumulate rows)) ∧ NoDup (fst <$> snd (accumulate rows)).
Proof.
unfold accumulate.
assert (H : ∀ st : ScoreMap * ScoreMap,
          NoDup (fst <$> fst st) ∧ NoDup (fst <$> snd st) →
          NoDup (fst <$> fst (foldl (fun '(artistScore, genreScore) r =>
             let w := weights (event_type r) in
             (bump artistScore (row_artist r) w, bump genreScore (row_genre r) w)) st rows))
          ∧ NoDup (fst <$> snd (foldl (fun '(artistScore, genreScore) r =>
             let w := weights (event_type r) in
             (bump artistScore (row_artist r) w, bump genreScore (row_genre r) w)) st rows))).
{ induction rows as [|r rows IH]; intros [a g] [Ha Hg]; simpl; [done|].
apply IH. simpl. split; by apply bump_NoDup. }
apply H. simpl. split; apply NoDup_nil_2.
Qed.

Lemma negatives_fst_NoDup m : NoDup (fst <$> m) → NoDup (fst <$> negatives m).
Proof.
unfold negatives. induction m as [|[k v] r IH]; simpl; [done|].
rewrite NoDup_cons. intros [Hk Hnd]. destruct (v <? 0)%Z; simpl; [|by apply IH].
apply NoDup_cons. split; [|by apply IH].
intros ((k' & v') & Heq & Hin)%list_elem_of_fmap. simpl in Heq. rewrite Heq in Hk. clear Heq.
apply list_elem_of_In, in_map_iff in Hin as ((k2 & v2) & [= <- <-] & Hin).
apply filter_In in Hin as [Hin _]. apply Hk, list_elem_of_fmap.
exists (k2, v2). split; [done|]. by apply list_elem_of_In.
Qed.

Lemma negatives_elem m k v :
(k, v) ∈ negatives m ↔ ∃ raw, (k, raw) ∈ m ∧ (raw < 0)%Z ∧ v = Z.abs raw.
Proof.
unfold negatives. rewrite list_elem_of_In, in_map_iff. split.
- intros ((k' & raw) & [= <- <-] & Hin). apply filter_In in Hin as [Hin Hneg].
exists raw. rewrite list_elem_of_In. split; [done|]. split; [lia|done].
- intros (raw & Hin & Hneg & ->). exists (k, raw). split; [done|].
apply filter_In. rewrite <- list_elem_of_In. split; [done|]. lia.
Qed.

(** *** The emitted maps *)

(** The maximum [normalizeTop] divides by. *)
Definition topMax (m : ScoreMap) (k : nat) : Z :=
maxOf (List.map snd (take k (JS.sort (fun a b => inject_Z (snd b - snd a)) m))).

Lemma topEntries_elem (m : ScoreMap) (k : nat) e :
e ∈ take k (JS.sort (fun a b => inject_Z (snd b - snd a)) m) → e ∈ m.
Proof.
intros (i & Hi & _)%elem_of_take. apply list_elem_of_lookup_2 in Hi.
by rewrite sort_perm in Hi.
Qed.

Lemma topEntries_NoDup (m : ScoreMap) (k : nat) :
NoDup (fst <$> m) →
NoDup (fst <$> take k (JS.sort (fun a b => inject_Z (snd b - snd a)) m)).
Proof.
intros Hnd. rewrite fmap_take. eapply sublist_NoDup; [|apply sublist_take].
by rewrite sort_perm.
Qed.

Lemma normalizeTop_size (m : ScoreMap) (k : nat) : size (normalizeTop m k) ≤ k.
Proof.
unfold normalizeTop. etransitivity; [apply normalize_foldl_size|].
rewrite map_size_empty, length_take. lia.
Qed.

Lemma normalizeTop_no_proto (m : ScoreMap) (k : nat) : normalizeTop m k !! "__proto__" = None.
Proof. unfold normalizeTop. by apply normalize_foldl_proto. Qed.

Lemma normalizeTop_lookup (m : ScoreMap) (k : nat) key v :
normalizeTop m k !! key = Some v →
∃ raw, (key, raw) ∈ m ∧ v = normalized (topMax m k) raw ∧ (raw ≤ topMax m k)%Z.
Proof.
unfold normalizeTop. intros [(raw & Hin & ->)|Hout]%normalize_foldl_lookup;
  [|by rewrite lookup_empty in Hout].
exists raw. split; [by eapply topEntries_elem|]. split; [done|].
apply maxOf_ge. apply list_elem_of_In, in_map_iff. exists (key, raw).
by rewrite <- list_elem_of_In.
Qed.

Lemma normalized_le_1 max raw : (raw ≤ max)%Z → (normalized max raw <= 1)%Q.
Proof.
intros Hle. unfold normalized. destruct (Z.leb_spec max 0); [done|].
apply toFixed4_le_1. apply Qle_shift_div_r.
- change 0%Q with (inject_Z 0). by rewrite <- Zlt_Qlt.
- rewrite Qmult_1_l. by rewrite <- Zle_Qle.
Qed.

Lemma normalized_nonneg max raw : (0 ≤ raw)%Z → (0 <= normalized max raw)%Q.
Proof.
intros Hle. unfold normalized. destruct (Z.leb_spec max 0); [done|].
apply toFixed4_nonneg. apply Qle_shift_div_l.
- change 0%Q with (inject_Z 0). by rewrite <- Zlt_Qlt.
- rewrite Qmult_0_l. change 0%Q with (inject_Z 0). by rewrite <- Zle_Qle.
Qed.

Lemma normalized_max max : (0 < max)%Z → normalized max max = 1%Q.
Proof.
intros Hpos. unfold normalized. rewrite (proj2 (Z.leb_gt max 0)) by done.
assert (Hone : (inject_Z max / inject_Z max == 1)%Q).
{ apply Qmult_inv_r. intros H0. unfold Qeq in H0. simpl in H0. lia. }
unfold toFixed4. rewrite (proj2 (Qle_bool_iff 0 _)) by (rewrite Hone; done).
change 1%Q with (Qred (inject_Z 10000 / 10000)). apply Qred_complete.
rewrite Hone. reflexivity.
Qed.

(** The normalization law, for a map with distinct keys none of which is
    [__proto__]: when some entry is emitted, either the maximum is not positive
    and every value is [0], or the entry with the maximum has the value [1]. *)
Lemma normalizeTop_maximum (m : ScoreMap) (k : nat) :
NoDup (fst <$> m) → "__proto__" ∉ fst <$> m → m ≠ [] → 0 < k →
((topMax m k ≤ 0)%Z ∧ ∀ key v, normalizeTop m k !! key = Some v → v = 0%Q)
∨ ((0 < topMax m k)%Z ∧ ∃ key, normalizeTop m k !! key = Some 1%Q).
Proof.
intros Hnd Hproto Hne Hk. destruct (Z.leb_spec (topMax m k) 0) as [Hle|Hlt].
- left. split; [done|]. intros key v (raw & _ & -> & _)%normalizeTop_lookup.
  unfold normalized. by rewrite (proj2 (Z.leb_le _ _)).
- right. split; [done|].
  assert (Hin : topMax m k
                ∈ List.map snd (take k (JS.sort (fun a b => inject_Z (snd b - snd a)) m))).
  { apply maxOf_elem. intros Hnil. apply (f_equal length) in Hnil.
    rewrite length_map, length_take in Hnil. simpl in Hnil.
    assert (length (JS.sort (fun a b => inject_Z (snd b - snd a)) m) = length m)
      by (by rewrite sort_perm).
    destruct m; [done|]. simpl in *. lia. }
  apply list_elem_of_In, in_map_iff in Hin as ((key & raw) & Hraw & Hin). simpl in Hraw.
  exists key. unfold normalizeTop.
  rewrite (normalize_foldl_complete _ _ _ key raw).
  + fold (topMax m k). rewrite Hraw. by rewrite normalized_max.
  + by apply topEntries_NoDup.
  + by apply list_elem_of_In.
  + intros ->. apply Hproto, list_elem_of_fmap. exists ("__proto__", raw).
    split; [done|]. eapply topEntries_elem. by apply list_elem_of_In.
Qed.

End GraphFacts.

Section GraphInvariants.
Import InterestGraphService.

Lemma compute_maps rows graph :
compute rows = Some graph →
topArtists graph = normalizeTop (fst (accumulate rows)) 20
∧ topGenres graph = normalizeTop (snd (accumulate rows)) 20
∧ avoidArtists graph = normalizeTop (negatives (fst (accumulate rows))) 20
∧ avoidGenres graph = normalizeTop (negatives (snd (accumulate rows))) 20.
Proof.
unfold compute. destruct rows as [|r rows]; [done|].
destruct (accumulate (r :: rows)) as [a g]. by intros [= <-].
Qed.

Lemma normalizeTop_negatives_range (m : ScoreMap) key v :
normalizeTop (negatives m) 20 !! key = Some v →
(0 <= v <= 1)%Q ∧ ∃ raw, (key, raw) ∈ m ∧ (raw < 0)%Z.
Proof.
intros (a & Hin & -> & Hle)%normalizeTop_lookup.
apply negatives_elem in Hin as (raw & Hin & Hneg & ->).
split; [|by exists raw]. split; [apply normalized_nonneg; lia|by apply normalized_le_1].
Qed.

End GraphInvariants.

(** C6, at the failing input.  After one [LIKE] for artist A and one
    [DISLIKE] for artist B the raw scores are 2 and -2; [topArtists] divides
    both by the maximum 2 and holds [-1] for B, outside of [0, 1].  The avoid
    map holds B alone, with 1. *)
Theorem compute_top_map_negative_value :
  InterestGraphService.accumulate likeAndDislike
  = ([("A", 2%Z); ("B", (-2)%Z)], [("rock", 2%Z); ("pop", (-2)%Z)])
  ∧ ∃ graph,
      InterestGraphService.compute likeAndDislike = Some graph
      ∧ InterestGraphService.topArtists graph !! "A" = Some 1%Q
      ∧ InterestGraphService.topArtists graph !! "B" = Some (-1)%Q
      ∧ ¬ (0 <= -1)%Q
      ∧ map_to_list (InterestGraphService.avoidArtists graph) = [("B", 1%Q)].
Proof.
  split; [reflexivity|]. eexists. split; [reflexivity|].
  split; [vm_compute; reflexivity|]. split; [vm_compute; reflexivity|].
  split; [by vm_compute|]. vm_compute. reflexivity.
Qed.

(** ** The theorems at concrete inputs *)

Section Scenarios.
Import RecommendationsService.

(** S3: one [SKIP] of user u3 two seconds ago, and a second one now. *)
Definition trackA : string := "aaaaaaaa-aaaa-4aaa-8aaa-aaaaaaaaaaaa".
Definition trackB : string := "bbbbbbbb-bbbb-4bbb-8bbb-bbbbbbbbbbbb".

Definition oneSkipDb : InteractionsService.Db :=
  {| InteractionsService.trackIds := {[ trackA; trackB ]};
     InteractionsService.interactions :=
       [ {| InteractionsService.int_id := 0;
            InteractionsService.int_externalUserId := "u3";
            InteractionsService.int_trackId := trackA;
            InteractionsService.int_eventType := SKIP;
            InteractionsService.int_eventValue := None;
            InteractionsService.int_context := None;
            InteractionsService.int_createdAt := 0 |} ] |}.

(** The client writes the identifier of the second track in capitals. *)
Definition secondSkip : InteractionsService.InteractionEventInput :=
  {| InteractionsService.ev_trackId := "BBBBBBBB-BBBB-4BBB-8BBB-BBBBBBBBBBBB";
     InteractionsService.ev_eventType := SKIP;
     InteractionsService.ev_eventValue := None;
     InteractionsService.ev_context := None;
     InteractionsService.ev_clientTs := "2024-01-15T10:00:02Z" |}.

(** S5: a new user; the popular tracks start with four by one artist. *)
Definition coldProfile : UserProfile :=
  {| externalUserId := "u5"; preferredGenres := []; dislikedGenres := [];
     profileEmbedding := None |}.

Definition noStats : InteractionsService.Stats :=
  {| InteractionsService.totalInteractions := 0;
     InteractionsService.likeCount := 0;
     InteractionsService.skipCount := 0;
     InteractionsService.playCount := 0 |}.

Definition fourByOneArtist : list Track :=
  [sampleTrack "a1" "A" "Pop" None; sampleTrack "a2" "A" "Pop" None;
   sampleTrack "a3" "A" "Pop" None; sampleTrack "a4" "A" "Pop" None;
   sampleTrack "b1" "B" "Pop" None].

Definition coldBackend : Backend :=
  {| now := 0;
     findOrCreateProfile := fun _ => Ok coldProfile;
     getUserInteractionStats := fun _ => Ok noStats;
     popularByGenre := fun _ _ => notAsked;
     popularGlobal := fun _ => Ok fourByOneArtist;
     computeAndUpdateProfileEmbedding := fun _ => notAsked;
     getRecentlySkippedTrackIds := fun _ _ _ => notAsked;
     findUpdatedProfile := fun _ => notAsked;
     annByEmbedding := fun _ _ _ => notAsked;
     popularByGenreExcluding := fun _ _ _ => notAsked;
     interestGraphEnabled := true;
     getOrCompute := fun _ => notAsked;
     getRecentTrackSequenceFromDb := fun _ _ => notAsked;
     rerank := fun _ _ _ _ _ _ => None |}.

Definition diverseResponse : RecommendationResponse :=
  {| tracks := [sampleTrack "a1" "A" "Pop" None; sampleTrack "a2" "A" "Pop" None;
                sampleTrack "a3" "A" "Pop" None; sampleTrack "b1" "B" "Pop" None];
     context := None; generatedAt := 0 |}.

Definition filteredResponse : RecommendationResponse :=
  {| tracks := [sampleTrack "t2" "Y" "Pop" None]; context := None; generatedAt := 0 |}.

(** A cache that cannot be reached. *)
Definition cacheDown (userId : string) (w : unit) : Result () * unit :=
  (Throw (StoreError "ECONNREFUSED"), w).

Definition noPipeline (userId : string) (r : RecommendationRequest) (w : unit)
  : Result RecommendationResponse * unit := (Ok diverseResponse, w).

Definition noEmit (room event : string) (payload : RecommendationUpdateEvent) (w : unit)
  : Result () * unit := (Ok (), w).

Definition quietGateway : RecommendationGateway.State :=
  {| RecommendationGateway.world := (); RecommendationGateway.logs := [];
     RecommendationGateway.delivered := [] |}.

Definition threeCandidates : list Track :=
  [sampleTrack "1" "A" "Pop" None; sampleTrack "2" "B" "Pop" None;
   sampleTrack "3" "C" "Pop" None].

Definition rerankAnswer : list RerankResult :=
  [ {| trackId := "3"; score := 1%Q |}; {| trackId := "9"; score := 1%Q |};
    {| trackId := "3"; score := 1%Q |}; {| trackId := "1"; score := 1%Q |} ].

End Scenarios.

(** The seed scenarios S4 and S5 of the design, and cases of the unit
    tests of the services. *)

Example S4_context_rerank :
  List.map id
    (RecommendationsService.rankByContext
       [sampleTrack "T1" "A" "Pop" (Some (9 # 10)%Q);
        sampleTrack "T2" "B" "Pop" (Some (2 # 10)%Q);
        sampleTrack "T3" "C" "Pop" (Some (5 # 10)%Q)]
       {| mood := None; activity := Some EXERCISE; timeBucket := None |})
  = ["T1"; "T3"; "T2"].
Proof. reflexivity. Qed.

Example S5_diversity_cap :
  List.map id (RecommendationsService.applyDiversityRules fourByOneArtist)
  = ["a1"; "a2"; "a3"; "b1"].
Proof. reflexivity. Qed.

Example rerank_order :
  List.map id (RecommendationsService.reorderTracksByRerank threeCandidates rerankAnswer)
  = ["3"; "1"; "2"].
Proof. vm_compute. reflexivity. Qed.

Example parseVector_scientific_notation :
  UsersService.parseVector (JS.VStr "[1e-5, 2.5e3, -3.14e-2]")
  = Some [JS.Fin (1 # 100000); JS.Fin 2500; JS.Fin (-157 # 5000)].
Proof. vm_compute. reflexivity. Qed.

Example parseVector_whitespace :
  UsersService.parseVector (JS.VStr "  [ 1.0 , 2.0 , 3.0 ]  ")
  = Some [JS.Fin 1; JS.Fin 2; JS.Fin 3].
Proof. vm_compute. reflexivity. Qed.

Example parseVector_empty_brackets : UsersService.parseVector (JS.VStr "[]") = None.
Proof. reflexivity. Qed.

Example parseVector_array_of_strings :
  UsersService.parseVector (JS.VArr [JS.VStr "1"; JS.VStr "2"; JS.VStr "3"])
  = Some [JS.Fin 1; JS.Fin 2; JS.Fin 3].
Proof. vm_compute. reflexivity. Qed.

Example normalizeTop_rounds_to_four_places :
  InterestGraphService.normalizeTop [("Artist A", 6%Z); ("Artist B", 1%Z)] 20 !! "Artist B"
  = Some (1667 # 10000)%Q.
Proof. vm_compute. reflexivity. Qed.

(** The key of the cache does not hold the limit: a response stored for a
    larger limit answers a later request with a smaller one as it is. *)
Example cached_response_ignores_limit :
  fst (RecommendationsService.getRecommendations coldBackend
         {[ RecommendationsService.cacheKey "u5" None := diverseResponse ]} "u5"
         {| req_context := None; req_limit := Some 1%Z |})
  = Ok diverseResponse
  ∧ length (tracks diverseResponse) = 4.
Proof. split; [vm_compute; reflexivity|reflexivity]. Qed.

Example limit_parameter_cases :
  RecommendationsController.validate None None None None
  = Ok {| req_context := None; req_limit := Some 20%Z |}
  ∧ RecommendationsController.validate None None None (Some "50")
    = Ok {| req_context := None; req_limit := Some 50%Z |}
  ∧ RecommendationsController.validate None None None (Some "0")
    = Throw (ValidationError "limit")
  ∧ RecommendationsController.validate None None None (Some "abc")
    = Throw (ValidationError "limit")
  ∧ RecommendationsController.validate (Some "CALM") None None (Some "5")
    = Ok {| req_context := Some {| mood := Some CALM; activity := None; timeBucket := None |};
            req_limit := Some 5%Z |}.
Proof. vm_compute. repeat split. Qed.

(** S3: the second [SKIP] within two seconds triggers one refresh. *)
Lemma recordInteraction_refresh_iff_skip_burst_witness :
  InteractionsService.fitsVarchar255 "u3" = true
  ∧ InteractionsService.fitsInteger (InteractionsService.ev_eventValue secondSkip) = true
  ∧ InteractionsService.uuidIn (InteractionsService.ev_trackId secondSkip) = Some trackB
  ∧ trackB ∈ InteractionsService.trackIds oneSkipDb
  ∧ ∃ response calls db',
      InteractionsController.recordInteraction
        oneSkipDb (InteractionsService.seconds 2) (InteractionsService.seconds 2)
        true "u3" (Ok secondSkip) = Ok (response, calls, db')
      ∧ InteractionsController.refreshTriggered response = true
      ∧ filter (fun c => InteractionsController.isTrigger c = true) calls
        = [InteractionsController.TriggerRecommendationRefresh "u3" skip_detected].
Proof.
  assert (Hid : InteractionsService.uuidIn (InteractionsService.ev_trackId secondSkip)
                = Some trackB) by (vm_compute; reflexivity).
  assert (Hin : trackB ∈ InteractionsService.trackIds oneSkipDb)
    by (apply (bool_decide_unpack _); vm_compute; reflexivity).
  split; [reflexivity|]. split; [reflexivity|]. split; [exact Hid|]. split; [exact Hin|].
  destruct (recordInteraction_refresh_iff_skip_burst
              oneSkipDb (InteractionsService.seconds 2) (InteractionsService.seconds 2)
              true "u3" secondSkip trackB eq_refl eq_refl Hid Hin)
    as (response & calls & db' & Hrun & _ & Hrows & _ & _ & _ & Hiff & Hcount & Hcalls & _).
  assert (Htrig : InteractionsController.refreshTriggered response = true).
  { apply Hiff. split; [reflexivity|].
    rewrite Hcount; [|reflexivity|vm_compute; reflexivity].
    apply le_n_S. unfold oneSkipDb. cbn [InteractionsService.interactions].
    rewrite filter_cons, decide_True; [simpl; lia|].
    split; [reflexivity|]. split; [reflexivity|]. vm_compute. reflexivity. }
  exists response, calls, db'. split; [exact Hrun|]. split; [exact Htrig|].
  rewrite Hcalls, Htrig. reflexivity.
Defined.




(** The cache is down: the trigger returns, nothing is delivered. *)
Lemma triggerRecommendationRefresh_never_throws_witness :
  (∃ e w, cacheDown "u3" (RecommendationGateway.world quietGateway) = (Throw e, w))
  ∧ fst (RecommendationGateway.triggerRecommendationRefresh
           cacheDown noPipeline noEmit "u3" skip_detected quietGateway) = Ok ()
  ∧ RecommendationGateway.delivered
      (snd (RecommendationGateway.triggerRecommendationRefresh
              cacheDown noPipeline noEmit "u3" skip_detected quietGateway)) = [].
Proof.
  assert (Hdown : ∃ e w, cacheDown "u3" (RecommendationGateway.world quietGateway)
                         = (Throw e, w)) by (eexists _, _; reflexivity).
  split; [exact Hdown|].
  destruct (triggerRecommendationRefresh_never_throws
              cacheDown noPipeline noEmit "u3" skip_detected quietGateway)
    as (Hok & _ & Hsilent & _).
  split; [exact Hok|]. exact (Hsilent Hdown).
Defined.



(** Three candidates; the rerank result names 3, an unknown 9, 3 again, and 1. *)
Lemma reorderTracksByRerank_permutation_witness :
  NoDup (id <$> threeCandidates)
  ∧ RecommendationsService.reorderTracksByRerank threeCandidates rerankAnswer ≡ₚ threeCandidates.
Proof.
  assert (Hnd : NoDup (id <$> threeCandidates))
    by (apply (bool_decide_unpack _); vm_compute; reflexivity).
  split; [exact Hnd|].
  exact (proj1 (reorderTracksByRerank_permutation threeCandidates rerankAnswer Hnd)).
Defined.

(** * Further properties of the services *)

(** ** Artist diversity: what is kept *)

Section DiversityKeeps.
Import RecommendationsService.

Lemma countLeading_three_inv (a : string) (l : list Track) :
3 ≤ countLeading a l →
∃ x y z r, l = x :: y :: z :: r ∧ artist x = a ∧ artist y = a ∧ artist z = a.
Proof.
destruct l as [|x [|y [|z r]]]; simpl.
- lia.
- destruct (String.eqb_spec (artist x) a); lia.
- destruct (String.eqb_spec (artist x) a); [|lia].
destruct (String.eqb_spec (artist y) a); lia.
- destruct (String.eqb_spec (artist x) a); [|lia].
destruct (String.eqb_spec (artist y) a); [|lia].
destruct (String.eqb_spec (artist z) a); [|lia].
intros _. by exists x, y, z, r.
Qed.

Lemma noRun4_app_l (l1 l2 : list Track) : noRun4 (l1 ++ l2) → noRun4 l1.
Proof.
intros H i (t0 & t1 & t2 & t3 & H0 & H1 & H2 & H3 & Ha).
apply (H i). exists t0, t1, t2, t3.
repeat split; try tauto; by apply lookup_app_l_Some.
Qed.

(** A push that leaves the list free of runs of four is a push the loop
    makes. *)
Lemma noRun4_push_inv (result : list Track) (track : Track) :
noRun4 (result ++ [track]) →
getConsecutiveArtistCount result (artist track) < MAX_SAME_ARTIST_CONSECUTIVE.
Proof.
intros Hno. unfold MAX_SAME_ARTIST_CONSECUTIVE.
destruct (decide (getConsecutiveArtistCount result (artist track) < 3)) as [|Hge]; [done|].
exfalso. unfold getConsecutiveArtistCount in Hge.
destruct (countLeading_three_inv (artist track) (reverse result)) as (x & y & z & r & Hrev & Hx & Hy & Hz);
  [lia|].
assert (Hres : result = reverse r ++ [z; y; x]).
{ rewrite <- (reverse_involutive result), Hrev. rewrite !reverse_cons, <- !app_assoc. done. }
apply (Hno (length (reverse r))). exists z, y, x, track.
rewrite Hres, <- app_assoc. simpl.
repeat split; try congruence.
- rewrite lookup_app_r by lia. by replace (length (reverse r) - length (reverse r)) with 0 by lia.
- rewrite lookup_app_r by lia.
  by replace (length (reverse r) + 1 - length (reverse r)) with 1 by lia.
- rewrite lookup_app_r by lia.
  by replace (length (reverse r) + 2 - length (reverse r)) with 2 by lia.
- rewrite lookup_app_r by lia.
  by replace (length (reverse r) + 3 - length (reverse r)) with 3 by lia.
Qed.

Lemma diversity_foldl_keeps (tracks : list Track) (st : list Track * gmap string nat) :
noRun4 (fst st ++ tracks) → fst (foldl diversityStep st tracks) = fst st ++ tracks.
Proof.
revert st. induction tracks as [|t tracks IH]; intros st Hno; simpl.
- by rewrite app_nil_r.
- assert (Hpush : noRun4 (fst st ++ [t])).
{ apply (noRun4_app_l _ tracks). by rewrite <- app_assoc. }
apply noRun4_push_inv in Hpush.
destruct (diversityStep_spec st t) as [[_ Hge]|[Heq _]]; [lia|].
rewrite IH; rewrite Heq, <- app_assoc; done.
Qed.

End DiversityKeeps.

(** X1.  [applyDiversityRules] returns its input unchanged exactly when the
    input has no four neighbouring tracks by one artist: it drops nothing it
    need not drop.  Applying it a second time changes nothing. *)
Theorem applyDiversityRules_fixed_point :
(∀ tracks : list Track,
    RecommendationsService.applyDiversityRules tracks = tracks ↔ noRun4 tracks)
∧ (∀ tracks : list Track,
    RecommendationsService.applyDiversityRules
      (RecommendationsService.applyDiversityRules tracks)
    = RecommendationsService.applyDiversityRules tracks).
Proof.
assert (Hfix : ∀ tracks : list Track,
          noRun4 tracks → RecommendationsService.applyDiversityRules tracks = tracks).
{ intros tracks Hno. unfold RecommendationsService.applyDiversityRules.
  by rewrite diversity_foldl_keeps. }
split.
- intros tracks. split; [|apply Hfix].
  intros <-. apply applyDiversityRules_noRun4.
- intros tracks. apply Hfix, applyDiversityRules_noRun4.
Qed.

(** ** The context reranker: lists it leaves alone *)

Section RankKeeps.
Import RecommendationsService.

Lemma insertSorted_head {A : Type} (key : A → Q) (x : A) (l : list A) :
Forall (fun y => (key y <= key x)%Q) l → JS.insertSorted (descending key) x l = x :: l.
Proof.
destruct l as [|y r]; [done|]. intros Hall. apply Forall_cons in Hall as [Hy _]. simpl.
destruct (0 ?= descending key x y)%Q eqn:Hc; try done.
apply descending_Lt in Hc. lra.
Qed.

Lemma sort_sorted_id {A : Type} (key : A → Q) (l : list A) :
StronglySorted (fun a b => (key b <= key a)%Q) l → JS.sort (descending key) l = l.
Proof.
induction 1 as [|x l Hl IH Hx]; [done|].
change (JS.sort (descending key) (x :: l))
  with (JS.insertSorted (descending key) x (JS.sort (descending key) l)).
rewrite IH. by apply insertSorted_head.
Qed.

(** A context without mood whose activity is absent or [WORK]. *)
Definition neutralContext (ctx : InteractionContext) : Prop :=
mood ctx = None ∧ (activity ctx = None ∨ activity ctx = Some WORK).

Lemma contextScore_neutral ctx t : neutralContext ctx → contextScore ctx t = 0%Q.
Proof.
intros [Hm Ha]. unfold contextScore. rewrite Hm. by destruct Ha as [-> | ->].
Qed.

End RankKeeps.

(** X2.  On tracks whose features the doubles of the comparator hold
    exactly, [rankByContext] leaves a list alone when it is already in
    descending order of score, so ranking twice is ranking once.  On any
    tracks, a context made of a time bucket, of the activity [WORK] or of
    nothing reorders no list at all: every score is 0. *)
Theorem rankByContext_keeps_sorted (tracks : list Track) (ctx : InteractionContext) :
(Forall exactFeatures tracks →
 StronglySorted
   (fun a b => (RecommendationsService.contextScore ctx b
                <= RecommendationsService.contextScore ctx a)%Q) tracks →
 RecommendationsService.rankByContext tracks ctx = tracks)
∧ (Forall exactFeatures tracks →
   RecommendationsService.rankByContext (RecommendationsService.rankByContext tracks ctx) ctx
   = RecommendationsService.rankByContext tracks ctx)
∧ (neutralContext ctx → RecommendationsService.rankByContext tracks ctx = tracks).
Proof.
split; [intros _; apply (sort_sorted_id (RecommendationsService.contextScore ctx))|]. split.
- intros _. apply (sort_sorted_id (RecommendationsService.contextScore ctx)).
  apply (sort_sorted (RecommendationsService.contextScore ctx)).
- intros Hn. apply (sort_sorted_id (RecommendationsService.contextScore ctx)).
  induction tracks as [|t r IH]; constructor; [done|].
  apply Forall_forall. intros y _. by rewrite !contextScore_neutral.
Qed.

(** ** The interest graph: what the scores are *)

Section GraphScores.
Import InterestGraphService.

(** The sum of the weights of the rows whose artist (or genre) is [key]. *)
Definition weightSum (proj : Row → option string) (key : string) (rows : list Row) : Z :=
foldr (fun r acc => if bool_decide (proj r = Some key) then (weights (event_type r) + acc)%Z else acc)
      0%Z rows.

Definition occurs (proj : Row → option string) (key : string) (rows : list Row) : bool :=
existsb (fun r => bool_decide (proj r = Some key)) rows.

Lemma mapGet_mapSet_eq m k v : mapGet (mapSet m k v) k = Some v.
Proof.
induction m as [|[k' v'] r IH]; simpl.
- by rewrite String.eqb_refl.
- destruct (String.eqb_spec k' k) as [->|Hne]; simpl.
+ by rewrite String.eqb_refl.
+ destruct (String.eqb_spec k' k); [done|]. exact IH.
Qed.

Lemma mapGet_mapSet_ne m k k0 v : k ≠ k0 → mapGet (mapSet m k v) k0 = mapGet m k0.
Proof.
intros Hne. induction m as [|[k' v'] r IH]; simpl.
- destruct (String.eqb_spec k k0); [done|done].
- destruct (String.eqb_spec k' k) as [->|Hne']; simpl.
+ destruct (String.eqb_spec k k0); [done|done].
+ destruct (String.eqb_spec k' k0); [done|]. exact IH.
Qed.

Lemma mapGet_elem m k v : mapGet m k = Some v → (k, v) ∈ m.
Proof.
induction m as [|[k' v'] r IH]; simpl; [done|].
destruct (String.eqb_spec k' k) as [->|Hne].
- intros [= ->]. by left.
- intros H. right. by apply IH.
Qed.

Lemma elem_mapGet m k v : NoDup (fst <$> m) → (k, v) ∈ m → mapGet m k = Some v.
Proof.
induction m as [|[k' v'] r IH]; [by intros _ ?%elem_of_nil|].
rewrite fmap_cons, NoDup_cons. intros [Hk Hnd] [[= -> ->]|Hin]%elem_of_cons; simpl.
- by rewrite String.eqb_refl.
- destruct (String.eqb_spec k' k) as [->|Hne]; [|by apply IH].
destruct Hk. apply list_elem_of_fmap. by exists (k, v).
Qed.

Lemma mapGet_bump m (o : option string) w key :
JS.truthyStr key = true →
mapGet (bump m o w) key
= if bool_decide (o = Some key) then Some (default 0%Z (mapGet m key) + w)%Z else mapGet m key.
Proof.
intros Hkey. unfold bump. case_bool_decide as Ho.
- subst o. simpl. rewrite Hkey. apply mapGet_mapSet_eq.
- destruct o as [k|]; simpl; [|done]. destruct (JS.truthyStr k); [|done].
apply mapGet_mapSet_ne. congruence.
Qed.

Lemma mapGet_bump_falsy m (o : option string) w key :
JS.truthyStr key = false → mapGet m key = None → mapGet (bump m o w) key = None.
Proof.
intros Hkey Hm. unfold bump. destruct o as [k|]; simpl; [|done].
destruct (JS.truthyStr k) eqn:Hk; [|done].
rewrite mapGet_mapSet_ne; [done|]. intros ->. congruence.
Qed.

(** The score a map holds for [key] after the loop has run over [rows],
    the map holding [init] before. *)
Definition scoreAfter (proj : Row → option string) (key : string) (init : option Z)
  (rows : list Row) : option Z :=
if occurs proj key rows then Some (default 0%Z init + weightSum proj key rows)%Z else init.

Lemma weightSum_absent proj key rows : occurs proj key rows = false → weightSum proj key rows = 0%Z.
Proof.
induction rows as [|r rows IH]; [done|]. unfold occurs in *. simpl.
case_bool_decide; simpl; [done|]. exact IH.
Qed.

Lemma accumulate_foldl_get rows (a g : ScoreMap) key :
JS.truthyStr key = true →
mapGet (fst (foldl (fun '(artistScore, genreScore) r =>
                      let w := weights (event_type r) in
                      (bump artistScore (row_artist r) w, bump genreScore (row_genre r) w))
                   (a, g) rows)) key
= scoreAfter row_artist key (mapGet a key) rows
∧ mapGet (snd (foldl (fun '(artistScore, genreScore) r =>
                        let w := weights (event_type r) in
                        (bump artistScore (row_artist r) w, bump genreScore (row_genre r) w))
                     (a, g) rows)) key
  = scoreAfter row_genre key (mapGet g key) rows.
Proof.
intros Hkey. revert a g. induction rows as [|r rows IH]; intros a g; [done|].
destruct (IH (bump a (row_artist r) (weights (event_type r)))
             (bump g (row_genre r) (weights (event_type r)))) as [E1 E2].
split.
- etransitivity; [exact E1|]. rewrite mapGet_bump by done. unfold scoreAfter, occurs. simpl.
  case_bool_decide; simpl; [|done].
  destruct (existsb _ rows) eqn:Hex; simpl; f_equal; [lia|].
  apply weightSum_absent in Hex. lia.
- etransitivity; [exact E2|]. rewrite mapGet_bump by done. unfold scoreAfter, occurs. simpl.
  case_bool_decide; simpl; [|done].
  destruct (existsb _ rows) eqn:Hex; simpl; f_equal; [lia|].
  apply weightSum_absent in Hex. lia.
Qed.

Lemma accumulate_foldl_falsy rows (a g : ScoreMap) key :
JS.truthyStr key = false → mapGet a key = None → mapGet g key = None →
mapGet (fst (foldl (fun '(artistScore, genreScore) r =>
                      let w := weights (event_type r) in
                      (bump artistScore (row_artist r) w, bump genreScore (row_genre r) w))
                   (a, g) rows)) key = None
∧ mapGet (snd (foldl (fun '(artistScore, genreScore) r =>
                        let w := weights (event_type r) in
                        (bump artistScore (row_artist r) w, bump genreScore (row_genre r) w))
                     (a, g) rows)) key = None.
Proof.
intros Hkey. revert a g. induction rows as [|r rows IH]; intros a g Ha Hg; [done|].
apply (IH (bump a (row_artist r) (weights (event_type r)))
          (bump g (row_genre r) (weights (event_type r)))); by apply mapGet_bump_falsy.
Qed.

End GraphScores.

(** X5.  The score [compute] accumulates for an artist (for a genre) is the
    sum of the weights of the rows of that artist (genre), LIKE 2, PLAY 1,
    SKIP -1, DISLIKE -2, whatever the order of the rows among those of other
    artists; an artist no row names has no score, and rows with an empty or
    absent artist add to nothing. *)
Theorem accumulate_is_weight_sum (rows : list InterestGraphService.Row) (key : string) :
(JS.truthyStr key = true →
 InterestGraphService.mapGet (fst (InterestGraphService.accumulate rows)) key
 = (if occurs InterestGraphService.row_artist key rows
    then Some (weightSum InterestGraphService.row_artist key rows) else None)
 ∧ InterestGraphService.mapGet (snd (InterestGraphService.accumulate rows)) key
   = (if occurs InterestGraphService.row_genre key rows
      then Some (weightSum InterestGraphService.row_genre key rows) else None))
∧ (JS.truthyStr key = false →
   InterestGraphService.mapGet (fst (InterestGraphService.accumulate rows)) key = None
   ∧ InterestGraphService.mapGet (snd (InterestGraphService.accumulate rows)) key = None).
Proof.
split.
- intros Hkey. destruct (accumulate_foldl_get rows [] [] key Hkey) as [E1 E2].
  split; (etransitivity; [first [exact E1|exact E2]|]);
    unfold scoreAfter; simpl; by destruct (occurs _ _ _).
- intros Hkey. by apply (accumulate_foldl_falsy rows [] [] key).
Qed.

(** ** The interest graph: what the maps hold *)

Section GraphKeys.
Import InterestGraphService.

(** A key of the accumulated scores is the artist (the genre) of a row. *)
Lemma accumulate_keys rows key :
JS.truthyStr key = true →
(key ∈ fst <$> fst (accumulate rows) → ∃ r, r ∈ rows ∧ row_artist r = Some key)
∧ (key ∈ fst <$> snd (accumulate rows) → ∃ r, r ∈ rows ∧ row_genre r = Some key).
Proof.
intros Hkey. destruct (accumulate_NoDup rows) as [Hna Hng].
destruct (accumulate_foldl_get rows [] [] key Hkey) as [Ea Eg].
change (mapGet (fst (accumulate rows)) key
        = if occurs row_artist key rows
          then Some (0 + weightSum row_artist key rows)%Z else None) in Ea.
change (mapGet (snd (accumulate rows)) key
        = if occurs row_genre key rows
          then Some (0 + weightSum row_genre key rows)%Z else None) in Eg.
assert (Hocc : ∀ proj, occurs proj key rows = true → ∃ r, r ∈ rows ∧ proj r = Some key).
{ intros proj (r & Hr & Hp)%existsb_exists. exists r.
  split; [by apply list_elem_of_In|]. by apply bool_decide_eq_true in Hp. }
split.
- intros ((k & v) & Hk & Hin)%list_elem_of_fmap. simpl in Hk. subst k.
  apply elem_mapGet in Hin; [|done]. rewrite Hin in Ea.
  apply Hocc. by destruct (occurs row_artist key rows).
- intros ((k & v) & Hk & Hin)%list_elem_of_fmap. simpl in Hk. subst k.
  apply elem_mapGet in Hin; [|done]. rewrite Hin in Eg.
  apply Hocc. by destruct (occurs row_genre key rows).
Qed.

Lemma negatives_keys (m : ScoreMap) key : key ∈ fst <$> negatives m → key ∈ fst <$> m.
Proof.
intros ((k & v) & -> & Hin)%list_elem_of_fmap. apply negatives_elem in Hin as (raw & Hin & _).
apply list_elem_of_fmap. by exists (k, raw).
Qed.

(** The normalization law of one emitted map. *)
Lemma normalizeTop_law (s : ScoreMap) :
NoDup (fst <$> s) → "__proto__" ∉ fst <$> s →
normalizeTop s 20 = ∅
∨ (∀ key v, normalizeTop s 20 !! key = Some v → v = 0%Q)
∨ (∃ key, normalizeTop s 20 !! key = Some 1%Q).
Proof.
intros Hs Hp. destruct s as [|e s]; [by left|]. right.
destruct (normalizeTop_maximum (e :: s) 20 Hs Hp) as [[_ H0]|[_ H1]];
  [done|lia|by left|by right].
Qed.

End GraphKeys.

(** X4.  What [compute] does guarantee: every map has at most 20 entries, no
    value above 1 and no key [__proto__] (the maps are plain objects); the
    avoid maps hold values of [0, 1] under keys whose accumulated score is
    negative; and when no row names an artist [__proto__], the two artist maps
    are each empty, all 0, or hold the value 1 somewhere; likewise the two
    genre maps when no row names a genre [__proto__]. *)
Lemma compute_invariants (rows : list InterestGraphService.Row)
  (graph : InterestGraphService.Graph) :
InterestGraphService.compute rows = Some graph →
(size (InterestGraphService.topArtists graph) ≤ 20
 ∧ size (InterestGraphService.topGenres graph) ≤ 20
 ∧ size (InterestGraphService.avoidArtists graph) ≤ 20
 ∧ size (InterestGraphService.avoidGenres graph) ≤ 20)
∧ (∀ key v, InterestGraphService.topArtists graph !! key = Some v → (v <= 1)%Q)
∧ (∀ key v, InterestGraphService.topGenres graph !! key = Some v → (v <= 1)%Q)
∧ (∀ key v, InterestGraphService.avoidArtists graph !! key = Some v →
     (0 <= v <= 1)%Q
     ∧ ∃ raw, (key, raw) ∈ fst (InterestGraphService.accumulate rows) ∧ (raw < 0)%Z)
∧ (∀ key v, InterestGraphService.avoidGenres graph !! key = Some v →
     (0 <= v <= 1)%Q
     ∧ ∃ raw, (key, raw) ∈ snd (InterestGraphService.accumulate rows) ∧ (raw < 0)%Z)
∧ (∀ m, m ∈ [InterestGraphService.topArtists graph; InterestGraphService.topGenres graph;
             InterestGraphService.avoidArtists graph; InterestGraphService.avoidGenres graph] →
     m !! "__proto__" = None)
∧ ((∀ r, r ∈ rows → InterestGraphService.row_artist r ≠ Some "__proto__") →
   ∀ m, m ∈ [InterestGraphService.topArtists graph; InterestGraphService.avoidArtists graph] →
     m = ∅ ∨ (∀ key v, m !! key = Some v → v = 0%Q) ∨ (∃ key, m !! key = Some 1%Q))
∧ ((∀ r, r ∈ rows → InterestGraphService.row_genre r ≠ Some "__proto__") →
   ∀ m, m ∈ [InterestGraphService.topGenres graph; InterestGraphService.avoidGenres graph] →
     m = ∅ ∨ (∀ key v, m !! key = Some v → v = 0%Q) ∨ (∃ key, m !! key = Some 1%Q)).
Proof.
intros (Hta & Htg & Haa & Hag)%compute_maps. rewrite Hta, Htg, Haa, Hag.
destruct (accumulate_NoDup rows) as [Hna Hng].
destruct (accumulate_keys rows "__proto__" eq_refl) as [Hka Hkg].
split; [repeat split; apply normalizeTop_size|].
split. { intros key v (raw & _ & -> & Hle)%normalizeTop_lookup. by apply normalized_le_1. }
split. { intros key v (raw & _ & -> & Hle)%normalizeTop_lookup. by apply normalized_le_1. }
split; [apply normalizeTop_negatives_range|]. split; [apply normalizeTop_negatives_range|].
split.
{ intros m Hm. repeat (apply elem_of_cons in Hm as [->|Hm]); [..|by apply elem_of_nil in Hm];
    apply normalizeTop_no_proto. }
split.
- intros Hrows m Hm.
  assert (Hp : "__proto__" ∉ fst <$> fst (InterestGraphService.accumulate rows)).
  { intros (r & Hr & Hart)%Hka. by apply (Hrows r). }
  repeat (apply elem_of_cons in Hm as [->|Hm]); [..|by apply elem_of_nil in Hm];
    apply normalizeTop_law; auto using negatives_fst_NoDup.
  intros Hin%negatives_keys. by apply Hp.
- intros Hrows m Hm.
  assert (Hp : "__proto__" ∉ fst <$> snd (InterestGraphService.accumulate rows)).
  { intros (r & Hr & Hart)%Hkg. by apply (Hrows r). }
  repeat (apply elem_of_cons in Hm as [->|Hm]); [..|by apply elem_of_nil in Hm];
    apply normalizeTop_law; auto using negatives_fst_NoDup.
  intros Hin%negatives_keys. by apply Hp.
Qed.

(** ** From the interest graph to the filter *)

Section GraphToFilter.
Import InterestGraphService.

Lemma topEntries_all (m : ScoreMap) :
length m ≤ 20 → take 20 (JS.sort (fun a b => inject_Z (snd b - snd a)) m)
                ≡ₚ m.
Proof.
intros Hlen. rewrite take_ge; [apply sort_perm|].
by rewrite (Permutation_length (sort_perm _ m)).
Qed.

Lemma normalizeTop_small_lookup (m : ScoreMap) key raw :
NoDup (fst <$> m) → length m ≤ 20 → (key, raw) ∈ m → key ≠ "__proto__" →
normalizeTop m 20 !! key = Some (normalized (topMax m 20) raw)
∧ (raw ≤ topMax m 20)%Z.
Proof.
intros Hnd Hlen Hin Hkey.
assert (Hin' : (key, raw) ∈ take 20 (JS.sort (fun a b => inject_Z (snd b - snd a)) m))
  by (by rewrite topEntries_all).
split.
- unfold normalizeTop. apply normalize_foldl_complete; [by apply topEntries_NoDup|done|done].
- apply maxOf_ge. apply list_elem_of_In, in_map_iff. exists (key, raw).
  by rewrite <- list_elem_of_In.
Qed.

Lemma topMax_elem (m : ScoreMap) :
m ≠ [] → ∃ key, (key, topMax m 20) ∈ m.
Proof.
intros Hne.
assert (Hin : topMax m 20
              ∈ List.map snd (take 20 (JS.sort (fun a b => inject_Z (snd b - snd a)) m))).
{ apply maxOf_elem. intros Hnil. apply (f_equal length) in Hnil.
  rewrite length_map, length_take in Hnil. simpl in Hnil.
  rewrite (Permutation_length (sort_perm _ m)) in Hnil.
  destruct m; [done|]. simpl in Hnil. lia. }
apply list_elem_of_In, in_map_iff in Hin as ((key & raw) & Hraw & Hin). simpl in Hraw. subst raw.
exists key. apply list_elem_of_In in Hin. by eapply topEntries_elem.
Qed.

End GraphToFilter.

(** X6.  When at most 20 artists have a negative score, every one of them
    whose name is not [__proto__] is in [avoidArtists], with a value in
    [0, 1]; if such an artist has the lowest score of all, its value is 1, so
    that [applyInterestGraphFilters] with the computed graph removes every
    track of that artist.  An artist named [__proto__] is never in the map,
    whatever its score: the map is a plain object. *)
Theorem most_disliked_artist_is_filtered
  (rows : list InterestGraphService.Row) (graph : InterestGraphService.Graph)
  (key : string) (raw : Z) :
InterestGraphService.compute rows = Some graph →
length (InterestGraphService.negatives (fst (InterestGraphService.accumulate rows))) ≤ 20 →
InterestGraphService.mapGet (fst (InterestGraphService.accumulate rows)) key = Some raw →
(raw < 0)%Z →
key ≠ "__proto__" →
(∃ v, InterestGraphService.avoidArtists graph !! key = Some v ∧ (0 <= v <= 1)%Q)
∧ ((∀ k r, InterestGraphService.mapGet (fst (InterestGraphService.accumulate rows)) k = Some r →
           (raw ≤ r)%Z) →
   InterestGraphService.avoidArtists graph !! key = Some 1%Q
   ∧ ∀ tracks t,
       t ∈ RecommendationsService.applyInterestGraphFilters tracks graph → artist t ≠ key)
∧ InterestGraphService.avoidArtists graph !! "__proto__" = None.
Proof.
intros (_ & _ & Haa & _)%compute_maps Hlen Hget Hneg Hkey. rewrite Haa.
destruct (accumulate_NoDup rows) as [Hnd _].
set (S := fst (InterestGraphService.accumulate rows)) in *.
assert (Hin : (key, Z.abs raw) ∈ InterestGraphService.negatives S).
{ apply negatives_elem. exists raw. split; [by apply mapGet_elem|done]. }
destruct (normalizeTop_small_lookup (InterestGraphService.negatives S) key (Z.abs raw))
  as [Hlook Hle]; [by apply negatives_fst_NoDup|done|done|done|].
split; [|split; [|apply normalizeTop_no_proto]].
- eexists. split; [exact Hlook|]. split; [apply normalized_nonneg; lia|by apply normalized_le_1].
- intros Hmin.
  assert (Hmax : topMax (InterestGraphService.negatives S) 20 = Z.abs raw).
  { destruct (topMax_elem (InterestGraphService.negatives S)) as [k Hk].
    { intros Hnil. rewrite Hnil in Hin. by apply elem_of_nil in Hin. }
    apply negatives_elem in Hk as (r & Hr & Hrneg & Habs).
    apply elem_mapGet in Hr; [|done]. specialize (Hmin k r Hr). lia. }
  assert (Hone : InterestGraphService.normalizeTop (InterestGraphService.negatives S) 20 !! key
                 = Some 1%Q).
  { rewrite Hlook, Hmax. f_equal. apply normalized_max. lia. }
  split; [exact Hone|]. intros tracks t Ht Hart.
  apply list_elem_of_In, applyInterestGraphFilters_spec in Ht as [_ [Hav _]].
  rewrite Hart, Haa in Hav. specialize (Hav 1%Q Hone). by vm_compute in Hav.
Qed.

(** After one [LIKE] for A and one [DISLIKE] for B, tracks by B are removed. *)
Lemma most_disliked_artist_is_filtered_witness :
InterestGraphService.compute likeAndDislike
= Some {| InterestGraphService.version := 1;
          InterestGraphService.generatedBy := "heuristic";
          InterestGraphService.windowDays := 90;
          InterestGraphService.topArtists :=
            InterestGraphService.normalizeTop [("A", 2%Z); ("B", (-2)%Z)] 20;
          InterestGraphService.topGenres :=
            InterestGraphService.normalizeTop [("rock", 2%Z); ("pop", (-2)%Z)] 20;
          InterestGraphService.avoidArtists :=
            InterestGraphService.normalizeTop [("B", 2%Z)] 20;
          InterestGraphService.avoidGenres :=
            InterestGraphService.normalizeTop [("pop", 2%Z)] 20 |}
∧ InterestGraphService.mapGet (fst (InterestGraphService.accumulate likeAndDislike)) "B"
  = Some (-2)%Z
∧ InterestGraphService.normalizeTop [("B", 2%Z)] 20 !! "B" = Some 1%Q.
Proof.
split; [reflexivity|]. split; [reflexivity|].
refine (proj1 (proj1 (proj2 (most_disliked_artist_is_filtered likeAndDislike _ "B" (-2)%Z
                               eq_refl _ eq_refl _ _)) _)).
- vm_compute. lia.
- lia.
- discriminate.
- intros k r H.
  change (fst (InterestGraphService.accumulate likeAndDislike))
    with [("A", 2%Z); ("B", (-2)%Z)] in H. cbn [InterestGraphService.mapGet] in H.
  destruct (String.eqb "A" k); [assert (r = 2%Z) by congruence; lia|].
  destruct (String.eqb "B" k); [assert (r = (-2)%Z) by congruence; lia|discriminate].
Defined.

(** ** The session registry of the gateway *)



Section Sessions.
Import GatewaySessions.

(** No user is registered with an empty set of sockets. *)
Definition registryOk (userSockets : gmap string (gset string)) : Prop :=
∀ u s, userSockets !! u = Some s → s ≠ ∅.

Lemma handleConnection_lookup reg c u :
handshake_userId c = Some u → JS.truthyStr u = true →
fst (handleConnection reg c) !! u = Some ({[sock_id c]} ∪ default ∅ (reg !! u))
∧ ∀ u', u' ≠ u → fst (handleConnection reg c) !! u' = reg !! u'.
Proof.
intros Hu Ht. unfold handleConnection. rewrite Hu. simpl. rewrite Ht. simpl.
case_bool_decide as Hsome.
- destruct Hsome as [s Hs]. split.
  + rewrite lookup_alter_eq, Hs. done.
  + intros u' Hne. by rewrite lookup_alter_ne.
- apply eq_None_not_Some in Hsome. split.
  + rewrite lookup_alter_eq, lookup_insert_eq, Hsome. done.
  + intros u' Hne. rewrite lookup_alter_ne, lookup_insert_ne; done.
Qed.

Lemma handleDisconnect_lookup reg c u :
data_userId c = Some u → JS.truthyStr u = true →
handleDisconnect reg c !! u
= match reg !! u with
  | Some s => if decide (s ∖ {[sock_id c]} = ∅) then None else Some (s ∖ {[sock_id c]})
  | None => None
  end
∧ ∀ u', u' ≠ u → handleDisconnect reg c !! u' = reg !! u'.
Proof.
intros Hu Ht. unfold handleDisconnect. rewrite Hu. simpl. rewrite Ht.
destruct (reg !! u) as [s|] eqn:Hs; [|by rewrite Hs].
destruct (Nat.eqb_spec (size (s ∖ {[sock_id c]})) 0) as [H0|H0].
- apply size_empty_iff in H0. apply leibniz_equiv in H0.
  rewrite decide_True by done. split; [apply lookup_delete_eq|].
  intros u' Hne. by apply lookup_delete_ne.
- rewrite decide_False.
  + split; [apply lookup_insert_eq|]. intros u' Hne. by apply lookup_insert_ne.
  + intros He. apply H0. rewrite He. apply size_empty.
Qed.

End Sessions.

(** X7.  The registry never holds a user with an empty set of sockets:
    [handleConnection] and [handleDisconnect] both keep that invariant. *)
Theorem registry_has_no_empty_user
  (userSockets : gmap string (gset string)) (client : GatewaySessions.Socket) :
registryOk userSockets →
registryOk (fst (GatewaySessions.handleConnection userSockets client))
∧ registryOk (GatewaySessions.handleDisconnect userSockets client).
Proof.
intros Hok. split.
- destruct (JS.truthyOptStr (GatewaySessions.handshake_userId client)) eqn:Ht.
  + destruct (GatewaySessions.handshake_userId client) as [u|] eqn:Hu; [|done]. simpl in Ht.
    destruct (handleConnection_lookup userSockets client u Hu Ht) as [Hat Hother].
    intros u' s Hs. destruct (decide (u' = u)) as [->|Hne].
    * rewrite Hat in Hs. injection Hs as <-. set_solver.
    * rewrite Hother in Hs by done. by apply (Hok u').
  + unfold GatewaySessions.handleConnection. by rewrite Ht.
- destruct (JS.truthyOptStr (GatewaySessions.data_userId client)) eqn:Ht.
  + destruct (GatewaySessions.data_userId client) as [u|] eqn:Hu; [|done]. simpl in Ht.
    destruct (handleDisconnect_lookup userSockets client u Hu Ht) as [Hat Hother].
    intros u' s Hs. destruct (decide (u' = u)) as [->|Hne].
    * rewrite Hat in Hs. destruct (userSockets !! u); [|done].
      case_decide; [done|]. by injection Hs as <-.
    * rewrite Hother in Hs by done. by apply (Hok u').
  + unfold GatewaySessions.handleDisconnect. by rewrite Ht.
Qed.

(** A first connection to the empty registry. *)
Lemma registry_has_no_empty_user_witness :
registryOk ∅
∧ registryOk
    (fst (GatewaySessions.handleConnection ∅
            {| GatewaySessions.sock_id := "s1";
               GatewaySessions.handshake_userId := Some "u3";
               GatewaySessions.data_userId := None;
               GatewaySessions.rooms := ∅;
               GatewaySessions.connected := true |})).
Proof.
assert (H0 : registryOk ∅) by (intros u s Hs; by rewrite lookup_empty in Hs).
split; [exact H0|]. exact (proj1 (registry_has_no_empty_user ∅ _ H0)).
Defined.

(** X8.  After [handleDisconnect] the socket is registered with no user's
    set it was attached to: it is gone from the set of its user, the other
    sockets of that user stay, the other users are untouched, and a second
    [handleDisconnect] for the same socket changes nothing.  A socket that
    never got a user identifier leaves the registry as it is. *)
Theorem handleDisconnect_removes_socket
  (userSockets : gmap string (gset string)) (client : GatewaySessions.Socket) :
(∀ u, GatewaySessions.data_userId client = Some u → JS.truthyStr u = true →
   (∀ s, GatewaySessions.handleDisconnect userSockets client !! u = Some s →
         GatewaySessions.sock_id client ∉ s)
   ∧ (∀ s other, userSockets !! u = Some s → other ∈ s →
         other ≠ GatewaySessions.sock_id client →
         ∃ s', GatewaySessions.handleDisconnect userSockets client !! u = Some s' ∧ other ∈ s')
   ∧ (∀ u', u' ≠ u →
         GatewaySessions.handleDisconnect userSockets client !! u' = userSockets !! u'))
∧ GatewaySessions.handleDisconnect
    (GatewaySessions.handleDisconnect userSockets client) client
  = GatewaySessions.handleDisconnect userSockets client
∧ (JS.truthyOptStr (GatewaySessions.data_userId client) = false →
   GatewaySessions.handleDisconnect userSockets client = userSockets).
Proof.
split; [|split].
- intros u Hu Ht.
  destruct (handleDisconnect_lookup userSockets client u Hu Ht) as [Hat Hother].
  split; [|split; [|exact Hother]].
  + intros s Hs. rewrite Hat in Hs. destruct (userSockets !! u); [|done].
    case_decide; [done|]. injection Hs as <-. set_solver.
  + intros s other Hs Hin Hne. rewrite Hat, Hs.
    rewrite decide_False by set_solver. eexists. split; [done|]. set_solver.
- destruct (JS.truthyOptStr (GatewaySessions.data_userId client)) eqn:Ht.
  + destruct (GatewaySessions.data_userId client) as [u|] eqn:Hu; [|done]. simpl in Ht.
    apply map_eq. intros u'.
    destruct (handleDisconnect_lookup userSockets client u Hu Ht) as [Hat Hother].
    destruct (handleDisconnect_lookup
                (GatewaySessions.handleDisconnect userSockets client) client u Hu Ht)
      as [Hat2 Hother2].
    destruct (decide (u' = u)) as [->|Hne]; [|by rewrite Hother2].
    rewrite Hat2, Hat. destruct (userSockets !! u) as [s|]; [|done].
    case_decide as He; [done|].
    replace (s ∖ {[GatewaySessions.sock_id client]} ∖ {[GatewaySessions.sock_id client]})
      with (s ∖ {[GatewaySessions.sock_id client]}) by set_solver.
    by rewrite decide_False.
  + unfold GatewaySessions.handleDisconnect. by rewrite Ht.
- intros Ht. unfold GatewaySessions.handleDisconnect. by rewrite Ht.
Qed.

(** X9.  Connecting a socket and disconnecting it again gives back the
    registry as it was, when the registry holds no empty set and the socket
    was not yet registered for the user.  A connection without user identifier
    is refused: the socket is disconnected, gets no user identifier and joins
    no room, and the registry is not touched. *)
Theorem connect_then_disconnect_restores_registry
  (userSockets : gmap string (gset string)) (client : GatewaySessions.Socket) :
(∀ u, registryOk userSockets →
      GatewaySessions.handshake_userId client = Some u → JS.truthyStr u = true →
      GatewaySessions.sock_id client ∉ default ∅ (userSockets !! u) →
      GatewaySessions.handleDisconnect
        (fst (GatewaySessions.handleConnection userSockets client))
        (snd (GatewaySessions.handleConnection userSockets client))
      = userSockets)
∧ (JS.truthyOptStr (GatewaySessions.handshake_userId client) = false →
   GatewaySessions.handleConnection userSockets client
   = (userSockets,
      {| GatewaySessions.sock_id := GatewaySessions.sock_id client;
         GatewaySessions.handshake_userId := GatewaySessions.handshake_userId client;
         GatewaySessions.data_userId := GatewaySessions.data_userId client;
         GatewaySessions.rooms := GatewaySessions.rooms client;
         GatewaySessions.connected := false |})).
Proof.
split.
- intros u Hok Hu Ht Hfresh.
  destruct (handleConnection_lookup userSockets client u Hu Ht) as [Hat Hother].
  assert (Hdata : GatewaySessions.data_userId (snd (GatewaySessions.handleConnection userSockets client))
                  = Some u ∧ GatewaySessions.sock_id (snd (GatewaySessions.handleConnection userSockets client))
                             = GatewaySessions.sock_id client).
  { unfold GatewaySessions.handleConnection. rewrite Hu. simpl. by rewrite Ht. }
  destruct Hdata as [Hdata Hid].
  destruct (handleDisconnect_lookup
              (fst (GatewaySessions.handleConnection userSockets client))
              (snd (GatewaySessions.handleConnection userSockets client)) u Hdata Ht)
    as [Hat2 Hother2].
  apply map_eq. intros u'. destruct (decide (u' = u)) as [->|Hne].
  + rewrite Hat2, Hat, Hid. destruct (userSockets !! u) as [s|] eqn:Hs; simpl in *.
    * assert (Hne : s ≠ ∅) by (by apply (Hok u)).
      replace (({[GatewaySessions.sock_id client]} ∪ s) ∖ {[GatewaySessions.sock_id client]})
        with s by set_solver.
      by rewrite decide_False.
    * rewrite decide_True; [done|]. set_solver.
  + rewrite Hother2, Hother; done.
- intros Ht. unfold GatewaySessions.handleConnection. by rewrite Ht.
Qed.

(** ** The cache between two requests *)

Section CacheFacts.
Import RecommendationsService.

(** No character of [s] is one of [chars]. *)
Definition avoids (chars : list ascii) (s : string) : bool :=
forallb (fun c => negb (existsb (Ascii.eqb c) chars)) (list_ascii_of_string s).

(** A user identifier without the special characters of a Redis pattern. *)
Definition globFree (s : string) : bool :=
avoids ["*"%char; "?"%char; "["%char; "]"%char; "\"%char] s.

Definition colonFree (s : string) : bool := avoids [":"%char] s.

Lemma prefix_append (p s : string) : String.prefix p (p +:+ s) = true.
Proof.
induction p as [|c p IH]; simpl; [by destruct s|].
destruct (ascii_dec c c); [exact IH|done].
Qed.

Lemma append_assoc' (a b c : string) : (a +:+ b) +:+ c = a +:+ (b +:+ c).
Proof.
induction a as [|x a IH]; [done|].
change (String x ((a +:+ b) +:+ c) = String x (a +:+ (b +:+ c))). by f_equal.
Qed.

Lemma cacheKey_prefix u ctx :
String.prefix ("recommendations:" +:+ u +:+ ":") (cacheKey u ctx) = true.
Proof.
unfold cacheKey.
set (m := match ctx with Some c => stringifyContext c | None => "undefined" end).
rewrite <- (append_assoc' u ":" m), <- (append_assoc' "recommendations:" (u +:+ ":") m).
apply prefix_append.
Qed.

(** Two identifiers without colon, the first followed by a colon a prefix
    of the second followed by a colon: they are the same. *)
Lemma append_cons (c : ascii) (s t : string) : String c s +:+ t = String c (s +:+ t).
Proof. reflexivity. Qed.

Lemma append_nil (t : string) : EmptyString +:+ t = t.
Proof. reflexivity. Qed.

Lemma colonFree_cons c u : colonFree (String c u) = true → c ≠ ":"%char ∧ colonFree u = true.
Proof.
unfold colonFree, avoids. simpl. intros [Hc Hu]%andb_true_iff. split; [|done].
intros ->. done.
Qed.

Lemma prefix_cons a s1 b s2 :
String.prefix (String a s1) (String b s2)
= if ascii_dec a b then String.prefix s1 s2 else false.
Proof. reflexivity. Qed.

Lemma prefix_app_both (p x y : string) :
String.prefix (p +:+ x) (p +:+ y) = String.prefix x y.
Proof.
induction p as [|c p IH]; [done|].
rewrite !append_cons, prefix_cons. by destruct (ascii_dec c c).
Qed.

Lemma prefix_colon u u' rest :
colonFree u = true → colonFree u' = true →
String.prefix (u +:+ ":") (u' +:+ ":" +:+ rest) = true → u = u'.
Proof.
revert u'. induction u as [|c u IH]; intros [|c' u'] Hu Hu' Hp;
  rewrite ?append_cons, ?append_nil, ?prefix_cons in Hp.
- done.
- exfalso. apply colonFree_cons in Hu' as [Hc' _].
  destruct (ascii_dec ":" c') as [<-|]; done.
- exfalso. apply colonFree_cons in Hu as [Hc _].
  destruct (ascii_dec c ":") as [->|]; done.
- apply colonFree_cons in Hu as [_ Hu]. apply colonFree_cons in Hu' as [_ Hu'].
  destruct (ascii_dec c c') as [->|]; [|done]. f_equal. by apply IH.
Qed.

Lemma cacheKey_other_user u u' ctx :
colonFree u = true → colonFree u' = true → u ≠ u' →
String.prefix ("recommendations:" +:+ u +:+ ":") (cacheKey u' ctx) = false.
Proof.
intros Hu Hu' Hne. apply not_true_is_false. intros Hp. apply Hne.
unfold cacheKey in Hp. rewrite prefix_app_both in Hp.
by eapply prefix_colon.
Qed.

Lemma invalidateCache_lookup cache u k :
invalidateCache cache u !! k
= if String.prefix ("recommendations:" +:+ u +:+ ":") k then None else cache !! k.
Proof.
unfold invalidateCache. destruct (String.prefix _ k) eqn:Hp.
- apply map_lookup_filter_None. right. intros x _ HP. cbv beta in HP.
  unfold fst in HP. by rewrite Hp in HP.
- destruct (cache !! k) as [x|] eqn:Hk.
  + apply map_lookup_filter_Some. split; [done|]. cbv beta. unfold fst. by rewrite Hp.
  + apply map_lookup_filter_None. by left.
Qed.

End CacheFacts.

(** X10.  A response [getRecommendations] has returned answers every later
    request of the same user with the same context from the cache, as long as
    the entry is there: the same response, whatever the limit of the later
    request and whatever the store would answer by then. *)
Theorem getRecommendations_repeats_cached_response
  (be be' : RecommendationsService.Backend) (cache cache' : gmap string RecommendationResponse)
  (externalUserId : string) (request request' : RecommendationRequest)
  (response : RecommendationResponse) :
RecommendationsService.getRecommendations be cache externalUserId request
  = (Ok response, cache') →
req_context request' = req_context request →
RecommendationsService.getRecommendations be' cache' externalUserId request'
= (Ok response, cache').
Proof.
intros Hfirst Hctx.
assert (Hstored : cache' !! RecommendationsService.cacheKey externalUserId (req_context request)
                  = Some response).
{ unfold RecommendationsService.getRecommendations in Hfirst.
  destruct (cache !! _) as [cached|] eqn:Hlook.
  - by injection Hfirst as <- <-.
  - destruct (RecommendationsService.generate _ _ _ _) as [r|]; [|done].
    injection Hfirst as <- <-. apply lookup_insert_eq. }
unfold RecommendationsService.getRecommendations. by rewrite Hctx, Hstored.
Qed.

(** S5 once more, then the same user asks for one track only. *)
Lemma getRecommendations_repeats_cached_response_witness :
RecommendationsService.getRecommendations coldBackend ∅ "u5" plainRequest
= (Ok diverseResponse,
   snd (RecommendationsService.getRecommendations coldBackend ∅ "u5" plainRequest))
∧ RecommendationsService.getRecommendations dislikeOnlyBackend
    (snd (RecommendationsService.getRecommendations coldBackend ∅ "u5" plainRequest)) "u5"
    {| req_context := None; req_limit := Some 1%Z |}
  = (Ok diverseResponse,
     snd (RecommendationsService.getRecommendations coldBackend ∅ "u5" plainRequest)).
Proof.
assert (Hrun : RecommendationsService.getRecommendations coldBackend ∅ "u5" plainRequest
  = (Ok diverseResponse,
     snd (RecommendationsService.getRecommendations coldBackend ∅ "u5" plainRequest)))
  by (vm_compute; reflexivity).
split; [exact Hrun|].
exact (getRecommendations_repeats_cached_response coldBackend dislikeOnlyBackend ∅ _ "u5"
         plainRequest {| req_context := None; req_limit := Some 1%Z |} diverseResponse
         Hrun eq_refl).
Defined.

(** X11.  [invalidateCache] removes every entry of the user, for every
    context, and keeps every key that does not start with
    [recommendations:{userID}:], among them the entries of every other user
    when the identifiers hold no colon.  The next [getRecommendations] of the
    user therefore runs the pipeline: it returns what the pipeline generates,
    or fails as the pipeline fails. *)
Theorem invalidateCache_forces_a_miss
  (be : RecommendationsService.Backend) (cache : gmap string RecommendationResponse)
  (externalUserId : string) :
globFree externalUserId = true →
(∀ ctx, RecommendationsService.invalidateCache cache externalUserId
          !! RecommendationsService.cacheKey externalUserId ctx = None)
∧ (∀ k, String.prefix ("recommendations:" +:+ externalUserId +:+ ":") k = false →
        RecommendationsService.invalidateCache cache externalUserId !! k = cache !! k)
∧ (∀ other ctx, colonFree externalUserId = true → colonFree other = true →
        externalUserId ≠ other →
        RecommendationsService.invalidateCache cache externalUserId
          !! RecommendationsService.cacheKey other ctx
        = cache !! RecommendationsService.cacheKey other ctx)
∧ (∀ request,
     RecommendationsService.getRecommendations be
       (RecommendationsService.invalidateCache cache externalUserId) externalUserId request
     = match RecommendationsService.generate be externalUserId
               (RecommendationsService.limitOf request) (req_context request) with
       | Ok response =>
           (Ok response,
            <[RecommendationsService.cacheKey externalUserId (req_context request) := response]>
              (RecommendationsService.invalidateCache cache externalUserId))
       | Throw e => (Throw e, RecommendationsService.invalidateCache cache externalUserId)
       end).
Proof.
intros _.
assert (Hgone : ∀ ctx, RecommendationsService.invalidateCache cache externalUserId
                         !! RecommendationsService.cacheKey externalUserId ctx = None).
{ intros ctx. by rewrite invalidateCache_lookup, cacheKey_prefix. }
split; [exact Hgone|]. split; [|split].
- intros k Hk. by rewrite invalidateCache_lookup, Hk.
- intros other ctx Hu Ho Hne. by rewrite invalidateCache_lookup, cacheKey_other_user.
- intros request. unfold RecommendationsService.getRecommendations. by rewrite Hgone.
Qed.

(** The cached answer for u5 is dropped; the entry of u2 stays. *)
Lemma invalidateCache_forces_a_miss_witness :
globFree "u5" = true
∧ RecommendationsService.invalidateCache
    {[ RecommendationsService.cacheKey "u5" None := diverseResponse;
       RecommendationsService.cacheKey "u2" None := filteredResponse ]} "u5"
    !! RecommendationsService.cacheKey "u5" None = None.
Proof.
split; [reflexivity|].
exact (proj1 (invalidateCache_forces_a_miss coldBackend _ "u5" eq_refl) None).
Defined.

(** ** The gateway over the recommendations service *)



Section Wiring.
Import RecommendationGateway.

Lemma wired_refresh_unfold be emitOutcome userId reason st :
GatewayWiring.triggerRecommendationRefresh be emitOutcome userId reason st
= match RecommendationsService.generate be userId 20 None with
  | Ok response =>
      let cache' := <[RecommendationsService.cacheKey userId None := response]>
                      (RecommendationsService.invalidateCache (world st) userId) in
      match emitOutcome with
      | Ok _ =>
          (Ok (),
           {| world := cache';
              logs := logs st ++ [LogInfo ("Sent recommendation refresh to user " +:+ userId
                                           +:+ ", reason: " +:+ reasonName reason)];
              delivered := delivered st
                           ++ [("user:" +:+ userId,
                                {| upd_tracks := tracks response; upd_reason := reason |})] |})
      | Throw e =>
          (Ok (),
           {| world := cache';
              logs := logs st
                      ++ [LogError ("Failed to trigger recommendation refresh for user "
                                    +:+ userId) e];
              delivered := delivered st |})
      end
  | Throw e =>
      (Ok (),
       {| world := RecommendationsService.invalidateCache (world st) userId;
          logs := logs st
                  ++ [LogError ("Failed to trigger recommendation refresh for user "
                                +:+ userId) e];
          delivered := delivered st |})
  end.
Proof.
unfold GatewayWiring.triggerRecommendationRefresh, triggerRecommendationRefresh, tryRefresh.
unfold GatewayWiring.invalidateCache at 1. cbv iota beta.
unfold GatewayWiring.getRecommendations, RecommendationsService.getRecommendations.
cbv zeta. change (req_context {| req_context := None; req_limit := Some 20%Z |}) with (@None InteractionContext).
rewrite invalidateCache_lookup, cacheKey_prefix.
change (RecommendationsService.limitOf {| req_context := None; req_limit := Some 20%Z |})
  with 20%Z.
destruct (RecommendationsService.generate be userId 20 None) as [response|e]; [|done].
unfold GatewayWiring.emit. by destruct emitOutcome as [[]|e].
Qed.

End Wiring.

(** X12.  For a user identifier without the special characters of a Redis
    pattern, a refresh of the gateway over the recommendations service never
    answers from the cache: the list it delivers is the one the pipeline
    generates at that moment with limit 20 and no context, also when the
    cache held a response for the user.  After the refresh the cache holds
    that list under the no-context key of the user and no other entry of the
    user, so the next request without context returns exactly the delivered
    tracks.  When the pipeline fails nothing is delivered, the error is logged
    and the entries of the user stay flushed. *)
Theorem refresh_delivers_generated_list
  (be : RecommendationsService.Backend) (emitOutcome : Result ())
  (userId : string) (reason : RefreshReason) (st : RecommendationGateway.State) :
globFree userId = true →
let out := GatewayWiring.triggerRecommendationRefresh be emitOutcome userId reason st in
let cache := RecommendationGateway.world st in
fst out = Ok ()
∧ match RecommendationsService.generate be userId 20 None with
  | Ok response =>
      (emitOutcome = Ok () →
         RecommendationGateway.delivered (snd out)
         = RecommendationGateway.delivered st
           ++ [("user:" +:+ userId,
                {| upd_tracks := tracks response; upd_reason := reason |})])
      ∧ (emitOutcome ≠ Ok () →
         RecommendationGateway.delivered (snd out) = RecommendationGateway.delivered st)
      ∧ (∀ ctx, RecommendationGateway.world (snd out)
                  !! RecommendationsService.cacheKey userId ctx
                = if bool_decide (ctx = None) then Some response else None)
      ∧ (∀ be' limit,
           RecommendationsService.getRecommendations be'
             (RecommendationGateway.world (snd out)) userId
             {| req_context := None; req_limit := limit |}
           = (Ok response, RecommendationGateway.world (snd out)))
  | Throw e =>
      RecommendationGateway.delivered (snd out) = RecommendationGateway.delivered st
      ∧ RecommendationGateway.world (snd out)
        = RecommendationsService.invalidateCache cache userId
      ∧ ∃ msg, RecommendationGateway.logs (snd out)
               = RecommendationGateway.logs st ++ [RecommendationGateway.LogError msg e]
  end.
Proof.
intros _ out cache. subst out cache. rewrite wired_refresh_unfold.
destruct (RecommendationsService.generate be userId 20 None) as [response|e].
- assert (Hkey : ∀ ctx,
    (<[RecommendationsService.cacheKey userId None := response]>
       (RecommendationsService.invalidateCache (RecommendationGateway.world st) userId))
      !! RecommendationsService.cacheKey userId ctx
    = if bool_decide (ctx = None) then Some response else None).
  { intros ctx. case_bool_decide as Hctx.
    - subst ctx. apply lookup_insert_eq.
    - rewrite lookup_insert_ne.
      + by rewrite invalidateCache_lookup, cacheKey_prefix.
      + intros Heq. apply Hctx. symmetry in Heq.
        destruct ctx as [c|]; [|done]. exfalso.
        unfold RecommendationsService.cacheKey in Heq.
        assert (Hsuffix : RecommendationsService.stringifyContext c = "undefined").
        { revert Heq. generalize (RecommendationsService.stringifyContext c).
          intros s Hs.
          assert (Hinj : ∀ p a b : string, p +:+ a = p +:+ b → a = b).
          { intros p a b. induction p as [|x p IH]; [done|].
            rewrite !append_cons. intros [= ?]. by apply IH. }
          apply Hinj in Hs. by apply Hinj, Hinj in Hs. }
        destruct c as [[m|] [a|] [b|]]; try destruct m; try destruct a; try destruct b;
          by vm_compute in Hsuffix. }
  destruct emitOutcome as [[]|e]; cbv zeta; simpl fst; simpl snd;
    cbn [RecommendationGateway.delivered RecommendationGateway.world RecommendationGateway.logs].
  + split; [done|]. split; [done|]. split; [done|]. split; [exact Hkey|].
    intros be' limit. unfold RecommendationsService.getRecommendations.
    cbv zeta. change (req_context {| req_context := None; req_limit := limit |})
      with (@None InteractionContext).
    by rewrite (Hkey None).
  + split; [done|]. split; [done|]. split; [done|]. split; [exact Hkey|].
    intros be' limit. unfold RecommendationsService.getRecommendations.
    cbv zeta. change (req_context {| req_context := None; req_limit := limit |})
      with (@None InteractionContext).
    by rewrite (Hkey None).
- simpl. split; [done|]. split; [done|]. split; [done|]. eauto.
Qed.

(** The cache holds an old answer for u5; the refresh delivers the list
    generated now and stores it. *)
Lemma refresh_delivers_generated_list_witness :
globFree "u5" = true
∧ RecommendationGateway.delivered
    (snd (GatewayWiring.triggerRecommendationRefresh coldBackend (Ok ()) "u5" skip_detected
            {| RecommendationGateway.world :=
                 {[ RecommendationsService.cacheKey "u5" None := filteredResponse ]};
               RecommendationGateway.logs := [];
               RecommendationGateway.delivered := [] |}))
  = [("user:u5", {| upd_tracks := tracks diverseResponse; upd_reason := skip_detected |})].
Proof.
split; [reflexivity|].
exact (proj1 (proj2 (refresh_delivers_generated_list coldBackend (Ok ()) "u5" skip_detected
                       {| RecommendationGateway.world :=
                            {[ RecommendationsService.cacheKey "u5" None := filteredResponse ]};
                          RecommendationGateway.logs := [];
                          RecommendationGateway.delivered := [] |} eq_refl)) eq_refl).
Defined.

(** X13.  [handleManualRefresh] never throws.  For a socket without user
    identifier it does nothing at all.  For a socket that [handleConnection]
    accepted it is the refresh of that socket's user with reason
    [manual_refresh], and what it delivers goes to a room the socket has
    joined. *)
Theorem handleManualRefresh_serves_own_user
  (be : RecommendationsService.Backend) (emitOutcome : Result ())
  (client : GatewaySessions.Socket) (st : RecommendationGateway.State) :
fst (GatewayWiring.handleManualRefresh be emitOutcome client st) = Ok ()
∧ (JS.truthyOptStr (GatewaySessions.data_userId client) = false →
   GatewayWiring.handleManualRefresh be emitOutcome client st = (Ok (), st))
∧ (∀ userSockets socket u,
     client = snd (GatewaySessions.handleConnection userSockets socket) →
     GatewaySessions.handshake_userId socket = Some u → JS.truthyStr u = true →
     GatewayWiring.handleManualRefresh be emitOutcome client st
     = GatewayWiring.triggerRecommendationRefresh be emitOutcome u manual_refresh st
     ∧ ∀ room event,
         (room, event) ∈ RecommendationGateway.delivered
                           (snd (GatewayWiring.handleManualRefresh be emitOutcome client st)) →
         (room, event) ∈ RecommendationGateway.delivered st
         ∨ (room ∈ GatewaySessions.rooms client ∧ upd_reason event = manual_refresh)).
Proof.
split; [|split].
- unfold GatewayWiring.handleManualRefresh. case_match; [|done].
  rewrite wired_refresh_unfold.
  destruct (RecommendationsService.generate _ _ _ _); [|done].
  by destruct emitOutcome as [[]|].
- intros Ht. unfold GatewayWiring.handleManualRefresh. by rewrite Ht.
- intros userSockets socket u -> Hu Ht.
  unfold GatewaySessions.handleConnection. rewrite Hu. simpl JS.truthyOptStr. rewrite Ht.
  unfold GatewayWiring.handleManualRefresh. simpl. rewrite Ht. split; [done|].
  intros room event. rewrite wired_refresh_unfold.
  destruct (RecommendationsService.generate _ _ _ _) as [response|e]; [|by left].
  destruct emitOutcome as [[]|e]; simpl; [|by left].
  intros [Hold|Hnew%list_elem_of_singleton]%elem_of_app; [by left|right].
  injection Hnew as -> ->. split; [set_solver|done].
Qed.

(** ** The stored interest graph *)



Section StoredGraph.
Import InterestGraphService InterestGraphStore.

Lemma upsert_lookup table u g :
upsert table u g !! u
= Some {| stored_graph := Some g;
          stored_version := match table !! u with
                            | Some row => (stored_version row + 1)%Z
                            | None => 1%Z
                            end |}
∧ ∀ u', u' ≠ u → upsert table u g !! u' = table !! u'.
Proof.
unfold upsert. destruct (table !! u) as [row|].
- split; [apply lookup_insert_eq|]. intros u' Hne. by apply lookup_insert_ne.
- split; [apply lookup_insert_eq|]. intros u' Hne. by apply lookup_insert_ne.
Qed.

End StoredGraph.

(** X14.  [getOrCompute] computes a graph once: the graph it returns is
    stored, and every later [getOrCompute] of the user returns that same
    graph without writing, whatever interactions the user has had since.  It
    returns nothing only for a user with no stored graph and no interaction in
    the window, and then writes nothing.  The rows of other users are never
    touched. *)
Theorem getOrCompute_computes_once
  (rows : list InterestGraphService.Row) (table : gmap string InterestGraphStore.GraphRow)
  (externalUserId : string) :
let out := InterestGraphStore.getOrCompute rows table externalUserId in
(∀ graph, fst out = Some graph →
   ∀ later, InterestGraphStore.getOrCompute later (snd out) externalUserId
            = (Some graph, snd out))
∧ (fst out = None →
   snd out = table ∧ rows = []
   ∧ table !! externalUserId ≫= InterestGraphStore.stored_graph = None)
∧ (∀ graph, table !! externalUserId ≫= InterestGraphStore.stored_graph = Some graph →
   out = (Some graph, table))
∧ (∀ other, other ≠ externalUserId → snd out !! other = table !! other).
Proof.
intros out. subst out.
destruct (table !! externalUserId ≫= InterestGraphStore.stored_graph) as [g|] eqn:Hstored.
- assert (Hout : InterestGraphStore.getOrCompute rows table externalUserId = (Some g, table)).
  { unfold InterestGraphStore.getOrCompute. by rewrite Hstored. }
  rewrite Hout. simpl. split; [|split; [done|split; [by intros ? [= <-]|done]]].
  intros graph [= <-] later. unfold InterestGraphStore.getOrCompute. by rewrite Hstored.
- destruct (InterestGraphService.compute rows) as [computed|] eqn:Hc.
  + assert (Hout : InterestGraphStore.getOrCompute rows table externalUserId
                   = (Some computed, InterestGraphStore.upsert table externalUserId computed)).
    { unfold InterestGraphStore.getOrCompute. by rewrite Hstored, Hc. }
    rewrite Hout. simpl.
    destruct (upsert_lookup table externalUserId computed) as [Hat Hother].
    split; [|split; [done|split; [done|exact Hother]]].
    intros graph [= <-] later. unfold InterestGraphStore.getOrCompute. by rewrite Hat.
  + assert (Hout : InterestGraphStore.getOrCompute rows table externalUserId = (None, table)).
    { unfold InterestGraphStore.getOrCompute. by rewrite Hstored, Hc. }
    rewrite Hout. simpl.
    split; [done|]. split; [|done]. intros _. split; [done|]. split; [|done].
    destruct rows as [|r rows]; [done|]. exfalso.
    unfold InterestGraphService.compute in Hc.
    by destruct (InterestGraphService.accumulate (r :: rows)).
Qed.

(** X15.  [refresh] replaces the stored graph by the one computed from the
    current rows and counts the version up by one (1 for a first graph); the
    next [getOrCompute] returns the new graph.  For a user with no interaction
    in the window it returns nothing and leaves the table as it is, so a graph
    stored earlier stays in use. *)
Theorem refresh_replaces_stored_graph
  (rows : list InterestGraphService.Row) (table : gmap string InterestGraphStore.GraphRow)
  (externalUserId : string) :
let out := InterestGraphStore.refresh rows table externalUserId in
fst out = InterestGraphService.compute rows
∧ (rows = [] → out = (None, table))
∧ (∀ graph, fst out = Some graph →
     snd out !! externalUserId
     = Some {| InterestGraphStore.stored_graph := Some graph;
               InterestGraphStore.stored_version :=
                 match table !! externalUserId with
                 | Some row => (InterestGraphStore.stored_version row + 1)%Z
                 | None => 1%Z
                 end |}
     ∧ ∀ later, InterestGraphStore.getOrCompute later (snd out) externalUserId
                = (Some graph, snd out))
∧ (∀ other, other ≠ externalUserId → snd out !! other = table !! other).
Proof.
intros out. subst out. unfold InterestGraphStore.refresh.
destruct (InterestGraphService.compute rows) as [computed|] eqn:Hc; simpl.
- destruct (upsert_lookup table externalUserId computed) as [Hat Hother].
  split; [done|]. split; [by intros ->|]. split; [|exact Hother].
  intros graph [= <-]. split; [exact Hat|].
  intros later. unfold InterestGraphStore.getOrCompute. by rewrite Hat.
- split; [done|]. split; [done|]. split; [done|]. done.
Qed.

(** ** The interactions table *)

Section InteractionRows.
Import InteractionsService.


Lemma typed_counts_bounded (u : string) (l : list Interaction) :
(length (List.filter (fun r => String.eqb (int_externalUserId r) u
                               && bool_decide (int_eventType r = LIKE)) l)
 + length (List.filter (fun r => String.eqb (int_externalUserId r) u
                                 && bool_decide (int_eventType r = SKIP)) l)
 + length (List.filter (fun r => String.eqb (int_externalUserId r) u
                                 && bool_decide (int_eventType r = PLAY)) l)
 ≤ length (List.filter (fun r => String.eqb (int_externalUserId r) u) l))%nat.
Proof.
induction l as [|r l IH]; simpl; [done|].
destruct (String.eqb (int_externalUserId r) u); simpl; [|exact IH].
destruct (int_eventType r); simpl; lia.
Qed.

Lemma count_zero_iff (u : string) (l : list Interaction) :
length (List.filter (fun r => String.eqb (int_externalUserId r) u) l) = 0%nat
↔ ∀ r, r ∈ l → int_externalUserId r ≠ u.
Proof.
induction l as [|r l IH]; simpl.
- split; [|done]. intros _ r []%elem_of_nil.
- destruct (String.eqb_spec (int_externalUserId r) u) as [Heq|Hne]; simpl.
  + split; [done|]. intros Hall. exfalso. apply (Hall r); [left|done].
  + rewrite IH. split.
    * intros Hall r' [->|Hin]%elem_of_cons; [done|by apply Hall].
    * intros Hall r' Hin. apply Hall. by right.
Qed.

End InteractionRows.


(** X17.  In the statistics of a user the LIKE, SKIP and PLAY counts
    together never exceed the total, and the total is 0 exactly when the
    table holds no interaction of the user; such a user is a cold start
    whatever the profile says. *)
Theorem getUserInteractionStats_counts
  (db : InteractionsService.Db) (externalUserId : string) :
let stats := InteractionsService.getUserInteractionStats db externalUserId in
(InteractionsService.likeCount stats + InteractionsService.skipCount stats
 + InteractionsService.playCount stats ≤ InteractionsService.totalInteractions stats)%nat
∧ (InteractionsService.totalInteractions stats = 0%nat
   ↔ ∀ r, r ∈ InteractionsService.interactions db →
          InteractionsService.int_externalUserId r ≠ externalUserId)
∧ (InteractionsService.totalInteractions stats = 0%nat →
   ∀ profile, RecommendationsService.isColdStart stats profile = true).
Proof.
intros stats. subst stats. unfold InteractionsService.getUserInteractionStats. simpl.
unfold InteractionsService.countWhere.
split; [apply typed_counts_bounded|]. split; [apply count_zero_iff|].
intros H0 profile. unfold RecommendationsService.isColdStart. simpl.
unfold InteractionsService.countWhere. by rewrite H0.
Qed.

(** ** The profile table *)



(** ** The text of a vector column *)

Section ColumnText.
Import UsersService.

Lemma digitChar_facts d :
d < 10 →
JS.isDigit (digitChar d) = true
∧ JS.digitVal (digitChar d) = Z.of_nat d
∧ JS.isWhite (digitChar d) = false
∧ Ascii.eqb (digitChar d) ","%char = false
∧ (∀ r, JS.signOf (String (digitChar d) r) = (1%Z, String (digitChar d) r))
∧ (∀ r, String.prefix "Infinity" (String (digitChar d) r) = false).
Proof.
intros Hd. do 10 (destruct d as [|d]; [by repeat split|]). lia.
Qed.

(** The head of a string is no digit. *)
Definition noDigitHead (s : string) : Prop :=
match s with
| String c _ => JS.isDigit c = false
| EmptyString => True
end.

Definition digitsValue (acc : Z) (ds : list nat) : Z :=
foldl (fun a d => (a * 10 + Z.of_nat d)%Z) acc ds.

Lemma takeDigits_digits ds rest acc n :
Forall (fun d => d < 10) ds → noDigitHead rest →
JS.takeDigits (digitsText ds +:+ rest) acc n = (digitsValue acc ds, n + length ds, rest).
Proof.
intros Hds Hrest. revert acc n.
induction Hds as [|d ds Hd _ IH]; intros acc n.
- rewrite append_nil. simpl. rewrite Nat.add_0_r.
  destruct rest as [|c r]; simpl; [done|]. simpl in Hrest. by rewrite Hrest.
- cbn [digitsText]. rewrite append_cons. cbn [JS.takeDigits].
  destruct (digitChar_facts d Hd) as (Hdig & Hval & _). rewrite Hdig, Hval, IH.
  cbn [digitsValue foldl length]. f_equal. f_equal. lia.
Qed.

Lemma digitsValue_bounds ds :
Forall (fun d => d < 10) ds → (0 ≤ digitsValue 0 ds < 10 ^ Z.of_nat (length ds))%Z.
Proof.
intros Hds.
assert (H : ∀ acc, (0 ≤ acc)%Z →
          (0 ≤ digitsValue acc ds < (acc + 1) * 10 ^ Z.of_nat (length ds))%Z).
{ induction Hds as [|d ds Hd _ IH]; intros acc Hacc.
  - simpl. lia.
  - cbn [digitsValue foldl length]. fold (digitsValue (acc * 10 + Z.of_nat d) ds).
    specialize (IH (acc * 10 + Z.of_nat d)%Z ltac:(lia)).
    rewrite Nat2Z.inj_succ, Z.pow_succ_r by lia. nia. }
specialize (H 0%Z ltac:(lia)). lia.
Qed.

(** The value a component text reads as. *)
Definition componentValue (c : Component) : Q :=
(inject_Z (if negative c then -1 else 1)
 * (inject_Z (digitsValue 0 (intDigits c))
    + inject_Z (digitsValue 0 (fracDigits c))
      / inject_Z (10 ^ Z.of_nat (length (fracDigits c))))
 * JS.pow10 (match exponent c with
             | Some (neg, ds) => (if neg : bool then -1 else 1) * digitsValue 0 ds
             | None => 0
             end))%Q.

Lemma append_nil_r (s : string) : s +:+ EmptyString = s.
Proof. induction s as [|c s IH]; [done|]. rewrite append_cons. by f_equal. Qed.

Lemma strDecimalLiteral_component c :
wellFormedComponent c →
JS.strDecimalLiteral (componentText c) = Some (JS.ofQ (componentValue c), EmptyString).
Proof.
intros (Hne & _ & Hint & Hfrac & Hexp).
destruct c as [neg ints fracs ex]. simpl in *.
unfold componentText, componentValue. cbn [negative intDigits fracDigits exponent].
destruct ints as [|i0 ints]; [done|].
apply Forall_cons in Hint as Hint'. destruct Hint' as [Hi0 Hints].
destruct (digitChar_facts i0 Hi0) as (_ & _ & _ & _ & Hsign & Hinf).
set (E := match ex with
          | Some (neg0, ds) => "e" +:+ (if neg0 : bool then "-" else "+") +:+ digitsText ds
          | None => EmptyString
          end).
set (F := match fracs with
          | [] => EmptyString
          | f0 :: fs => "." +:+ digitsText (f0 :: fs)
          end).
assert (HE : noDigitHead E) by (subst E; by destruct ex as [[[] ?]|]).
assert (HFE : noDigitHead (F +:+ E)).
{ subst F. destruct fracs; [by rewrite append_nil|done]. }
(* the exponent part *)
assert (Hexpo : (match E with
                 | String c0 r =>
                     if JS.isExpChar c0 then
                       let '(esg, r1) := JS.signOf r in
                       let '(ev, ne, r2) := JS.takeDigits r1 0%Z 0%nat in
                       if (ne =? 0)%nat then (0%Z, E) else ((esg * ev)%Z, r2)
                     else (0%Z, E)
                 | EmptyString => (0%Z, E)
                 end)
                = (match ex with
                   | Some (neg0, ds) => (if neg0 : bool then -1 else 1) * digitsValue 0 ds
                   | None => 0
                   end%Z, EmptyString)).
{ subst E. destruct ex as [[eneg eds]|]; [|done].
  destruct Hexp as (Hene & _ & Heds).
  pose proof (takeDigits_digits eds EmptyString 0%Z 0%nat Heds I) as Htake.
  rewrite append_nil_r in Htake.
  destruct eneg; rewrite !append_cons, !append_nil;
    change (JS.isExpChar "e"%char) with true; cbv iota.
  - change (JS.signOf (String "-"%char (digitsText eds))) with ((-1)%Z, digitsText eds).
    cbv beta iota. rewrite Htake. by destruct eds.
  - change (JS.signOf (String "+"%char (digitsText eds))) with (1%Z, digitsText eds).
    cbv beta iota. rewrite Htake. by destruct eds. }
unfold JS.strDecimalLiteral.
assert (Hs : JS.signOf ((if neg then "-" else EmptyString)
                        +:+ digitsText (i0 :: ints) +:+ F +:+ E)
             = ((if neg then -1 else 1)%Z, digitsText (i0 :: ints) +:+ F +:+ E)).
{ destruct neg; [by rewrite append_cons, append_nil|].
  rewrite append_nil. cbn [digitsText]. rewrite append_cons. apply Hsign. }
rewrite Hs. cbn [digitsText]. rewrite (append_cons (digitChar i0)), Hinf.
rewrite <- (append_cons (digitChar i0)).
change (String (digitChar i0) (digitsText ints)) with (digitsText (i0 :: ints)).
rewrite (takeDigits_digits (i0 :: ints) (F +:+ E) 0%Z 0%nat Hint HFE).
assert (Hf : (match F +:+ E with
              | String "."%char r => JS.takeDigits r 0%Z 0%nat
              | _ => (0%Z, 0%nat, F +:+ E)
              end)
             = (digitsValue 0 fracs, length fracs, E)).
{ subst F. destruct fracs as [|f0 fracs].
  - rewrite append_nil. subst E. by destruct ex as [[[] ?]|].
  - rewrite !append_cons, append_nil.
    by rewrite (takeDigits_digits (f0 :: fracs) E 0%Z 0%nat Hfrac HE). }
rewrite Hf. cbn [length Nat.add Nat.eqb]. rewrite Hexpo.
reflexivity.
Qed.

Lemma inject_Z_le a b : (a ≤ b)%Z → (inject_Z a <= inject_Z b)%Q.
Proof. intros H. by rewrite <- Zle_Qle. Qed.

Lemma inject_Z_lt a b : (a < b)%Z → (inject_Z a < inject_Z b)%Q.
Proof. intros H. by rewrite <- Zlt_Qlt. Qed.

Lemma pow10_bounds e :
(-99 ≤ e ≤ 99)%Z → (0 <= JS.pow10 e)%Q ∧ (JS.pow10 e <= inject_Z (10 ^ 99))%Q.
Proof.
intros He. unfold JS.pow10. destruct (0 <=? e)%Z eqn:Hs.
- apply Z.leb_le in Hs. split.
  + apply (inject_Z_le 0). by apply Z.pow_nonneg.
  + apply inject_Z_le. apply Z.pow_le_mono_r; lia.
- apply Z.leb_gt in Hs.
  assert (Hp : (0 < 10 ^ (- e))%Z) by (apply Z.pow_pos_nonneg; lia).
  assert (Hq : (0 < inject_Z (10 ^ (- e)))%Q) by (by apply (inject_Z_lt 0)).
  split.
  + apply Qle_shift_div_l; [exact Hq|]. rewrite Qmult_0_l. done.
  + apply Qle_shift_div_r; [exact Hq|]. rewrite <- inject_Z_mult.
    apply (inject_Z_le 1). assert (0 < 10 ^ 99)%Z by done. nia.
Qed.

Lemma componentValue_bounds c :
wellFormedComponent c →
(- (inject_Z (10 ^ 40) * inject_Z (10 ^ 99)) <= componentValue c)%Q
∧ (componentValue c <= inject_Z (10 ^ 40) * inject_Z (10 ^ 99))%Q.
Proof.
intros (_ & Hlen & Hint & Hfrac & Hexp). unfold componentValue.
pose proof (digitsValue_bounds _ Hint) as Hi.
pose proof (digitsValue_bounds _ Hfrac) as Hf.
set (i := digitsValue 0 (intDigits c)) in *.
set (f := digitsValue 0 (fracDigits c)) in *.
set (nf := Z.of_nat (length (fracDigits c))) in *.
set (e := match exponent c with
          | Some (neg, ds) => ((if neg : bool then -1 else 1) * digitsValue 0 ds)%Z
          | None => 0%Z
          end).
assert (He : (-99 ≤ e ≤ 99)%Z).
{ subst e. destruct (exponent c) as [[eneg eds]|]; [|lia].
  destruct Hexp as (_ & Hl & Heds). pose proof (digitsValue_bounds _ Heds) as Hb.
  assert (10 ^ Z.of_nat (length eds) ≤ 10 ^ 2)%Z by (apply Z.pow_le_mono_r; lia).
  change (10 ^ 2)%Z with 100%Z in *. destruct eneg; lia. }
destruct (pow10_bounds e He) as [Hp0 Hp1].
set (p := JS.pow10 e) in *.
assert (Hi' : (i + 1 ≤ 10 ^ 40)%Z).
{ assert (10 ^ Z.of_nat (length (intDigits c)) ≤ 10 ^ 40)%Z
    by (apply Z.pow_le_mono_r; lia). lia. }
assert (Hd : (0 < inject_Z (10 ^ nf))%Q).
{ apply (inject_Z_lt 0). apply Z.pow_pos_nonneg; lia. }
assert (Hm0 : (0 <= inject_Z i + inject_Z f / inject_Z (10 ^ nf))%Q).
{ assert (0 <= inject_Z i)%Q by (apply (inject_Z_le 0); lia).
  assert (0 <= inject_Z f / inject_Z (10 ^ nf))%Q.
  { apply Qle_shift_div_l; [exact Hd|]. rewrite Qmult_0_l.
    apply (inject_Z_le 0). lia. }
  lra. }
assert (Hm1 : (inject_Z i + inject_Z f / inject_Z (10 ^ nf) <= inject_Z (10 ^ 40))%Q).
{ assert (inject_Z i + 1 <= inject_Z (10 ^ 40))%Q.
  { change 1%Q with (inject_Z 1). rewrite <- inject_Z_plus. by apply inject_Z_le. }
  assert (inject_Z f / inject_Z (10 ^ nf) <= 1)%Q.
  { apply Qle_shift_div_r; [exact Hd|]. rewrite Qmult_1_l.
    apply inject_Z_le. lia. }
  lra. }
set (m := (inject_Z i + inject_Z f / inject_Z (10 ^ nf))%Q) in *.
set (A := inject_Z (10 ^ 40)) in *. set (B := inject_Z (10 ^ 99)) in *.
assert (Hmp : (m * p <= A * B)%Q).
{ apply Qle_trans with (A * p)%Q.
  - apply Qmult_le_compat_r; assumption.
  - rewrite !(Qmult_comm A). apply Qmult_le_compat_r; [assumption|].
    apply Qle_trans with m; assumption. }
assert (Hmp0 : (0 <= m * p)%Q) by (by apply Qmult_le_0_compat).
destruct (negative c).
- change (inject_Z (-1)) with (- (1))%Q. split; lra.
- change (inject_Z 1) with 1%Q. split; lra.
Qed.

Lemma ofQ_component c :
wellFormedComponent c → JS.ofQ (componentValue c) = JS.Fin (Qred (componentValue c)).
Proof.
intros Hc. destruct (componentValue_bounds c Hc) as [Hlo Hhi].
assert (Hmax : (inject_Z (10 ^ 40) * inject_Z (10 ^ 99) < JS.maxDouble)%Q)
  by (vm_compute; reflexivity).
unfold JS.ofQ.
destruct (Qle_bool JS.maxDouble (componentValue c)) eqn:H1.
{ apply Qle_bool_iff in H1. exfalso.
  apply (Qlt_irrefl JS.maxDouble).
  eapply Qle_lt_trans; [exact H1|]. eapply Qle_lt_trans; [exact Hhi|exact Hmax]. }
destruct (Qle_bool (componentValue c) (- JS.maxDouble)) eqn:H2; [|done].
apply Qle_bool_iff in H2. exfalso.
apply (Qlt_irrefl (- JS.maxDouble)).
eapply Qlt_le_trans; [|exact H2]. eapply Qlt_le_trans; [|exact Hlo].
apply Qopp_lt_compat. exact Hmax.
Qed.

(** A text without white space and without comma. *)
Fixpoint plainText (s : string) : bool :=
match s with
| EmptyString => true
| String c r => negb (JS.isWhite c) && negb (Ascii.eqb c ","%char) && plainText r
end.

Lemma plainText_app a b : plainText (a +:+ b) = plainText a && plainText b.
Proof.
induction a as [|c a IH]; [by rewrite append_nil|].
rewrite append_cons. cbn [plainText]. rewrite IH. by rewrite andb_assoc.
Qed.

Lemma plainText_digits ds : Forall (fun d => d < 10) ds → plainText (digitsText ds) = true.
Proof.
induction 1 as [|d ds Hd _ IH]; [done|]. cbn [digitsText plainText].
destruct (digitChar_facts d Hd) as (_ & _ & Hw & Hc & _). by rewrite Hw, Hc, IH.
Qed.

Lemma plainText_component c : wellFormedComponent c → plainText (componentText c) = true.
Proof.
intros (_ & _ & Hint & Hfrac & Hexp). unfold componentText.
rewrite !plainText_app, (plainText_digits _ Hint).
assert (H1 : plainText (if negative c then "-" else EmptyString) = true)
  by (by destruct (negative c)).
rewrite H1. cbn [andb].
apply andb_true_iff. split.
- destruct (fracDigits c) as [|f0 fs] eqn:E; [done|].
  rewrite plainText_app. by rewrite (plainText_digits _ Hfrac).
- destruct (exponent c) as [[eneg eds]|]; [|done].
  destruct Hexp as (_ & _ & Heds). rewrite !plainText_app, (plainText_digits _ Heds).
  by destruct eneg.
Qed.

Lemma trimStart_plain s : plainText s = true → JS.trimStart s = s.
Proof.
destruct s as [|c r]; [done|]. cbn [plainText JS.trimStart].
by destruct (JS.isWhite c).
Qed.

Lemma trimEnd_plain s : plainText s = true → JS.trimEnd s = s.
Proof.
induction s as [|c r IH]; [done|]. cbn [plainText JS.trimEnd].
intros [[Hw _]%andb_true_iff Hr]%andb_true_iff. rewrite (IH Hr).
destruct r; [|done]. by destruct (JS.isWhite c).
Qed.

Lemma trim_plain s : plainText s = true → JS.trim s = s.
Proof. intros H. unfold JS.trim. by rewrite (trimStart_plain s H), (trimEnd_plain s H). Qed.

Lemma split_plain s : plainText s = true → JS.split ","%char s = [s].
Proof.
induction s as [|c r IH]; [done|]. cbn [plainText JS.split].
intros [[_ Hc%negb_true_iff]%andb_true_iff Hr]%andb_true_iff.
by rewrite Hc, (IH Hr).
Qed.

Lemma split_plain_comma s rest :
plainText s = true →
JS.split ","%char (s +:+ String ","%char rest) = s :: JS.split ","%char rest.
Proof.
induction s as [|c r IH]; [by rewrite append_nil|].
rewrite append_cons. cbn [plainText JS.split].
intros [[_ Hc%negb_true_iff]%andb_true_iff Hr]%andb_true_iff.
by rewrite Hc, (IH Hr).
Qed.

Lemma split_concat (texts : list string) :
texts ≠ [] → Forall (fun t => plainText t = true) texts →
JS.split ","%char (String.concat "," texts) = texts.
Proof.
intros Hne Hall. induction Hall as [|t ts Ht Hts IH]; [done|].
destruct ts as [|t' ts].
- cbn [String.concat]. by apply split_plain.
- change (String.concat "," (t :: t' :: ts))
    with (t +:+ String ","%char (EmptyString +:+ String.concat "," (t' :: ts))).
  rewrite append_nil, (split_plain_comma _ _ Ht). by rewrite IH.
Qed.

Lemma dropTrailing_last c s : JS.dropTrailing c (s +:+ String c EmptyString) = s.
Proof.
induction s as [|a r IH].
- rewrite append_nil. cbn [JS.dropTrailing]. by rewrite Ascii.eqb_refl.
- rewrite append_cons. cbn [JS.dropTrailing]. rewrite IH.
  destruct r; [by rewrite append_nil|by rewrite append_cons].
Qed.

Lemma trimEnd_last c s :
JS.isWhite c = false → JS.trimEnd (s +:+ String c EmptyString) = s +:+ String c EmptyString.
Proof.
intros Hc. induction s as [|a r IH].
- rewrite append_nil. cbn [JS.trimEnd]. by rewrite Hc.
- rewrite append_cons. cbn [JS.trimEnd]. rewrite IH.
  destruct r; [by rewrite append_nil|by rewrite append_cons].
Qed.

Lemma componentText_nonempty c :
wellFormedComponent c → JS.truthyStr (componentText c +:+ EmptyString) = true
∧ ∀ rest, JS.truthyStr (componentText c +:+ rest) = true.
Proof.
intros (Hne & _). unfold componentText.
assert (H : ∀ rest, JS.truthyStr
  ((if negative c then "-" else EmptyString) +:+ digitsText (intDigits c) +:+ rest) = true).
{ intros rest. destruct (negative c); [by rewrite append_cons|].
  rewrite append_nil. destruct (intDigits c); [done|]. cbn [digitsText].
  by rewrite append_cons. }
split; [|intros rest]; rewrite !append_assoc'; apply H.
Qed.

Lemma parseFloat_component c :
wellFormedComponent c →
JS.parseFloat (JS.trim (componentText c)) = JS.Fin (Qred (componentValue c)).
Proof.
intros Hc. pose proof (plainText_component c Hc) as Hp.
rewrite (trim_plain _ Hp). unfold JS.parseFloat.
rewrite (trimStart_plain _ Hp), (strDecimalLiteral_component c Hc).
by apply ofQ_component.
Qed.

(** The text of a vector of well-formed components reads back as one finite
    number per component. *)
Lemma parseVector_vectorText cs :
cs ≠ [] → Forall wellFormedComponent cs →
parseVector (JS.VStr (vectorText cs))
= Some (List.map (fun c => JS.Fin (Qred (componentValue c))) cs).
Proof.
intros Hne Hcs.
set (texts := List.map componentText cs).
assert (Hplain : Forall (fun t => plainText t = true) texts).
{ subst texts. apply Forall_forall. intros t (c & -> & Hin)%list_elem_of_fmap.
  apply plainText_component. by eapply Forall_forall in Hcs. }
assert (Htexts : texts ≠ []) by (subst texts; by destruct cs).
assert (Htrim : JS.trim (vectorText cs) = vectorText cs).
{ unfold JS.trim, vectorText. fold texts. rewrite append_cons, append_nil.
  change (JS.trimStart (String "[" ?s)) with (String "["%char s).
  change (String "["%char (String.concat "," texts +:+ "]"))
    with ((String "["%char (String.concat "," texts)) +:+ "]").
  by apply trimEnd_last. }
assert (Hinner : JS.dropTrailing "]"%char (JS.dropLeading "["%char (JS.trim (vectorText cs)))
                 = String.concat "," texts).
{ rewrite Htrim. unfold vectorText. fold texts. rewrite append_cons, append_nil.
  change (JS.dropLeading "[" (String "[" ?s)) with s. apply dropTrailing_last. }
assert (Hparts : List.map (fun p => JS.parseFloat (JS.trim p)) texts
                 = List.map (fun c => JS.Fin (Qred (componentValue c))) cs).
{ subst texts. rewrite List.map_map. apply List.map_ext_in. intros c Hin.
  apply parseFloat_component. apply list_elem_of_In in Hin. by eapply Forall_forall in Hcs. }
pose proof (parseVector_string_all_finite (vectorText cs)) as Hpv.
cbv zeta in Hpv. rewrite Hinner, (split_concat texts Htexts Hplain), Hparts in Hpv.
apply Hpv.
- destruct cs as [|c0 cs0]; [done|]. subst texts. cbn [List.map].
  apply Forall_cons in Hcs as [Hc0 _]. destruct (componentText_nonempty c0 Hc0) as [H0 H1].
  destruct cs0; cbn [List.map String.concat].
  + by rewrite append_nil_r in H0.
  + apply H1.
- apply Forall_forall. intros x (c & -> & _)%list_elem_of_fmap. done.
Qed.

End ColumnText.

(** Every row of the table holds, for [profile_embedding], a value of the
    column type. *)
Definition columnTyped (table : gmap string UsersService.ProfileRow) : Prop :=
∀ u row, table !! u = Some row → UsersService.columnValue (UsersService.profile_embedding row).

(** An embedding is absent or has 256 finite entries. *)
Definition absentOrWellFormed (p : UserProfile) : Prop :=
profileEmbedding p = None
∨ ∃ e, profileEmbedding p = Some e ∧ wellFormedEmbedding e.

Lemma parseVector_columnValue v :
UsersService.columnValue v →
UsersService.parseVector v = None
∨ ∃ e, UsersService.parseVector v = Some e ∧ wellFormedEmbedding e.
Proof.
intros [->|[(cs & Hlen & Hcs & ->)|(qs & Hlen & ->)]].
- by left.
- right. eexists. split.
  + apply parseVector_vectorText; [|exact Hcs]. intros ->. simpl in Hlen. lia.
  + split; [by rewrite length_map|].
    apply Forall_forall. intros x (c & -> & _)%list_elem_of_fmap. done.
- right. eexists. split; [apply parseVector_array|].
  rewrite toNumber_finite_numbers. split; [by rewrite length_map|].
  apply Forall_forall. intros x (q & -> & _)%list_elem_of_fmap. done.
Qed.

(** C9.  The column [profile_embedding] is [vector(256)]: a row holds [NULL]
    or a vector of 256 finite components, which the driver delivers as the
    text [[x1,...,x256]] (or, with a parser registered for the type, as the
    array of the 256 numbers).  On a table whose rows hold such values, the
    profile returned by [findOrCreateProfile] and by [updatePreferences] has
    no embedding or an embedding of exactly 256 finite numbers, and the table
    they leave again holds only such values.  ([parseVector] itself compares
    no length: the 256 is the column's.) *)
Theorem profileEmbedding_absent_or_256_finite
  (table : gmap string UsersService.ProfileRow) (now : Z) (externalUserId : string) :
columnTyped table →
absentOrWellFormed (fst (UsersService.findOrCreateProfile table now externalUserId))
∧ columnTyped (snd (UsersService.findOrCreateProfile table now externalUserId))
∧ ∀ preferred disliked,
    absentOrWellFormed
      (fst (UsersService.updatePreferences table now externalUserId preferred disliked))
    ∧ columnTyped
        (snd (UsersService.updatePreferences table now externalUserId preferred disliked)).
Proof.
intros Htable.
assert (Hfind :
  absentOrWellFormed (fst (UsersService.findOrCreateProfile table now externalUserId))
  ∧ columnTyped (snd (UsersService.findOrCreateProfile table now externalUserId))).
{ unfold UsersService.findOrCreateProfile.
  destruct (table !! externalUserId) as [row|] eqn:Hrow; cbn [fst snd].
  - split; [|exact Htable]. unfold absentOrWellFormed. cbn [UsersService.toProfile profileEmbedding].
    apply parseVector_columnValue. by eapply Htable.
  - split; [by left|]. intros u row' Hu.
    destruct (decide (u = externalUserId)) as [->|Hne].
    + rewrite lookup_insert_eq in Hu. injection Hu as <-. by left.
    + rewrite lookup_insert_ne in Hu by done. by eapply Htable. }
split; [apply Hfind|]. split; [apply Hfind|].
intros preferred disliked. unfold UsersService.updatePreferences.
destruct (table !! externalUserId) as [row|] eqn:Hrow; [|exact Hfind].
cbn [fst snd]. split.
- unfold absentOrWellFormed. cbn [UsersService.toProfile profileEmbedding UsersService.profile_embedding].
  apply parseVector_columnValue. by eapply Htable.
- intros u row' Hu. destruct (decide (u = externalUserId)) as [->|Hne].
  + rewrite lookup_insert_eq in Hu. injection Hu as <-.
    cbn [UsersService.profile_embedding]. by eapply Htable.
  + rewrite lookup_insert_ne in Hu by done. by eapply Htable.
Qed.

(** A component [-0.125e-05] and a row that stores 256 of them. *)
Definition sampleComponent : UsersService.Component :=
{| UsersService.negative := true;
   UsersService.intDigits := [0];
   UsersService.fracDigits := [1; 2; 5];
   UsersService.exponent := Some (true, [0; 5]) |}.

Definition storedVectorRow : UsersService.ProfileRow :=
{| UsersService.external_user_id := "user-123";
   UsersService.preferred_genres := Some ["rock"];
   UsersService.disliked_genres := None;
   UsersService.last_active_at := 0;
   UsersService.profile_embedding :=
     JS.VStr (UsersService.vectorText (repeat sampleComponent 256)) |}.

Lemma profileEmbedding_absent_or_256_finite_witness :
columnTyped {[ "user-123" := storedVectorRow ]}
∧ profileEmbedding
    (fst (UsersService.findOrCreateProfile {[ "user-123" := storedVectorRow ]} 7 "user-123"))
  = Some (repeat (JS.Fin (-1 # 800000)%Q) 256)
∧ absentOrWellFormed
    (fst (UsersService.findOrCreateProfile {[ "user-123" := storedVectorRow ]} 7 "user-123")).
Proof.
assert (Hc : columnTyped {[ "user-123" := storedVectorRow ]}).
{ intros u row Hu. apply lookup_singleton_Some in Hu as [_ <-].
  right. left. exists (repeat sampleComponent 256).
  split; [reflexivity|]. split; [|reflexivity].
  apply Forall_forall. intros c Hin%list_elem_of_In%repeat_spec. subst c.
  repeat split; try (cbn; lia); try done; cbn; repeat constructor; lia. }
split; [exact Hc|]. split; [vm_compute; reflexivity|].
exact (proj1 (profileEmbedding_absent_or_256_finite _ 7 "user-123" Hc)).
Defined.

(** ** Where the returned tracks come from *)

Section Sources.
Import RecommendationsService.

Lemma rankByContext_elem tracks ctx t : t ∈ rankByContext tracks ctx → t ∈ tracks.
Proof. unfold rankByContext. by rewrite sort_perm. Qed.

(** What [personalizedRecommendations] returns was read by the embedding
    search and passed the disliked-genre filter, or was read by the genre
    fallback. *)
Lemma personalized_sources be u profile limit ctx ts :
personalizedRecommendations be u profile limit ctx = Ok ts →
∃ updated ex,
  findUpdatedProfile be u = Ok updated
  ∧ getRecentlySkippedTrackIds be u 24 20 = Ok ex
  ∧ match profileEmbedding updated with
    | Some embedding =>
        ∃ rows, annByEmbedding be embedding ex (limit * 3) = Ok rows
                ∧ ∀ t, t ∈ ts →
                       t ∈ rows ∧ includes (dislikedGenres profile) (genre t) = false
    | None =>
        ts = [] ∧ preferredGenres updated = []
        ∨ popularByGenreExcluding be (preferredGenres updated) ex (limit * 2) = Ok ts
    end.
Proof.
unfold personalizedRecommendations. intros H.
destruct (computeAndUpdateProfileEmbedding be u) as [[]|]; simpl in H; [|done].
destruct (getRecentlySkippedTrackIds be u 24 20) as [ex|]; simpl in H; [|done].
destruct (findUpdatedProfile be u) as [updated|]; simpl in H; [|done].
exists updated, ex. split; [done|]. split; [done|].
destruct (profileEmbedding updated) as [embedding|].
- destruct (annByEmbedding be embedding ex (limit * 3)) as [rows|]; simpl in H; [|done].
  exists rows. split; [done|].
  set (kept := if (0 <? length (dislikedGenres profile))%nat
               then List.filter (fun t => negb (includes (dislikedGenres profile) (genre t)))
                      rows
               else rows) in H.
  assert (Hkept : ∀ t, t ∈ kept →
            t ∈ rows ∧ includes (dislikedGenres profile) (genre t) = false).
  { intros t. subst kept. destruct (dislikedGenres profile) as [|d ds] eqn:Hd; simpl.
    - done.
    - rewrite list_elem_of_In, filter_In, <- list_elem_of_In.
      intros [? Hn]. split; [done|]. by apply negb_true_iff in Hn. }
  set (ranked := match ctx with Some c => rankByContext kept c | None => kept end) in H.
  assert (Hranked : ∀ t, t ∈ ranked → t ∈ kept).
  { intros t. subst ranked. destruct ctx; [apply rankByContext_elem|done]. }
  destruct (if interestGraphEnabled be then getOrCompute be u else mret None)
    as [interestGraph|]; simpl in H; [|done].
  set (filtered := match interestGraph with
                   | Some g => applyInterestGraphFilters ranked g
                   | None => ranked
                   end) in H.
  assert (Hfiltered : ∀ t, t ∈ filtered → t ∈ ranked).
  { intros t. subst filtered. destruct interestGraph as [g|]; [|done].
    rewrite !list_elem_of_In, applyInterestGraphFilters_spec. tauto. }
  destruct (getRecentTrackSequenceFromDb be u 50) as [sq|]; simpl in H; [|done].
  injection H as <-. intros t Ht. apply Hkept, Hranked, Hfiltered.
  destruct (rerank be u _ ctx sq interestGraph _) as [[|item items]|]; try done.
  by apply reorderTracksByRerank_elem in Ht.
- unfold genreBasedRecommendations in H.
  destruct (preferredGenres updated) as [|g gs]; simpl in H.
  + left. by injection H as <-.
  + by right.
Qed.




End Sources.

(** X20.  The pipeline returns only tracks that one of its four store
    queries returned in this request (popular by genre, popular overall,
    nearest to the embedding, popular by genre without the skipped ones), read
    with twice or three times the limit: the filters, the context ranking, the
    reranker and the diversity rule only remove and reorder, and an identifier
    the reranker makes up adds nothing. *)
Theorem generate_returns_only_store_rows
  (be : RecommendationsService.Backend) (externalUserId : string) (limit : Z)
  (ctx : option InteractionContext) (response : RecommendationResponse) :
RecommendationsService.generate be externalUserId limit ctx = Ok response →
context response = ctx
∧ generatedAt response = RecommendationsService.now be
∧ ∀ t, t ∈ tracks response →
    (∃ genres rows,
        RecommendationsService.popularByGenre be genres (limit * 2) = Ok rows ∧ t ∈ rows)
    ∨ (∃ rows, RecommendationsService.popularGlobal be (limit * 2) = Ok rows ∧ t ∈ rows)
    ∨ (∃ embedding excluded rows,
        RecommendationsService.annByEmbedding be embedding excluded (limit * 3) = Ok rows
        ∧ t ∈ rows)
    ∨ (∃ genres excluded rows,
        RecommendationsService.popularByGenreExcluding be genres excluded (limit * 2) = Ok rows
        ∧ t ∈ rows).
Proof.
unfold RecommendationsService.generate. intros H.
destruct (RecommendationsService.findOrCreateProfile be externalUserId) as [profile|];
  simpl in H; [|done].
destruct (RecommendationsService.getUserInteractionStats be externalUserId) as [stats|];
  simpl in H; [|done].
destruct (RecommendationsService.isColdStart stats profile).
- unfold RecommendationsService.coldStartRecommendations in H.
  destruct (0 <? length (preferredGenres profile))%nat.
  + destruct (RecommendationsService.popularByGenre be _ _) as [rows|] eqn:Hq;
      simpl in H; [|done].
    injection H as <-. simpl. split; [done|]. split; [done|]. intros t Ht.
    left. exists (preferredGenres profile), rows. split; [done|].
    apply slice0_elem in Ht.
    by eapply elem_of_sublist; [|apply applyDiversityRules_sublist].
  + destruct (RecommendationsService.popularGlobal be _) as [rows|] eqn:Hq;
      simpl in H; [|done].
    injection H as <-. simpl. split; [done|]. split; [done|]. intros t Ht.
    right. left. exists rows. split; [done|].
    apply slice0_elem in Ht.
    by eapply elem_of_sublist; [|apply applyDiversityRules_sublist].
- destruct (RecommendationsService.personalizedRecommendations be externalUserId profile
              limit ctx) as [ts|] eqn:Hp; simpl in H; [|done].
  injection H as <-. simpl. split; [done|]. split; [done|]. intros t Ht.
  apply slice0_elem in Ht.
  assert (Hts : t ∈ ts) by (by eapply elem_of_sublist; [|apply applyDiversityRules_sublist]).
  apply personalized_sources in Hp as (updated & ex & _ & _ & Hbranch).
  destruct (profileEmbedding updated) as [embedding|].
  + destruct Hbranch as (rows & Hq & Hall). right. right. left.
    exists embedding, ex, rows. split; [done|]. by apply Hall.
  + destruct Hbranch as [[-> _]|Hq]; [by apply elem_of_nil in Hts|].
    right. right. right. by exists (preferredGenres updated), ex, ts.
Qed.

(** The cold start of S5: all four tracks are rows of the popular query. *)
Lemma generate_returns_only_store_rows_witness :
RecommendationsService.generate coldBackend "u5" 20 None = Ok diverseResponse
∧ context diverseResponse = None.
Proof.
assert (Hrun : RecommendationsService.generate coldBackend "u5" 20 None = Ok diverseResponse)
  by (vm_compute; reflexivity).
split; [exact Hrun|].
exact (proj1 (generate_returns_only_store_rows coldBackend "u5" 20 None diverseResponse Hrun)).
Defined.



(** ** Two skips in a row *)

Section TwoSkips.
Import InteractionsService.

Definition noSkipDb : Db := {| trackIds := {[ trackA; trackB ]}; interactions := [] |}.

Definition firstSkip : InteractionEventInput :=
{| ev_trackId := trackA; ev_eventType := SKIP; ev_eventValue := None; ev_context := None;
   ev_clientTs := "2024-01-15T10:00:00Z" |}.

Lemma recordInteraction_ok db tInsert tCount u event interaction refresh db' :
recordInteraction db tInsert tCount u event = Ok (interaction, refresh, db') →
fitsVarchar255 u = true
∧ db' = {| trackIds := trackIds db; interactions := interactions db ++ [interaction] |}
∧ int_externalUserId interaction = u
∧ int_eventType interaction = ev_eventType event
∧ int_createdAt interaction = tInsert
∧ refresh = shouldRefreshRecommendations db' tCount u (ev_eventType event).
Proof.
unfold recordInteraction, insertInteraction.
destruct (fitsVarchar255 u); simpl; [|done].
destruct (fitsInteger _); simpl; [|done].
destruct (uuidIn _); simpl; [|done].
case_bool_decide as Hknown; simpl; [|done].
intros [= <- <- <-]. done.
Qed.

End TwoSkips.

(** X22.  A [SKIP] that is recorded while no row of the table is a [SKIP]
    of this user from the sixty seconds before the count does not ask for a
    refresh, whatever rows of other users and whatever older or other rows of
    the user the table holds.  The next [SKIP] of the user that the store
    takes does, on any track, when it is written after the first and counted
    less than sixty seconds after the first was written. *)
Theorem second_skip_within_a_minute_triggers
  (db db1 : InteractionsService.Db) (t1 c1 : Z) (externalUserId : string)
  (first : InteractionsService.InteractionEventInput)
  (interaction : InteractionsService.Interaction) (refresh : bool) :
InteractionsService.recordInteraction db t1 c1 externalUserId first
  = Ok (interaction, refresh, db1) →
InteractionsService.ev_eventType first = SKIP →
((∀ r, r ∈ InteractionsService.interactions db →
       InteractionsService.int_externalUserId r = externalUserId →
       InteractionsService.int_eventType r = SKIP →
       (InteractionsService.int_createdAt r ≤ c1 - 60 * 1000000)%Z) →
 refresh = false)
∧ ∀ (second : InteractionsService.InteractionEventInput) (t2 c2 : Z) (trackId : string),
    InteractionsService.ev_eventType second = SKIP →
    InteractionsService.fitsInteger (InteractionsService.ev_eventValue second) = true →
    InteractionsService.uuidIn (InteractionsService.ev_trackId second) = Some trackId →
    trackId ∈ InteractionsService.trackIds db →
    (t1 ≤ t2 ≤ c2)%Z → (c2 < t1 + 60 * 1000000)%Z →
    ∃ interaction2 db2,
      InteractionsService.recordInteraction db1 t2 c2 externalUserId second
      = Ok (interaction2, true, db2).
Proof.
intros Hrec Hskip.
apply recordInteraction_ok in Hrec as (Hfits & -> & Hu & He & Ht & ->).
split.
- intros Hold. apply not_true_iff_false. rewrite shouldRefreshRecommendations_iff.
  rewrite countRecentSkips_snoc.
  assert (H0 : InteractionsService.countRecentSkips db externalUserId c1 = 0%nat).
  { rewrite countRecentSkips_rows. apply length_zero_iff_nil.
    induction (InteractionsService.interactions db) as [|r l IH]; [done|].
    rewrite filter_cons. rewrite decide_False.
    - apply IH. intros r' Hr'. apply Hold. by right.
    - intros (Hru & Hre & Hrt). specialize (Hold r ltac:(by left) Hru Hre). lia. }
  rewrite H0. intros [_ Hge].
  unfold InteractionsService.SKIP_THRESHOLD in Hge.
  destruct (InteractionsService.isRecentSkip _ _ _); simpl in Hge; lia.
- intros second t2 c2 trackId Hskip2 Hvalue2 Hid2 Hknown2 Htimes Hwindow.
  destruct (insertInteraction_ok
              {| InteractionsService.trackIds := InteractionsService.trackIds db;
                 InteractionsService.interactions :=
                   InteractionsService.interactions db ++ [interaction] |}
              t2 externalUserId second trackId Hfits Hvalue2 Hid2 Hknown2)
    as (row & Hins & Hu2 & He2 & Ht2 & _).
  unfold InteractionsService.recordInteraction. rewrite Hins. simpl.
  eexists _, _. do 3 f_equal.
  apply shouldRefreshRecommendations_iff. split; [done|].
  rewrite countRecentSkips_rows. simpl.
  rewrite !filter_app, !length_app, !filter_cons, !filter_nil.
  rewrite (decide_True (P := _ interaction = _ ∧ _)).
  2:{ rewrite Hu, He, Hskip, Ht. repeat split; lia. }
  rewrite (decide_True (P := _ row = _ ∧ _)).
  2:{ rewrite Hu2, He2, Hskip2, Ht2. repeat split; lia. }
  unfold InteractionsService.SKIP_THRESHOLD. simpl. lia.
Qed.

(** The first skip of u3 on an empty table gives the table of S3. *)
Lemma second_skip_within_a_minute_triggers_witness :
InteractionsService.recordInteraction noSkipDb 0 0 "u3" firstSkip
= Ok (InteractionsService.Build_Interaction 0 "u3" trackA SKIP None None 0, false, oneSkipDb)
∧ InteractionsService.ev_eventType firstSkip = SKIP
∧ ∃ interaction2 db2,
    InteractionsService.recordInteraction oneSkipDb
      (InteractionsService.seconds 2) (InteractionsService.seconds 2) "u3" secondSkip
    = Ok (interaction2, true, db2).
Proof.
assert (Hrun : InteractionsService.recordInteraction noSkipDb 0 0 "u3" firstSkip
               = Ok (InteractionsService.Build_Interaction 0 "u3" trackA SKIP None None 0,
                     false, oneSkipDb)) by (vm_compute; reflexivity).
split; [exact Hrun|]. split; [reflexivity|].
apply (proj2 (second_skip_within_a_minute_triggers noSkipDb oneSkipDb 0 0 "u3" firstSkip
                _ false Hrun eq_refl) secondSkip
         (InteractionsService.seconds 2) (InteractionsService.seconds 2) trackB).
- reflexivity.
- reflexivity.
- vm_compute. reflexivity.
- apply (bool_decide_unpack _). vm_compute. reflexivity.
- vm_compute. split; congruence.
- reflexivity.
Defined.

(** ** The query parameters of a request *)

Section QueryParameters.
Import Schemas RecommendationsService.

Lemma MoodSchema_ok s v : MoodSchema s = Ok v → s = moodName v.
Proof.
unfold MoodSchema.
repeat (match goal with
        | |- context [String.eqb s ?lit] =>
            destruct (String.eqb_spec s lit) as [->|_]; [by intros [= <-]|]
        end).
done.
Qed.

Lemma ActivitySchema_ok s v : ActivitySchema s = Ok v → s = activityName v.
Proof.
unfold ActivitySchema.
repeat (match goal with
        | |- context [String.eqb s ?lit] =>
            destruct (String.eqb_spec s lit) as [->|_]; [by intros [= <-]|]
        end).
done.
Qed.

Lemma TimeBucketSchema_ok s v : TimeBucketSchema s = Ok v → s = timeBucketName v.
Proof.
unfold TimeBucketSchema.
repeat (match goal with
        | |- context [String.eqb s ?lit] =>
            destruct (String.eqb_spec s lit) as [->|_]; [by intros [= <-]|]
        end).
done.
Qed.

Lemma optional_ok {A B} (schema : A → Result B) (name : B → A) o v :
(∀ a b, schema a = Ok b → a = name b) →
optional schema o = Ok v → o = name <$> v.
Proof.
intros Hs. destruct o as [a|]; simpl.
- destruct (schema a) as [b|] eqn:Hb; simpl; [|done]. intros [= <-]. simpl.
  f_equal. by apply Hs.
- by intros [= <-].
Qed.

Lemma InteractionContextSchema_ok raw c :
InteractionContextSchema raw = Ok c →
raw_mood raw = moodName <$> mood c
∧ raw_activity raw = activityName <$> activity c
∧ raw_timeBucket raw = timeBucketName <$> timeBucket c.
Proof.
unfold InteractionContextSchema.
destruct (optional MoodSchema (raw_mood raw)) as [m|] eqn:Hm; simpl; [|done].
destruct (optional ActivitySchema (raw_activity raw)) as [a|] eqn:Ha; simpl; [|done].
destruct (optional TimeBucketSchema (raw_timeBucket raw)) as [b|] eqn:Hb; simpl; [|done].
intros [= <-]. simpl.
split; [by apply (optional_ok _ _ _ _ MoodSchema_ok)|].
split; [by apply (optional_ok _ _ _ _ ActivitySchema_ok)|].
by apply (optional_ok _ _ _ _ TimeBucketSchema_ok).
Qed.

End QueryParameters.

(** X23.  The handler accepts a context only when every parameter that is
    present spells a value of its enumeration: the validated context then
    carries exactly the values named by the parameters and is not empty.
    Conversely the names of the fields of any non-empty context pass validation
    and give that context back, with the default limit 20.  An empty parameter
    beside a non-empty one is not ignored: the request is rejected. *)
Theorem validate_context_round_trip
  (mood activity timeBucket limit : option string) (c : InteractionContext) :
(∀ request,
   RecommendationsController.validate mood activity timeBucket limit = Ok request →
   match req_context request with
   | Some c' =>
       mood = RecommendationsService.moodName <$> Shared.mood c'
       ∧ activity = RecommendationsService.activityName <$> Shared.activity c'
       ∧ timeBucket = RecommendationsService.timeBucketName <$> Shared.timeBucket c'
       ∧ c' ≠ emptyContext
   | None =>
       JS.truthyOptStr mood = false ∧ JS.truthyOptStr activity = false
       ∧ JS.truthyOptStr timeBucket = false
   end)
∧ (c ≠ emptyContext →
   RecommendationsController.validate
     (RecommendationsService.moodName <$> Shared.mood c)
     (RecommendationsService.activityName <$> Shared.activity c)
     (RecommendationsService.timeBucketName <$> Shared.timeBucket c) None
   = Ok {| req_context := Some c; req_limit := Some 20%Z |})
∧ (JS.truthyOptStr activity || JS.truthyOptStr timeBucket = true →
   ∃ e, RecommendationsController.validate (Some EmptyString) activity timeBucket limit
        = Throw e).
Proof.
split; [|split].
- intros request. unfold RecommendationsController.validate, Schemas.RecommendationRequestSchema,
    RecommendationsController.buildRequest.
  cbn [Schemas.raw_context Schemas.raw_limit].
  destruct (existsb JS.truthyOptStr [mood; activity; timeBucket]) eqn:Hany.
  + cbn [Schemas.optional].
    destruct (Schemas.InteractionContextSchema _) as [c'|] eqn:Hc; simpl; [|done].
    match goal with |- context [Schemas.LimitSchema ?x] => destruct (Schemas.LimitSchema x) end;
      simpl; [|done].
    intros [= <-]. simpl.
    apply InteractionContextSchema_ok in Hc as (Hm & Ha & Hb). simpl in Hm, Ha, Hb.
    split; [done|]. split; [done|]. split; [done|].
    intros ->. subst. simpl in Hany. done.
  + simpl.
    match goal with |- context [Schemas.LimitSchema ?x] => destruct (Schemas.LimitSchema x) end;
      simpl; [|done].
    intros [= <-]. simpl. simpl in Hany.
    destruct (JS.truthyOptStr mood), (JS.truthyOptStr activity), (JS.truthyOptStr timeBucket);
      done.
- intros Hne. destruct c as [[[]|] [[]|] [[]|]]; try done; vm_compute; reflexivity.
- intros Hany. unfold RecommendationsController.validate, Schemas.RecommendationRequestSchema,
    RecommendationsController.buildRequest.
  cbn [Schemas.raw_context Schemas.raw_limit].
  replace (existsb JS.truthyOptStr [Some EmptyString; activity; timeBucket]) with true
    by (simpl; destruct (JS.truthyOptStr activity), (JS.truthyOptStr timeBucket); done).
  eexists. simpl. reflexivity.
Qed.

(** ** The cache key of a request *)

Section KeyOfQuery.
Import RecommendationsService RecommendationsController.








End KeyOfQuery.



(** ** Cache keys of different users *)

(** X24.  The cache key determines the user and the context: two requests
    share a key only when they come from the same user with the same context,
    for user identifiers that hold no colon.  Without that the entries of one
    user can fall under the flush pattern of another: invalidating the cache of
    a user whose identifier has none of the special characters of a Redis
    pattern also drops the entries of every user whose identifier is that
    user's followed by a colon and more. *)
Theorem cacheKey_separates_users
  (user1 user2 : string) (ctx1 ctx2 : option InteractionContext) :
(colonFree user1 = true → colonFree user2 = true →
 RecommendationsService.cacheKey user1 ctx1 = RecommendationsService.cacheKey user2 ctx2 →
 user1 = user2 ∧ ctx1 = ctx2)
∧ (globFree user1 = true →
   ∀ (rest : string) cache,
     RecommendationsService.invalidateCache cache user1
     !! RecommendationsService.cacheKey (user1 +:+ ":" +:+ rest) ctx2 = None).
Proof.
split.
- intros H1 H2 Hkey.
  assert (Hu : user1 = user2).
  { pose proof (cacheKey_prefix user1 ctx1) as Hp. rewrite Hkey in Hp.
    unfold RecommendationsService.cacheKey in Hp. rewrite prefix_app_both in Hp.
    by eapply prefix_colon. }
  subst user2. split; [done|].
  unfold RecommendationsService.cacheKey in Hkey.
  assert (Hinj : ∀ p a b : string, p +:+ a = p +:+ b → a = b).
  { intros p a b. induction p as [|x p IH]; [done|].
    rewrite !append_cons. intros [= ?]. by apply IH. }
  apply Hinj, Hinj, Hinj in Hkey.
  destruct ctx1 as [c1|], ctx2 as [c2|]; [| | |done].
  + f_equal. by apply stringifyContext_inj.
  + exfalso. destruct c1 as [[[]|] [[]|] [[]|]]; by vm_compute in Hkey.
  + exfalso. destruct c2 as [[[]|] [[]|] [[]|]]; by vm_compute in Hkey.
- intros _ rest cache. rewrite invalidateCache_lookup.
  unfold RecommendationsService.cacheKey.
  set (m := match ctx2 with
            | Some c => RecommendationsService.stringifyContext c
            | None => "undefined"
            end).
  rewrite prefix_app_both.
  rewrite (append_assoc' user1 (":" +:+ rest) (":" +:+ m)).
  rewrite prefix_app_both.
  rewrite (append_assoc' ":" rest (":" +:+ m)).
  by rewrite prefix_append.
Qed.

(** ** The range of the context score *)

Section ScoreRange.
Import RecommendationsService.

(** Energy, valence and danceability as [AudioFeaturesSchema] admits them:
    between 0 and 1 where present. *)
Definition featuresInRange (t : Track) : Prop :=
∀ f, f ∈ [energy; valence; danceability] → ∀ x, feature t f = Some x → (0 <= x <= 1)%Q.

Lemma term_range (o : option Q) :
(∀ x, o = Some x → (0 <= x <= 1)%Q) →
(0 <= getQ o <= 1)%Q.
Proof.
intros Hr. destruct o as [x|]; simpl; [by apply Hr|lra].
Qed.

End ScoreRange.

(** X25.  For a track whose audio features lie between 0 and 1 the
    context score lies between 0 and 20: a mood contributes at most 10 and an
    activity at most 10.  A track without audio features scores 0 in every
    context. *)
Theorem contextScore_range (ctx : InteractionContext) (t : Track) :
featuresInRange t →
(0 <= RecommendationsService.contextScore ctx t <= 20)%Q
∧ (audioFeatures t = None → RecommendationsService.contextScore ctx t = 0%Q).
Proof.
intros Hr. split.
- assert (He := term_range (RecommendationsService.feature t energy)
                  (Hr energy ltac:(set_solver))).
  assert (Hv := term_range (RecommendationsService.feature t valence)
                  (Hr valence ltac:(set_solver))).
  assert (Hd := term_range (RecommendationsService.feature t danceability)
                  (Hr danceability ltac:(set_solver))).
  unfold RecommendationsService.contextScore. cbv zeta.
  generalize dependent (RecommendationsService.getQ (RecommendationsService.feature t energy)).
  generalize dependent (RecommendationsService.getQ (RecommendationsService.feature t valence)).
  generalize dependent
    (RecommendationsService.getQ (RecommendationsService.feature t danceability)).
  intros d Hd v Hv e He.
  destruct (JS.truthyQ (RecommendationsService.feature t energy)),
           (JS.truthyQ (RecommendationsService.feature t valence)),
           (JS.truthyQ (RecommendationsService.feature t danceability));
    destruct (mood ctx) as [[]|], (activity ctx) as [[]|];
    unfold RecommendationsService.addIf; simpl; lra.
- intros Hnone. unfold RecommendationsService.contextScore, RecommendationsService.feature.
  rewrite Hnone. simpl. by rewrite !andb_false_r.
Qed.

(** A track of energy one half under a calm mood. *)
Lemma contextScore_range_witness :
featuresInRange halfEnergy
∧ (0 <= RecommendationsService.contextScore calm halfEnergy <= 20)%Q.
Proof.
assert (Hr : featuresInRange halfEnergy).
{ intros f Hf x Hx.
  apply elem_of_cons in Hf as [->|Hf]; [vm_compute in Hx; injection Hx as <-; lra|].
  apply elem_of_cons in Hf as [->|Hf]; [by vm_compute in Hx|].
  apply elem_of_cons in Hf as [->|Hf]; [by vm_compute in Hx|].
  by apply elem_of_nil in Hf. }
split; [exact Hr|]. exact (proj1 (contextScore_range calm halfEnergy Hr)).
Defined.

(** ** The graph of one like and one dislike *)

(** The invariants of [compute] on the rows of one [LIKE] and one [DISLIKE]. *)
Lemma compute_invariants_witness :
InterestGraphService.compute likeAndDislike
= Some (default avoidX (InterestGraphService.compute likeAndDislike))
∧ size (InterestGraphService.avoidArtists
          (default avoidX (InterestGraphService.compute likeAndDislike))) ≤ 20.
Proof.
assert (Hrun : InterestGraphService.compute likeAndDislike
               = Some (default avoidX (InterestGraphService.compute likeAndDislike)))
  by reflexivity.
split; [exact Hrun|].
exact (proj1 (proj2 (proj2 (proj1 (compute_invariants likeAndDislike _ Hrun))))).
Defined.

(** ** Ranking two tracks *)

(** Tracks of energy 0 and 1/2: features the doubles hold exactly. *)
Lemma exactFeatures_samples : Forall exactFeatures [halfEnergy; zeroEnergy].
Proof.
repeat constructor; intros f Hf x Hx;
repeat (apply elem_of_cons in Hf as [->|Hf]); try (by apply elem_of_nil in Hf);
try discriminate Hx; injection Hx as <-; reflexivity.
Qed.

(** Under a calm mood the track of energy 1/2 scores 5 and goes first. *)
Lemma rankByContext_stable_sort_witness :
Forall exactFeatures [zeroEnergy; halfEnergy]
∧ RecommendationsService.rankByContext [zeroEnergy; halfEnergy] calm = [halfEnergy; zeroEnergy]
∧ StronglySorted
    (fun a b => (RecommendationsService.contextScore calm b
                 <= RecommendationsService.contextScore calm a)%Q)
    (RecommendationsService.rankByContext [zeroEnergy; halfEnergy] calm).
Proof.
assert (He : Forall exactFeatures [zeroEnergy; halfEnergy]).
{ pose proof exactFeatures_samples as H. apply Forall_cons in H as [H1 H2].
  apply Forall_cons. split; [by apply Forall_cons in H2 as [H2 _]|].
  apply Forall_cons. split; [exact H1|constructor]. }
split; [exact He|]. split; [vm_compute; reflexivity|].
exact (proj1 (proj2 (rankByContext_stable_sort [zeroEnergy; halfEnergy] calm) He)).
Defined.

(** The list in descending order of score is left as it is. *)
Lemma rankByContext_keeps_sorted_witness :
Forall exactFeatures [halfEnergy; zeroEnergy]
∧ StronglySorted
    (fun a b => (RecommendationsService.contextScore calm b
                 <= RecommendationsService.contextScore calm a)%Q)
    [halfEnergy; zeroEnergy]
∧ RecommendationsService.rankByContext [halfEnergy; zeroEnergy] calm = [halfEnergy; zeroEnergy].
Proof.
assert (Hs : StronglySorted
    (fun a b => (RecommendationsService.contextScore calm b
                 <= RecommendationsService.contextScore calm a)%Q)
    [halfEnergy; zeroEnergy]).
{ repeat constructor. apply Qle_bool_iff. vm_compute. reflexivity. }
split; [exact exactFeatures_samples|]. split; [exact Hs|].
exact (proj1 (rankByContext_keeps_sorted [halfEnergy; zeroEnergy] calm)
         exactFeatures_samples Hs).
Defined.
